(** * n8n-nodes-jupiter: quote, route and transaction utilities

    A shallow embedding of [nodes/Jupiter/utils/quoteUtils.ts],
    [nodes/Jupiter/utils/routeUtils.ts] and
    [nodes/Jupiter/utils/transactionUtils.ts], with the properties the
    specification states about them, and further properties of these
    utilities, of the DCA and token helpers next to them, and of the
    places in the Solana client that use them.

    Conventions of the embedding:
    - a JavaScript string is a [string]; its characters are the 8-bit
      code units of [ascii];
    - a [bigint] is a [Z];
    - a [number] that the code uses as an integer (the basis points of a
      slippage that is subtracted, route percentages, decimals, slots,
      retry counts) is a [Z] or a [nat]; a [number] that is only compared
      or that is a genuine floating-point value (the basis points that
      [validateQuoteParams] checks, price impacts) is a [Number] (module
      [JS]), with [NaN], the infinities and binary64
      round-to-nearest-even written out;
    - a function that can throw returns a [Result];
    - asynchronous code that talks to the RPC connection is written in
      state-passing style over a scripted connection and a virtual clock. *)

From Stdlib Require Import ZArith QArith Qabs Qround Lia Lqa List Bool Ascii String.
From stdpp Require Import base option list gmap strings.
Import ListNotations.

#[local] Open Scope Z_scope.

(** ** Exceptions *)

(** What a [throw] carries.  [SyntaxError], [RangeError] and [Error] are
    instances of the JavaScript class [Error]; [Foreign] stands for any
    thrown value that is not. *)
Inductive Thrown : Type :=
| SyntaxError
| RangeError
| Error (msg : string)
| Foreign (v : string).

Definition instanceof_Error (e : Thrown) : bool :=
  match e with
  | Foreign _ => false
  | _ => true
  end.

Inductive Result (A : Type) : Type :=
| Ok (a : A)
| Throw (e : Thrown).
Arguments Ok {A} a.
Arguments Throw {A} e.

Definition rbind {A B} (r : Result A) (k : A -> Result B) : Result B :=
  match r with
  | Ok a => k a
  | Throw e => Throw e
  end.

Notation "'let*' x ':=' r 'in' k" := (rbind r (fun x => k))
  (at level 10, x name, r at level 100, k at level 200).

(** ** Strings *)

Module Str.

Definition chars (s : string) : list ascii := list_ascii_of_string s.
Definition pack (l : list ascii) : string := string_of_list_ascii l.

Definition code (c : ascii) : Z := Z.of_N (N_of_ascii c).

(** WhiteSpace and LineTerminator code units below 256. *)
Definition is_space (c : ascii) : bool :=
  let n := code c in
  ((9 <=? n) && (n <=? 13)) || (n =? 32) || (n =? 160).

Definition is_zero (c : ascii) : bool := code c =? 48.

Definition is_digit (c : ascii) : bool :=
  (48 <=? code c) && (code c <=? 57).

Definition all_digits (l : list ascii) : bool := forallb is_digit l.

(** The number that a list of decimal digits denotes. *)
Definition nat_value (ds : list ascii) : Z :=
  fold_left (fun acc c => acc * 10 + (code c - 48)) ds 0.

(** A digit string without a leading zero. *)
Definition head_nonzero (l : list ascii) : bool :=
  match l with
  | c :: _ => negb (is_zero c)
  | [] => false
  end.

(** [c] is one of the two characters with the codes [lower] and [upper]. *)
Definition is_letter (lower upper : Z) (c : ascii) : bool :=
  (code c =? lower) || (code c =? upper).

Fixpoint drop_while (p : ascii -> bool) (l : list ascii) : list ascii :=
  match l with
  | [] => []
  | c :: l' => if p c then drop_while p l' else l
  end.

Definition drop_while_end (p : ascii -> bool) (l : list ascii) : list ascii :=
  rev (drop_while p (rev l)).

(** [String.prototype.trim] *)
Definition trim (l : list ascii) : list ascii :=
  drop_while_end is_space (drop_while is_space l).

(** [s.padStart(n, '0')] and [s.padEnd(n, '0')] *)
Definition padStart0 (l : list ascii) (n : nat) : list ascii :=
  repeat "0"%char (n - length l) ++ l.
Definition padEnd0 (l : list ascii) (n : nat) : list ascii :=
  l ++ repeat "0"%char (n - length l).

(** [s.slice(0, n)] for [n >= 0] *)
Definition slice0 (l : list ascii) (n : nat) : list ascii := take n l.

(** [s.split(c)]: the pieces between the occurrences of [c]; never empty. *)
Fixpoint split (sep : ascii) (l : list ascii) : list (list ascii) :=
  match l with
  | [] => [[]]
  | c :: l' =>
      if Ascii.eqb c sep then [] :: split sep l'
      else match split sep l' with
           | [] => [[c]]
           | p :: ps => (c :: p) :: ps
           end
  end.

(** [s.replace(/0+$/, '')] and [s.replace(/^0+/, '')] *)
Definition strip_trailing_zeros (l : list ascii) : list ascii :=
  drop_while_end is_zero l.
Definition strip_leading_zeros (l : list ascii) : list ascii :=
  drop_while is_zero l.

End Str.

(** ** BigInt *)

Module BigInt.

Definition digit_char (d : Z) : ascii := ascii_of_N (Z.to_N (d + 48)).

(** The value of the digit [c] in the given radix. *)
Definition digit_in (radix : Z) (c : ascii) : option Z :=
  let n := Str.code c in
  let d := if (48 <=? n) && (n <=? 57) then n - 48
           else if (97 <=? n) && (n <=? 122) then n - 87
           else if (65 <=? n) && (n <=? 90) then n - 55
           else radix in
  if d <? radix then Some d else None.

Fixpoint digits_value (radix acc : Z) (l : list ascii) : option Z :=
  match l with
  | [] => Some acc
  | c :: l' =>
      match digit_in radix c with
      | Some d => digits_value radix (acc * radix + d) l'
      | None => None
      end
  end.

(** One or more digits. *)
Definition literal (radix : Z) (l : list ascii) : option Z :=
  match l with
  | [] => None
  | _ => digits_value radix 0 l
  end.

(** The radix announced by a [0x], [0o] or [0b] prefix, with the
    characters after it. *)
Definition radix_prefix (l : list ascii) : option (Z * list ascii) :=
  match l with
  | z :: p :: ds =>
      if negb (Str.is_zero z) then None
      else if Str.is_letter 120 88 p then Some (16, ds)
      else if Str.is_letter 111 79 p then Some (8, ds)
      else if Str.is_letter 98 66 p then Some (2, ds)
      else None
  | _ => None
  end.

(** StringToBigInt: surrounding white space is dropped, the empty
    string is [0n], a decimal literal may carry a sign, a literal with
    a [0x], [0o] or [0b] prefix may not. *)
Definition parse (l : list ascii) : option Z :=
  match Str.trim l with
  | [] => Some 0
  | c :: ds =>
      if Str.code c =? 45 then Z.opp <$> literal 10 ds
      else if Str.code c =? 43 then literal 10 ds
      else match radix_prefix (c :: ds) with
           | Some (radix, ds') => literal radix ds'
           | None => literal 10 (c :: ds)
           end
  end.

(** [BigInt(s)] for a string [s]; a string that is no integer literal
    raises a [SyntaxError]. *)
Definition of_string (s : string) : Result Z :=
  match parse (Str.chars s) with
  | Some z => Ok z
  | None => Throw SyntaxError
  end.

Fixpoint to_digits (fuel : nat) (n : Z) : list ascii :=
  match fuel with
  | O => []
  | S f =>
      if n <? 10 then [digit_char n]
      else to_digits f (n / 10) ++ [digit_char (n mod 10)]
  end.

(** The decimal digits of [n >= 0], most significant first. *)
Definition decimal (n : Z) : list ascii :=
  to_digits (S (Z.to_nat (Z.log2 n))) n.

Definition to_chars (z : Z) : list ascii :=
  if z <? 0 then "-"%char :: decimal (- z) else decimal z.

(** [z.toString()] *)
Definition toString (z : Z) : string := Str.pack (to_chars z).

(** [a / b] and [a % b] on bigints truncate towards zero and raise a
    [RangeError] when [b] is [0n]. *)
Definition div (a b : Z) : Result Z :=
  if b =? 0 then Throw RangeError else Ok (Z.quot a b).
Definition rem (a b : Z) : Result Z :=
  if b =? 0 then Throw RangeError else Ok (Z.rem a b).

End BigInt.

(** ** Number

    A finite binary64 value is carried as the rational it denotes; every
    arithmetic result is rounded to the nearest binary64 value, ties to
    even, overflowing to an infinity.  The sign of a zero is not tracked:
    no comparison of this code tells [-0] from [0]. *)

Module JS.

Inductive Number : Type :=
| NaN
| Infinity (negative : bool)
| Finite (q : Q).

(** [floor (log2 (n / d))] for [n, d > 0]. *)
Definition ilog2 (n d : Z) : Z :=
  let e := Z.log2 n - Z.log2 d in
  if (if 0 <=? e then d * 2 ^ e <=? n else d <=? n * 2 ^ (- e))
  then e else e - 1.

(** The integer nearest to [a / b], ties to even ([0 <= a], [0 < b]). *)
Definition div_half_even (a b : Z) : Z :=
  let q := a / b in
  match 2 * (a mod b) ?= b with
  | Lt => q
  | Gt => q + 1
  | Eq => if Z.even q then q else q + 1
  end.

(** [m * 2 ^ k] *)
Definition scale2 (m k : Z) : Q :=
  if 0 <=? k then inject_Z (m * 2 ^ k) else Qmake m (Z.to_pos (2 ^ (- k))).

(** The binary64 value nearest to [n / d] for [n, d > 0]: 53 significant
    bits, no exponent below that of the subnormals, [Infinity] from
    [2 ^ 1024] on. *)
Definition round_pos (n d : Z) : Number :=
  let k := Z.max (ilog2 n d) (-1022) - 52 in
  let m := if 0 <=? k then div_half_even n (d * 2 ^ k)
           else div_half_even (n * 2 ^ (- k)) d in
  if 2 ^ (1024 - k) <=? m then Infinity false else Finite (scale2 m k).

Definition neg (x : Number) : Number :=
  match x with
  | NaN => NaN
  | Infinity s => Infinity (negb s)
  | Finite q => Finite (- q)
  end.

Definition round (q : Q) : Number :=
  match Qnum q with
  | Z0 => Finite 0
  | Zpos n => round_pos (Zpos n) (Zpos (Qden q))
  | Zneg n => neg (round_pos (Zpos n) (Zpos (Qden q)))
  end.

(** An integer literal of the source, such as [100] or [20]. *)
Definition of_Z (z : Z) : Number := round (inject_Z z).

Definition isNaN (x : Number) : bool :=
  match x with NaN => true | _ => false end.

(** [Math.abs] *)
Definition abs (x : Number) : Number :=
  match x with
  | NaN => NaN
  | Infinity _ => Infinity false
  | Finite q => Finite (Qabs q)
  end.

(** [x * y] *)
Definition mul (x y : Number) : Number :=
  match x, y with
  | NaN, _ | _, NaN => NaN
  | Finite a, Finite b => round (a * b)
  | Infinity s, Finite b =>
      if Qeq_bool b 0 then NaN else Infinity (xorb s (negb (Qle_bool 0 b)))
  | Finite a, Infinity s =>
      if Qeq_bool a 0 then NaN else Infinity (xorb s (negb (Qle_bool 0 a)))
  | Infinity s, Infinity t => Infinity (xorb s t)
  end.

(** [x - y] *)
Definition sub (x y : Number) : Number :=
  match x, y with
  | NaN, _ | _, NaN => NaN
  | Finite a, Finite b => round (a - b)
  | Infinity s, Finite _ => Infinity s
  | Finite _, Infinity t => Infinity (negb t)
  | Infinity s, Infinity t => if Bool.eqb s t then NaN else Infinity s
  end.

(** [x < y]; false when an operand is [NaN]. *)
Definition lt (x y : Number) : bool :=
  match x, y with
  | NaN, _ | _, NaN => false
  | Finite a, Finite b => negb (Qle_bool b a)
  | Infinity s, Finite _ => s
  | Finite _, Infinity t => negb t
  | Infinity s, Infinity t => s && negb t
  end.

Definition gt (x y : Number) : bool := lt y x.

(** [x <= y]; false when an operand is [NaN]. *)
Definition le (x y : Number) : bool :=
  match x, y with
  | NaN, _ | _, NaN => false
  | Finite a, Finite b => Qle_bool a b
  | Infinity s, Finite _ => s
  | Finite _, Infinity t => negb t
  | Infinity s, Infinity t => s || negb t
  end.

Definition ge (x y : Number) : bool := le y x.

(** [Math.max(x, y)] *)
Definition max (x y : Number) : Number :=
  match x, y with
  | NaN, _ | _, NaN => NaN
  | _, _ => if lt x y then y else x
  end.

(** [10 ** d] for an integer [d >= 0], taken as the binary64 value
    nearest to the power.  That is the value the runtime computes up to
    [d = 23], and nothing below uses a larger [d]: from [d = 24] on the
    runtime's [**] can be one unit in the last place away from the
    nearest value (it is at [d = 26]), and this definition does not
    stand for it there. *)
Definition pow10 (d : nat) : Number := of_Z (10 ^ Z.of_nat d).

(** [BigInt(x)]: a [RangeError] unless [x] is an integer. *)
Definition to_BigInt (x : Number) : Result Z :=
  match x with
  | Finite q =>
      let r := Qred q in
      if (Qden r =? 1)%positive then Ok (Qnum r) else Throw RangeError
  | _ => Throw RangeError
  end.

(** *** Numeric literals in strings *)

(** The value of a decimal literal before rounding. *)
Inductive Literal : Type :=
| LInfinity
| LDecimal (mantissa exponent : Z).

Fixpoint span_digits (l : list ascii) : list ascii * list ascii :=
  match l with
  | c :: l' =>
      if Str.is_digit c
      then let '(ds, rest) := span_digits l' in (c :: ds, rest)
      else ([], l)
  | [] => ([], [])
  end.

Fixpoint starts_with (p l : list ascii) : option (list ascii) :=
  match p, l with
  | [], _ => Some l
  | a :: p', b :: l' => if Ascii.eqb a b then starts_with p' l' else None
  | _ :: _, [] => None
  end.

(** ExponentPart: [e] or [E], an optional sign, one or more digits. *)
Definition scan_exponent (l : list ascii) : option (Z * list ascii) :=
  match l with
  | e :: l1 =>
      if Str.is_letter 101 69 e then
        let '(negative, l2) :=
          match l1 with
          | s :: l2 =>
              if Str.code s =? 45 then (true, l2)
              else if Str.code s =? 43 then (false, l2)
              else (false, l1)
          | [] => (false, l1)
          end in
        match span_digits l2 with
        | ([], _) => None
        | (ds, rest) =>
            Some (if negative : bool then - Str.nat_value ds else Str.nat_value ds, rest)
        end
      else None
  | [] => None
  end.

(** The longest prefix that is a StrUnsignedDecimalLiteral, with the
    characters after it. *)
Definition scan_unsigned (l : list ascii) : option (Literal * list ascii) :=
  match starts_with (Str.chars "Infinity") l with
  | Some rest => Some (LInfinity, rest)
  | None =>
      let '(ip, l1) := span_digits l in
      let '(fp, l2) :=
        match l1 with
        | c :: l1' => if Str.code c =? 46 then span_digits l1' else ([], l1)
        | [] => ([], l1)
        end in
      match ip, fp with
      | [], [] => None
      | _, _ =>
          let m := Str.nat_value (ip ++ fp) in
          let shift := Z.of_nat (length fp) in
          match scan_exponent l2 with
          | Some (e, rest) => Some (LDecimal m (e - shift), rest)
          | None => Some (LDecimal m (- shift), l2)
          end
      end
  end.

(** An optional sign, then an unsigned decimal literal. *)
Definition scan_signed (l : list ascii)
  : option (bool * Literal * list ascii) :=
  let '(negative, l1) :=
    match l with
    | s :: l1 =>
        if Str.code s =? 45 then (true, l1)
        else if Str.code s =? 43 then (false, l1)
        else (false, l)
    | [] => (false, l)
    end in
  match scan_unsigned l1 with
  | Some (v, rest) => Some (negative, v, rest)
  | None => None
  end.

Definition decimal_Q (m e : Z) : Q :=
  if 0 <=? e then inject_Z (m * 10 ^ e) else Qmake m (Z.to_pos (10 ^ (- e))).

Definition of_literal (negative : bool) (v : Literal) : Number :=
  match v with
  | LInfinity => Infinity negative
  | LDecimal m e =>
      if negative then neg (round (decimal_Q m e)) else round (decimal_Q m e)
  end.

(** [parseFloat(s)]: leading white space is skipped, the longest prefix
    that is a decimal literal is read, and anything after it ignored. *)
Definition parseFloat (s : string) : Number :=
  match scan_signed (Str.drop_while Str.is_space (Str.chars s)) with
  | Some (negative, v, _) => of_literal negative v
  | None => NaN
  end.

(** [Number(s)] for a string [s]: the whole trimmed string has to be a
    literal; the empty string is [0]. *)
Definition of_string (s : string) : Number :=
  match Str.trim (Str.chars s) with
  | [] => Finite 0
  | l =>
      match BigInt.radix_prefix l with
      | Some (radix, ds) =>
          match BigInt.literal radix ds with
          | Some z => of_Z z
          | None => NaN
          end
      | None =>
          match scan_signed l with
          | Some (negative, v, []) => of_literal negative v
          | _ => NaN
          end
      end
  end.

End JS.

(** ** quoteUtils.ts *)

Inductive SwapMode : Type := ExactIn | ExactOut.

(** [RoutePlanStep]; the fields of [swapInfo] are flattened into the step. *)
Record RoutePlanStep : Type := {
  ammKey : string;
  label : option string;
  step_inputMint : string;
  step_outputMint : string;
  step_inAmount : string;
  step_outAmount : string;
  feeAmount : string;
  feeMint : string;
  percent : Z
}.

Record PlatformFee : Type := {
  fee_amount : string;
  feeBps : Z
}.

Record JupiterQuote : Type := {
  inputMint : string;
  outputMint : string;
  inAmount : string;
  outAmount : string;
  otherAmountThreshold : string;
  swapMode : SwapMode;
  slippageBps : Z;
  platformFee : option PlatformFee;
  priceImpactPct : string;
  routePlan : list RoutePlanStep;
  contextSlot : option Z;
  timeTaken : option Z
}.

(** [Partial<QuoteParams>], with the fields [validateQuoteParams] reads. *)
Record QuoteParams : Type := {
  qp_inputMint : option string;
  qp_outputMint : option string;
  qp_amount : option string;
  qp_slippageBps : option JS.Number;
  qp_platformFeeBps : option JS.Number
}.

(** The truth value of an optional string: [undefined] and the empty
    string are falsy. *)
Definition truthy (o : option string) : bool :=
  match o with
  | Some s => negb (String.eqb s "")
  | None => false
  end.

Definition formatAmount (amount : string) (decimals : nat) : Result string :=
  let* amountNum := BigInt.of_string amount in
  let* divisor := JS.to_BigInt (JS.pow10 decimals) in
  let* whole := BigInt.div amountNum divisor in
  let* fraction := BigInt.rem amountNum divisor in
  if fraction =? 0 then Ok (BigInt.toString whole)
  else
    let fractionStr := Str.padStart0 (BigInt.to_chars fraction) decimals in
    let trimmedFraction := Str.strip_trailing_zeros fractionStr in
    Ok (Str.pack (BigInt.to_chars whole ++ "."%char :: trimmedFraction)).

(** [parseAmount] on a string argument. *)
Definition parseAmount (amount : string) (decimals : nat) : string :=
  let parts := Str.split "."%char (Str.chars amount) in
  let whole := nth 0 parts [] in
  let fraction := nth 1 parts [] in
  let paddedFraction := Str.slice0 (Str.padEnd0 fraction decimals) decimals in
  let rawAmount := whole ++ paddedFraction in
  match Str.strip_leading_zeros rawAmount with
  | [] => "0"%string
  | l => Str.pack l
  end.

Record Validation : Type := {
  valid : bool;
  errors : list string
}.

Definition out_of_bps_range (o : option JS.Number) : bool :=
  match o with
  | Some bps => JS.lt bps (JS.of_Z 0) || JS.gt bps (JS.of_Z 10000)
  | None => false
  end.

Definition validateQuoteParams (params : QuoteParams) : Validation :=
  let errors := [] in
  let errors :=
    if negb (truthy (qp_inputMint params))
    then errors ++ ["Input mint address is required"%string] else errors in
  let errors :=
    if negb (truthy (qp_outputMint params))
    then errors ++ ["Output mint address is required"%string] else errors in
  let errors :=
    if negb (truthy (qp_amount params))
    then errors ++ ["Amount is required"%string]
    else
      let n := JS.of_string (default ""%string (qp_amount params)) in
      if JS.isNaN n || JS.le n (JS.of_Z 0)
      then errors ++ ["Amount must be a positive number"%string] else errors in
  let errors :=
    if truthy (qp_inputMint params) && truthy (qp_outputMint params)
       && bool_decide (qp_inputMint params = qp_outputMint params)
    then errors ++ ["Input and output tokens must be different"%string]
    else errors in
  let errors :=
    if out_of_bps_range (qp_slippageBps params)
    then errors ++ ["Slippage must be between 0 and 10000 basis points"%string]
    else errors in
  let errors :=
    if out_of_bps_range (qp_platformFeeBps params)
    then errors ++ ["Platform fee must be between 0 and 10000 basis points"%string]
    else errors in
  {| valid := bool_decide (length errors = 0%nat); errors := errors |}.

(** The rules of the validation, as propositions: a number is strictly
    positive, and an optional basis-point value lies in [[0, 10000]],
    which [NaN] and the infinities do not. *)
Definition positive_number (n : JS.Number) : Prop :=
  match n with
  | JS.Finite q => (0 < q)%Q
  | JS.Infinity negative => negative = false
  | JS.NaN => False
  end.

Definition in_bps_range (o : option JS.Number) : Prop :=
  match o with
  | Some (JS.Finite bps) => (0 <= bps <= 10000)%Q
  | Some _ => False
  | None => True
  end.

(** The message [m] when [c] holds. *)
Definition msg_if (c : bool) (m : string) : list string :=
  if c then [m] else [].

Definition calculateMinimumOutput (outAmount : string) (slippageBps : Z)
  : Result string :=
  let* amount := BigInt.of_string outAmount in
  let slippageFactor := 10000 - slippageBps in
  let* minAmount := BigInt.div (amount * slippageFactor) 10000 in
  Ok (BigInt.toString minAmount).

Definition compareQuotes (quoteA quoteB : JupiterQuote) : Result Z :=
  match swapMode quoteA with
  | ExactIn =>
      let* outA := BigInt.of_string (outAmount quoteA) in
      let* outB := BigInt.of_string (outAmount quoteB) in
      if outB <? outA then Ok 1
      else if outA <? outB then Ok (-1)
      else Ok 0
  | ExactOut =>
      let* inA := BigInt.of_string (inAmount quoteA) in
      let* inB := BigInt.of_string (inAmount quoteB) in
      if inA <? inB then Ok 1
      else if inB <? inA then Ok (-1)
      else Ok 0
  end.

(** ** routeUtils.ts *)

(** A JavaScript [Set] of strings, in insertion order. *)
Definition set_add (x : string) (l : list string) : list string :=
  if bool_decide (x ∈ l) then l else l ++ [x].

Record RouteSummary : Type := {
  totalHops : nat;
  dexesUsed : list string;
  uniqueTokens : list string;
  totalFees : gmap string Z;
  splitRoutes : nat;
  isDirectRoute : bool
}.

(** The sets and the map that the loop of [getRouteSummary] fills. *)
Record SummaryAcc : Type := {
  acc_dexes : list string;
  acc_tokens : list string;
  acc_fees : gmap string Z;
  acc_percentages : list Z
}.

Definition summary_step (acc : SummaryAcc) (step : RoutePlanStep)
  : Result SummaryAcc :=
  let dexes :=
    if truthy (label step)
    then set_add (default ""%string (label step)) (acc_dexes acc)
    else acc_dexes acc in
  let tokens :=
    set_add (step_outputMint step) (set_add (step_inputMint step) (acc_tokens acc)) in
  let currentFee := default 0 (acc_fees acc !! feeMint step) in
  let* fee := BigInt.of_string (feeAmount step) in
  let fees := <[feeMint step := currentFee + fee]> (acc_fees acc) in
  let percentages :=
    if bool_decide (percent step ∈ acc_percentages acc) then acc_percentages acc
    else acc_percentages acc ++ [percent step] in
  Ok {| acc_dexes := dexes; acc_tokens := tokens; acc_fees := fees;
        acc_percentages := percentages |}.

Fixpoint summary_loop (acc : SummaryAcc) (steps : list RoutePlanStep)
  : Result SummaryAcc :=
  match steps with
  | [] => Ok acc
  | step :: steps' =>
      let* acc' := summary_step acc step in
      summary_loop acc' steps'
  end.

Definition starts_at_input (quote : JupiterQuote) (step : RoutePlanStep) : bool :=
  String.eqb (step_inputMint step) (inputMint quote).

Definition getRouteSummary (quote : JupiterQuote) : Result RouteSummary :=
  let* acc :=
    summary_loop {| acc_dexes := []; acc_tokens := []; acc_fees := ∅;
                    acc_percentages := [] |} (routePlan quote) in
  let splitCount :=
    if (0 <? length (routePlan quote))%nat
    then length (List.filter (starts_at_input quote) (routePlan quote))
    else 0%nat in
  Ok {| totalHops := length (routePlan quote);
        dexesUsed := acc_dexes acc;
        uniqueTokens := acc_tokens acc;
        totalFees := acc_fees acc;
        splitRoutes := splitCount;
        isDirectRoute :=
          (length (routePlan quote) =? 1)%nat || (splitCount =? 1)%nat |}.

Record FilterCriteria : Type := {
  maxPriceImpact : option JS.Number;
  maxHops : option Z;
  includeDexes : option (list string);
  excludeDexes : option (list string);
  directOnly : option bool
}.

(** [quote.routePlan.map((step) => step.swapInfo.label).filter(Boolean)] *)
Definition routeDexes (quote : JupiterQuote) : list string :=
  omap (fun step => if truthy (label step) then label step else None)
       (routePlan quote).

(** A criterion that lists DEXes, when it is supplied and not empty. *)
Definition dex_list (o : option (list string)) : option (list string) :=
  match o with
  | Some (d :: ds) => Some (d :: ds)
  | _ => None
  end.

Definition some_in (dexes wanted : list string) : bool :=
  existsb (fun dex => bool_decide (dex ∈ wanted)) dexes.

(** The predicate that [filterRoutes] hands to [Array.prototype.filter]. *)
Definition passes (criteria : FilterCriteria) (quote : JupiterQuote) : bool :=
  if match maxPriceImpact criteria with
     | Some limit => JS.gt (JS.abs (JS.parseFloat (priceImpactPct quote))) limit
     | None => false
     end then false
  else if match maxHops criteria with
          | Some limit => limit <? Z.of_nat (length (routePlan quote))
          | None => false
          end then false
  else if default false (directOnly criteria)
          && (1 <? length (routePlan quote))%nat then false
  else if match dex_list (includeDexes criteria) with
          | Some wanted => negb (some_in (routeDexes quote) wanted)
          | None => false
          end then false
  else if match dex_list (excludeDexes criteria) with
          | Some unwanted => some_in (routeDexes quote) unwanted
          | None => false
          end then false
  else true.

Definition filterRoutes (quotes : list JupiterQuote) (criteria : FilterCriteria)
  : list JupiterQuote :=
  List.filter (passes criteria) quotes.

(** A value of [hopsPercentage]: the sum of the percentages of a label,
    or a string.  The object starts as [{}], so a label that names a
    member of [Object.prototype] reads as that member, which [+] turns
    into a string with the percentage appended; the text of a function
    depends on the engine and is not spelled out. *)
Inductive HopShare : Type :=
| Share (percent : Z)
| Text.

(** The members of [Object.prototype]. *)
Definition Object_prototype_names : list string :=
  ["constructor"; "__defineGetter__"; "__defineSetter__"; "hasOwnProperty";
   "__lookupGetter__"; "__lookupSetter__"; "isPrototypeOf";
   "propertyIsEnumerable"; "toString"; "valueOf"; "__proto__";
   "toLocaleString"]%string.

Record RouteEfficiency : Type := {
  efficiency : JS.Number;
  hopsPercentage : gmap string HopShare;
  largestHop : option string;
  recommendation : string
}.

Definition hop_label (step : RoutePlanStep) : string :=
  if truthy (label step) then default ""%string (label step) else "Unknown"%string.

(** One turn of the loop over the route plan: the percentages by label
    and the largest hop seen so far.  In
    [hopsPercentage[label] = (hopsPercentage[label] || 0) + step.percent]
    an own number is added to ([0 || 0] is [0]), an own string and an
    inherited member give a string, and an assignment of a string to
    [__proto__] is ignored. *)
Definition efficiency_step (st : gmap string HopShare * option (string * Z))
  (step : RoutePlanStep) : gmap string HopShare * option (string * Z) :=
  let '(hops, largest) := st in
  let l := hop_label step in
  let hops' :=
    match hops !! l with
    | Some (Share p) => <[l := Share (p + percent step)]> hops
    | Some Text => <[l := Text]> hops
    | None =>
        if bool_decide (l ∈ Object_prototype_names)
        then if String.eqb l "__proto__" then hops else <[l := Text]> hops
        else <[l := Share (percent step)]> hops
    end in
  let largest' :=
    match largest with
    | None => Some (l, percent step)
    | Some (_, p) => if p <? percent step then Some (l, percent step) else largest
    end in
  (hops', largest').

Definition recommend (efficiency : JS.Number) : string :=
  if JS.ge efficiency (JS.of_Z 90)
  then "Excellent route with minimal price impact"
  else if JS.ge efficiency (JS.of_Z 70)
  then "Good route, acceptable price impact"
  else if JS.ge efficiency (JS.of_Z 50)
  then "Consider using a smaller trade size to reduce price impact"
  else "High price impact detected. Consider splitting the trade or waiting for better liquidity".

Definition analyzeRouteEfficiency (quote : JupiterQuote) : RouteEfficiency :=
  let priceImpact := JS.abs (JS.parseFloat (priceImpactPct quote)) in
  let efficiency :=
    JS.max (JS.of_Z 0) (JS.sub (JS.of_Z 100) (JS.mul priceImpact (JS.of_Z 20))) in
  let '(hops, largest) :=
    fold_left efficiency_step (routePlan quote) (∅, None) in
  {| efficiency := efficiency;
     hopsPercentage := hops;
     largestHop :=
       match largest with
       | Some (l, _) => if truthy (Some l) then Some l else None
       | None => None
       end;
     recommendation := recommend efficiency |}.

(** ** transactionUtils.ts *)

(** *** The RPC connection and the clock

    The functions below only talk to the ledger through the methods of a
    [Connection].  A connection is scripted: the reply to a request is a
    function of how many requests were made before it.  Time is a virtual
    clock in milliseconds, advanced by the latency of each request and by
    each timer; a timer of [ms] milliseconds advances it by [ms] and the
    lag of that timer, which is negative for a timer that fires early.
    Every request and every timer is logged. *)

Inductive Commitment : Type := processed | confirmed_level | finalized_level.

Record BlockhashInfo : Type := {
  blockhash : string;
  lastValidBlockHeight : Z
}.

(** [SignatureStatus]; [status_err] is the JSON text of a transaction
    error, when there is one. *)
Record SignatureStatus : Type := {
  status_slot : Z;
  confirmationStatus : option Commitment;
  status_err : option string
}.

Record TransactionResponse : Type := {
  response_slot : Z;
  response_blockTime : option Z
}.

(** A transaction is versioned, and carries its message, or legacy, and
    compiles its message on demand, which can fail. *)
Inductive AnyTransaction : Type :=
| VersionedTransaction (message : string)
| Transaction (compileMessage : Result string).

Inductive Request : Type :=
| GetLatestBlockhash (commitment : Commitment)
| GetSignatureStatus (signature : string)
| GetTransaction (signature : string)
| GetFeeForMessage (message : string)
| SendTransaction (payload : string).

Record Connection : Type := {
  latestBlockhash : nat -> Result BlockhashInfo;
  signatureStatus : nat -> string -> Result (option SignatureStatus);
  transaction : nat -> string -> Result (option TransactionResponse);
  feeForMessage : nat -> string -> Result (option Z);
  latency : nat -> Z;
  timer_lag : nat -> Z
}.

Record World : Type := {
  now : Z;
  requests : list Request;
  timers : list Z
}.

Definition Async (A : Type) : Type := World -> Result A * World.

Definition ret {A} (a : A) : Async A := fun w => (Ok a, w).
Definition throw {A} (e : Thrown) : Async A := fun w => (Throw e, w).

Definition bind {A B} (m : Async A) (k : A -> Async B) : Async B :=
  fun w =>
    match m w with
    | (Ok a, w') => k a w'
    | (Throw e, w') => (Throw e, w')
    end.

(** [try { ... } catch (error) { ... }] around [m]. *)
Definition attempt {A} (m : Async A) : Async (Result A) :=
  fun w => let '(r, w') := m w in (Ok r, w').

Notation "'await' x ':=' m 'in' k" := (bind m (fun x => k))
  (at level 10, x name, m at level 100, k at level 200).

(** A request to the connection: it is logged, takes its latency, and
    gets the scripted reply. *)
Definition request {A} (conn : Connection) (req : Request)
  (reply : nat -> Result A) : Async A :=
  fun w =>
    let n := length (requests w) in
    (reply n, {| now := now w + latency conn n;
                 requests := requests w ++ [req];
                 timers := timers w |}).

(** [await new Promise((resolve) => setTimeout(resolve, ms))] *)
Definition sleep (conn : Connection) (ms : Z) : Async unit :=
  fun w =>
    (Ok tt, {| now := now w + ms + timer_lag conn (length (timers w));
               requests := requests w;
               timers := timers w ++ [ms] |}).

Definition getLatestBlockhash (conn : Connection) (c : Commitment)
  : Async BlockhashInfo :=
  request conn (GetLatestBlockhash c) (latestBlockhash conn).

Definition getSignatureStatus (conn : Connection) (signature : string)
  : Async (option SignatureStatus) :=
  request conn (GetSignatureStatus signature)
          (fun n => signatureStatus conn n signature).

Definition getTransaction (conn : Connection) (signature : string)
  : Async (option TransactionResponse) :=
  request conn (GetTransaction signature) (fun n => transaction conn n signature).

Definition getFeeForMessage (conn : Connection) (message : string)
  : Async (option Z) :=
  request conn (GetFeeForMessage message) (fun n => feeForMessage conn n message).

(** *** The functions *)

(** [TransactionResult]; in [err], [None] is an absent field and
    [Some None] is [null]. *)
Record TransactionResult : Type := {
  signature : string;
  confirmed : bool;
  slot : option Z;
  blockTime : option Z;
  err : option (option string)
}.

Record TransactionStatus : Type := {
  ts_confirmed : bool;
  ts_finalized : bool;
  ts_slot : option Z;
  ts_err : option (option string)
}.

Definition is_commitment (c : Commitment) (o : option Commitment) : bool :=
  match o, c with
  | Some processed, processed
  | Some confirmed_level, confirmed_level
  | Some finalized_level, finalized_level => true
  | _, _ => false
  end.

Definition getTransactionStatus (conn : Connection) (signature : string)
  : Async TransactionStatus :=
  await status := getSignatureStatus conn signature in
  match status with
  | None =>
      ret {| ts_confirmed := false; ts_finalized := false;
             ts_slot := None; ts_err := None |}
  | Some value =>
      ret {| ts_confirmed :=
               is_commitment confirmed_level (confirmationStatus value)
               || is_commitment finalized_level (confirmationStatus value);
             ts_finalized :=
               is_commitment finalized_level (confirmationStatus value);
             ts_slot := Some (status_slot value);
             ts_err := Some (if truthy (status_err value)
                             then status_err value else None) |}
  end.

(** [fee.value || 5000] *)
Definition fee_or_default (value : option Z) : Z :=
  match value with
  | Some fee => if fee =? 0 then 5000 else fee
  | None => 5000
  end.

Definition estimateTransactionFee (conn : Connection) (tx : AnyTransaction)
  : Async Z :=
  match tx with
  | VersionedTransaction message =>
      await fee := getFeeForMessage conn message in
      ret (fee_or_default fee)
  | Transaction compileMessage =>
      match compileMessage with
      | Ok message =>
          await fee := getFeeForMessage conn message in
          ret (fee_or_default fee)
      | Throw e => throw e
      end
  end.

(** The [for] loop of [getRecentBlockhash]: [remaining] turns are left,
    the loop counter is [i]. *)
Fixpoint getRecentBlockhash_loop (conn : Connection) (remaining : nat) (i : Z)
  (lastError : option Thrown) : Async BlockhashInfo :=
  match remaining with
  | O => throw (default (Error "Failed to get recent blockhash") lastError)
  | S remaining' =>
      await r := attempt (getLatestBlockhash conn confirmed_level) in
      match r with
      | Ok info =>
          ret {| blockhash := blockhash info;
                 lastValidBlockHeight := lastValidBlockHeight info |}
      | Throw error =>
          let lastError :=
            if instanceof_Error error then error else Error "Unknown error" in
          await _ := sleep conn (1000 * (i + 1)) in
          getRecentBlockhash_loop conn remaining' (i + 1) (Some lastError)
      end
  end.

(** [maxRetries] defaults to [3]; the loop runs while [i < maxRetries]. *)
Definition getRecentBlockhash (conn : Connection) (maxRetries : option Z)
  : Async BlockhashInfo :=
  getRecentBlockhash_loop conn (Z.to_nat (default 3 maxRetries)) 0 None.

(** [tx?.blockTime || undefined] *)
Definition blockTime_of (tx : option TransactionResponse) : option Z :=
  match tx with
  | Some t =>
      match response_blockTime t with
      | Some b => if b =? 0 then None else Some b
      | None => None
      end
  | None => None
  end.

(** The [while] loop of [waitForConfirmation].  The recursion is on
    [fuel]; [None] means that the fuel ran out before the loop ended. *)
Fixpoint waitForConfirmation_loop (fuel : nat) (conn : Connection)
  (signature : string) (startTime timeoutMs : Z)
  : World -> option (Result TransactionResult * World) :=
  fun w =>
    if now w - startTime <? timeoutMs then
      match fuel with
      | O => None
      | S fuel' =>
          match getTransactionStatus conn signature w with
          | (Throw e, w1) => Some (Throw e, w1)
          | (Ok status, w1) =>
              if ts_confirmed status then
                Some ((await tx := getTransaction conn signature in
                       ret {| signature := signature;
                              confirmed := true;
                              slot := ts_slot status;
                              blockTime := blockTime_of tx;
                              err := ts_err status |}) w1)
              else
                let '(_, w2) := sleep conn 1000 w1 in
                waitForConfirmation_loop fuel' conn signature startTime timeoutMs w2
          end
      end
    else
      Some (Ok {| signature := signature;
                  confirmed := false;
                  slot := None;
                  blockTime := None;
                  err := Some (Some "Transaction confirmation timeout"%string) |},
            w).

(** [timeoutMs] defaults to [60000]; [commitment] is not used by the body;
    [startTime] is [Date.now()] on entry. *)
Definition waitForConfirmation (fuel : nat) (conn : Connection)
  (signature : string) (timeoutMs : option Z) (commitment : Commitment)
  : World -> option (Result TransactionResult * World) :=
  fun w =>
    let startTime := now w in
    waitForConfirmation_loop fuel conn signature startTime
                             (default 60000 timeoutMs) w.

(** The efficiency score as the specification words it: computed from
    the price impact itself, which may be negative. *)
Definition efficiency_as_stated (quote : JupiterQuote) : JS.Number :=
  JS.max (JS.of_Z 0)
         (JS.sub (JS.of_Z 100)
                 (JS.mul (JS.parseFloat (priceImpactPct quote)) (JS.of_Z 20))).

(** ** Sample data *)

Definition sample_step (dex from to : string) (share : Z) : RoutePlanStep :=
  {| ammKey := dex; label := Some dex;
     step_inputMint := from; step_outputMint := to;
     step_inAmount := "1000"; step_outAmount := "1000";
     feeAmount := "10"; feeMint := from; percent := share |}.

Definition sample_quote (mode : SwapMode) (amountIn amountOut impact : string)
  (plan : list RoutePlanStep) : JupiterQuote :=
  {| inputMint := "SOL"; outputMint := "USDC";
     inAmount := amountIn; outAmount := amountOut;
     otherAmountThreshold := amountOut;
     swapMode := mode; slippageBps := 50; platformFee := None;
     priceImpactPct := impact; routePlan := plan;
     contextSlot := None; timeTaken := None |}.

(** Two parallel branches leaving the input asset, 60% and 40%. *)
Definition split_quote : JupiterQuote :=
  sample_quote ExactIn "1000000" "1050000" "0.05"
    [sample_step "Raydium" "SOL" "USDC" 60; sample_step "Orca" "SOL" "USDC" 40].

(** One branch of two hops: SOL to mSOL, then mSOL to USDC. *)
Definition two_hop_quote : JupiterQuote :=
  sample_quote ExactIn "1000000" "1050000" "0.05"
    [sample_step "Raydium" "SOL" "mSOL" 100; sample_step "Orca" "mSOL" "USDC" 100].

Definition no_route_quote : JupiterQuote :=
  sample_quote ExactIn "1000000" "0" "0" [].

(** [{ directOnly: true }] *)
Definition direct_only : FilterCriteria :=
  {| maxPriceImpact := None; maxHops := None; includeDexes := None;
     excludeDexes := None; directOnly := Some true |}.

(** A connection on which nothing works and nothing is found: fetching
    a blockhash fails, a signature has no status, a transaction is not
    found and no fee is quoted.  Requests and timers take no extra time. *)
Definition quiet_connection : Connection :=
  {| latestBlockhash := fun _ => Throw (Error "fetch failed");
     signatureStatus := fun _ _ => Ok None;
     transaction := fun _ _ => Ok None;
     feeForMessage := fun _ _ => Ok None;
     latency := fun _ => 0;
     timer_lag := fun _ => 0 |}.

(** The ledger answers every fee query with [value]. *)
Definition fee_connection (value : option Z) : Connection :=
  {| latestBlockhash := latestBlockhash quiet_connection;
     signatureStatus := signatureStatus quiet_connection;
     transaction := transaction quiet_connection;
     feeForMessage := fun _ _ => Ok value;
     latency := latency quiet_connection;
     timer_lag := timer_lag quiet_connection |}.



(** Nothing is found, requests take no time, and every timer fires one
    millisecond early. *)
Definition hasty_connection : Connection :=
  {| latestBlockhash := latestBlockhash quiet_connection;
     signatureStatus := signatureStatus quiet_connection;
     transaction := transaction quiet_connection;
     feeForMessage := feeForMessage quiet_connection;
     latency := latency quiet_connection;
     timer_lag := fun _ => -1 |}.

Definition start : World := {| now := 0; requests := []; timers := [] |}.

(** ** What the runs of the loops look like *)

(** The waits of a linear backoff after [k] failed attempts, the first
    attempt having the loop counter [i]. *)
Definition backoff (i : Z) (k : nat) : list Z :=
  map (fun j => 1000 * (i + Z.of_nat j + 1)) (seq 0 k).

(** The error that [getRecentBlockhash] keeps for a caught value. *)
Definition as_Error (e : Thrown) : Thrown :=
  if instanceof_Error e then e else Error "Unknown error".



Definition timeout_result (signature : string) : TransactionResult :=
  {| signature := signature; confirmed := false; slot := None;
     blockTime := None;
     err := Some (Some "Transaction confirmation timeout"%string) |}.




(** * Further functions of the utilities *)

(** ** More of Number *)

Module JSMath.

(** [x / y].  A zero divisor is taken as [+0]: the sign of a zero is not
    tracked, and the divisors of this code are positive literals. *)
Definition div (x y : JS.Number) : JS.Number :=
  match x, y with
  | JS.NaN, _ | _, JS.NaN => JS.NaN
  | JS.Finite a, JS.Finite b =>
      if Qeq_bool b 0
      then if Qeq_bool a 0 then JS.NaN else JS.Infinity (negb (Qle_bool 0 a))
      else JS.round (a / b)
  | JS.Infinity s, JS.Finite b => JS.Infinity (xorb s (negb (Qle_bool 0 b)))
  | JS.Finite _, JS.Infinity _ => JS.Finite 0
  | JS.Infinity _, JS.Infinity _ => JS.NaN
  end.

(** [Math.round(x)]: the nearest integer, a tie going up.  The sum is
    exact here; a binary64 value of [2 ^ 52] or more is an integer. *)
Definition round (x : JS.Number) : JS.Number :=
  match x with
  | JS.Finite q => JS.Finite (inject_Z (Qfloor (q + (1 # 2))))
  | _ => x
  end.

(** [Number(z)] for a bigint [z] *)
Definition of_BigInt (z : Z) : JS.Number := JS.of_Z z.

(** A decimal literal of the source, [m * 10 ^ e]: [0.1] is [literal 1 (-1)]. *)
Definition literal (m e : Z) : JS.Number := JS.round (JS.decimal_Q m e).

End JSMath.

(** ** quoteUtils.ts, continued *)

Definition percentageToBps (percentage : JS.Number) : JS.Number :=
  JSMath.round (JS.mul percentage (JS.of_Z 100)).

Definition bpsToPercentage (bps : JS.Number) : JS.Number :=
  JSMath.div bps (JS.of_Z 100).

Inductive Severity : Type := low | medium | high | very_high.

Definition getPriceImpactSeverity (priceImpactPct : string) : Severity :=
  let impact := JS.abs (JS.parseFloat priceImpactPct) in
  if JS.lt impact (JSMath.literal 1 (-1)) then low
  else if JS.lt impact (JS.of_Z 1) then medium
  else if JS.lt impact (JS.of_Z 5) then high
  else very_high.

(** [DEFAULT_SLIPPAGE] of [constants/tokens.ts], in basis points. *)
Module DEFAULT_SLIPPAGE.
Definition LOW : Z := 10.
Definition MEDIUM : Z := 50.
Definition HIGH : Z := 100.
Definition VERY_HIGH : Z := 500.
End DEFAULT_SLIPPAGE.

Definition getRecommendedSlippage (priceImpactPct : string) : Z :=
  let impact := JS.abs (JS.parseFloat priceImpactPct) in
  if JS.lt impact (JSMath.literal 1 (-1)) then DEFAULT_SLIPPAGE.LOW
  else if JS.lt impact (JSMath.literal 5 (-1)) then DEFAULT_SLIPPAGE.MEDIUM
  else if JS.lt impact (JS.of_Z 2) then DEFAULT_SLIPPAGE.HIGH
  else DEFAULT_SLIPPAGE.VERY_HIGH.

(** ** transactionUtils.ts, continued: units *)

(** [lamportsToSol], on an integer number of lamports (a bigint, or a
    number that is an integer); [1e9] is [JSMath.literal 1 9]. *)
Definition lamportsToSol (lamports : Z) : JS.Number :=
  JSMath.div (JSMath.of_BigInt lamports) (JSMath.literal 1 9).

Definition solToLamports (sol : JS.Number) : JS.Number :=
  JSMath.round (JS.mul sol (JSMath.literal 1 9)).

(** ** routeUtils.ts, continued *)

(** [Array.prototype.reduce] without an initial value, on the first
    element and the rest, for a callback that may throw. *)
Fixpoint reduce {A} (callback : A -> A -> Result A) (acc : A) (l : list A)
  : Result A :=
  match l with
  | [] => Ok acc
  | current :: l' =>
      let* acc' := callback acc current in
      reduce callback acc' l'
  end.

(** The callback of [getBestRoute]. *)
Definition better (mode : SwapMode) (best current : JupiterQuote)
  : Result JupiterQuote :=
  match mode with
  | ExactIn =>
      let* c := BigInt.of_string (outAmount current) in
      let* b := BigInt.of_string (outAmount best) in
      Ok (if b <? c then current else best)
  | ExactOut =>
      let* c := BigInt.of_string (inAmount current) in
      let* b := BigInt.of_string (inAmount best) in
      Ok (if c <? b then current else best)
  end.

(** [swapMode] defaults to ['ExactIn']; [None] in the result is [null]. *)
Definition getBestRoute (quotes : list JupiterQuote) (mode : option SwapMode)
  : Result (option JupiterQuote) :=
  match quotes with
  | [] => Ok None
  | first :: rest =>
      let* best := reduce (better (default ExactIn mode)) first rest in
      Ok (Some best)
  end.

Fixpoint totalFee_loop (totalFee : Z) (steps : list RoutePlanStep) : Result Z :=
  match steps with
  | [] => Ok totalFee
  | step :: steps' =>
      let* fee := BigInt.of_string (feeAmount step) in
      totalFee_loop (totalFee + fee) steps'
  end.

(** [feeDecimals] defaults to [6]. *)
Definition calculateRouteFees (quote : JupiterQuote) (feeDecimals : option nat)
  : Result string :=
  let feeDecimals := default 6%nat feeDecimals in
  let* totalFee := totalFee_loop 0 (routePlan quote) in
  let* divisor := JS.to_BigInt (JS.pow10 feeDecimals) in
  let* whole := BigInt.div totalFee divisor in
  let* fraction := BigInt.rem totalFee divisor in
  Ok (Str.pack (BigInt.to_chars whole
                ++ "."%char :: Str.padStart0 (BigInt.to_chars fraction) feeDecimals)).

(** One [if (!seen.has(x)) { path.push(x); seen.add(x); }] on the pair of
    [path] and [seen]. *)
Definition path_add (x : string) (st : list string * list string)
  : list string * list string :=
  let '(path, seen) := st in
  if bool_decide (x ∈ seen) then (path, seen) else (path ++ [x], set_add x seen).

Definition simplifyRoutePath (routePlan : list RoutePlanStep) : list string :=
  fst (fold_left
         (fun st step =>
            path_add (step_outputMint step) (path_add (step_inputMint step) st))
         routePlan ([], [])).

(** [Array.prototype.join] *)
Fixpoint Array_join (sep : string) (l : list string) : string :=
  match l with
  | [] => ""
  | [x] => x
  | x :: l' => x ++ sep ++ Array_join sep l'
  end.

(** The arrow of a step in [formatRoute]; the percentage is an integer. *)
Definition hop_arrow (step : RoutePlanStep) : string :=
  "--(" ++ (if truthy (label step) then default ""%string (label step) else "DEX")
        ++ " " ++ BigInt.toString (percent step) ++ "%)-->".

(** One turn of the loop of [formatRoute], on [routes] and [currentRoute]. *)
Definition formatRoute_step (quote : JupiterQuote)
  (st : list (list string) * list string) (step : RoutePlanStep)
  : list (list string) * list string :=
  let '(routes, currentRoute) := st in
  let '(routes, currentRoute) :=
    if String.eqb (step_inputMint step) (inputMint quote)
    then (if (0 <? length currentRoute)%nat then routes ++ [currentRoute]
          else routes,
          [step_inputMint step])
    else (routes, currentRoute) in
  (routes, currentRoute ++ [hop_arrow step; step_outputMint step]).

(** The branches that [formatRoute] has collected when it joins them. *)
Definition formatRoute_routes (quote : JupiterQuote) : list (list string) :=
  let '(routes, currentRoute) :=
    fold_left (formatRoute_step quote) (routePlan quote) ([], []) in
  if (0 <? length currentRoute)%nat then routes ++ [currentRoute] else routes.

Definition formatRoute (quote : JupiterQuote) : string :=
  if (length (routePlan quote) =? 0)%nat then "No route found"
  else Array_join (String "010"%char "") (Array_join " " <$> formatRoute_routes quote).

(** ** tokenUtils *)

(** [maxDecimals] defaults to [6]. *)
Definition formatTokenAmount (amount : string) (decimals : nat)
  (maxDecimals : option nat) : Result string :=
  let maxDecimals := default 6%nat maxDecimals in
  let* amountBig := BigInt.of_string amount in
  let* divisor := JS.to_BigInt (JS.pow10 decimals) in
  let* whole := BigInt.div amountBig divisor in
  let* fraction := BigInt.rem amountBig divisor in
  if fraction =? 0 then Ok (BigInt.toString whole)
  else
    let fractionStr := Str.padStart0 (BigInt.to_chars fraction) decimals in
    let trimmedFraction :=
      Str.strip_trailing_zeros (Str.slice0 fractionStr maxDecimals) in
    match trimmedFraction with
    | [] => Ok (BigInt.toString whole)
    | _ => Ok (Str.pack (BigInt.to_chars whole ++ "."%char :: trimmedFraction))
    end.

(** [parseTokenAmount] on a string argument. *)
Definition parseTokenAmount (amount : string) (decimals : nat) : string :=
  let parts := Str.split "."%char (Str.chars amount) in
  let whole := nth 0 parts [] in
  let fraction := nth 1 parts [] in
  let paddedFraction := Str.slice0 (Str.padEnd0 fraction decimals) decimals in
  let raw := whole ++ paddedFraction in
  match Str.strip_leading_zeros raw with
  | [] => "0"%string
  | l => Str.pack l
  end.

(** ** The DCA client *)

(** [DCAOrder], with the fields that the computations below read. *)
Record DCAOrder : Type := {
  dca_publicKey : string;
  inDeposited : string;
  inWithdrawn : string;
  inUsed : string;
  inAmountPerCycle : string;
  nextCycleAt : Z
}.

Inductive DCAStatus : Type := active | paused | completed | cancelled.

Definition getDCAStatus (dca : DCAOrder) : Result DCAStatus :=
  let* deposited := BigInt.of_string (inDeposited dca) in
  let* used := BigInt.of_string (inUsed dca) in
  let* withdrawn := BigInt.of_string (inWithdrawn dca) in
  let remaining := deposited - used - withdrawn in
  if (0 <? withdrawn) && (remaining =? 0) then Ok cancelled
  else if (remaining =? 0) && (0 <? used) then Ok completed
  else if nextCycleAt dca =? 0 then Ok paused
  else Ok active.

(** The callback that [getActiveDCAs] hands to [Array.prototype.filter]. *)
Definition has_funds (dca : DCAOrder) : Result bool :=
  let* deposited := BigInt.of_string (inDeposited dca) in
  let* used := BigInt.of_string (inUsed dca) in
  let* withdrawn := BigInt.of_string (inWithdrawn dca) in
  let inRemaining := deposited - used - withdrawn in
  Ok ((0 <? inRemaining) && (0 <? nextCycleAt dca)).

(** [Array.prototype.filter] for a callback that may throw. *)
Fixpoint filter_throwing {A} (callback : A -> Result bool) (l : list A)
  : Result (list A) :=
  match l with
  | [] => Ok []
  | x :: l' =>
      let* keep := callback x in
      let* kept := filter_throwing callback l' in
      Ok (if keep then x :: kept else kept)
  end.

(** [getActiveDCAs], from the orders that [getUserDCAs] answered. *)
Definition getActiveDCAs (dcas : list DCAOrder) : Result (list DCAOrder) :=
  filter_throwing has_funds dcas.

Record DCAProgress : Type := {
  percentComplete : JS.Number;
  cyclesCompleted : JS.Number;
  estimatedCyclesRemaining : JS.Number;
  amountUsed : string;
  amountRemaining : string
}.

Definition calculateProgress (dca : DCAOrder) : Result DCAProgress :=
  let* deposited := BigInt.of_string (inDeposited dca) in
  let* used := BigInt.of_string (inUsed dca) in
  let* withdrawn := BigInt.of_string (inWithdrawn dca) in
  let* perCycle := BigInt.of_string (inAmountPerCycle dca) in
  let remaining := deposited - used - withdrawn in
  let* percent :=
    if 0 <? deposited
    then let* bps := BigInt.div (used * 10000) deposited in
         Ok (JSMath.div (JSMath.of_BigInt bps) (JS.of_Z 100))
    else Ok (JS.of_Z 0) in
  let* completed_cycles :=
    if 0 <? perCycle
    then let* n := BigInt.div used perCycle in Ok (JSMath.of_BigInt n)
    else Ok (JS.of_Z 0) in
  let* remaining_cycles :=
    if 0 <? perCycle
    then let* n := BigInt.div remaining perCycle in Ok (JSMath.of_BigInt n)
    else Ok (JS.of_Z 0) in
  Ok {| percentComplete := percent;
        cyclesCompleted := completed_cycles;
        estimatedCyclesRemaining := remaining_cycles;
        amountUsed := BigInt.toString used;
        amountRemaining := BigInt.toString remaining |}.

(** ** The Solana client, where it calls the utilities *)

Module SolanaClient.

(** [confirmTransaction] hands [timeout || 60000] to the method
    [waitForConfirmation] of the client, which calls the utility with the
    commitment of the client's configuration: no timeout and a timeout of
    [0] give the default. *)
Definition confirmTransaction (fuel : nat) (conn : Connection)
  (commitment : Commitment) (signature : string) (timeout : option Z)
  : World -> option (Result TransactionResult * World) :=
  let timeoutMs :=
    match timeout with
    | Some t => if t =? 0 then 60000 else t
    | None => 60000
    end in
  waitForConfirmation fuel conn signature (Some timeoutMs) commitment.

(** [estimateTransactionFee] on a transaction object: only a versioned
    transaction is priced by the ledger. *)
Definition estimateTransactionFee (conn : Connection) (tx : AnyTransaction)
  : Async Z :=
  match tx with
  | VersionedTransaction message =>
      await fee := getFeeForMessage conn message in
      ret (fee_or_default fee)
  | Transaction _ => ret 5000
  end.

End SolanaClient.

(** ** What the further properties speak of *)

(** The amount by which [getBestRoute] ranks a quote in the given mode,
    and its rank: more output is better, less input is better. *)
Definition traded (mode : SwapMode) (quote : JupiterQuote) : string :=
  match mode with
  | ExactIn => outAmount quote
  | ExactOut => inAmount quote
  end.

Definition rank (mode : SwapMode) (amount : Z) : Z :=
  match mode with
  | ExactIn => amount
  | ExactOut => - amount
  end.

(** The fee of a step as a number, [0] when it is no integer literal. *)
Definition fee_value (step : RoutePlanStep) : Z :=
  match BigInt.of_string (feeAmount step) with
  | Ok fee => fee
  | Throw _ => 0
  end.

Definition sum_fees (steps : list RoutePlanStep) : Z :=
  foldr Z.add 0 (fee_value <$> steps).

(** The token set of a route plan, from the tokens [seen] before it. *)
Definition tokens_from (seen : list string) (steps : list RoutePlanStep)
  : list string :=
  fold_left (fun l step =>
               set_add (step_outputMint step) (set_add (step_inputMint step) l))
            steps seen.

(** * Properties *)

Example calculateMinimumOutput_50bps :
  calculateMinimumOutput "1000000" 50 = Ok "995000"%string.
Proof. reflexivity. Qed.

Example BigInt_parse_examples :
  BigInt.of_string "0x1F" = Ok 31 /\ BigInt.of_string " -12 " = Ok (-12)
  /\ BigInt.of_string "" = Ok 0 /\ BigInt.of_string "1.5" = Throw SyntaxError
  /\ BigInt.of_string "-0x1" = Throw SyntaxError
  /\ BigInt.toString (-1203) = "-1203"%string.
Proof. repeat split; reflexivity. Qed.

(** ** Characters and digit strings *)

Section Digits.

Lemma code_range (c : ascii) : 0 <= Str.code c < 256.
Proof.
  unfold Str.code. pose proof (N_ascii_bounded c). lia.
Qed.

Lemma digit_char_code (d : Z) :
  0 <= d <= 9 -> Str.code (BigInt.digit_char d) = d + 48.
Proof.
  intros H.
  assert (Hd : d = 0 \/ d = 1 \/ d = 2 \/ d = 3 \/ d = 4 \/ d = 5 \/ d = 6
               \/ d = 7 \/ d = 8 \/ d = 9) by lia.
  decompose [or] Hd; subst d; reflexivity.
Qed.

Lemma digit_char_of_code (c : ascii) :
  BigInt.digit_char (Str.code c - 48) = c.
Proof.
  unfold BigInt.digit_char, Str.code.
  replace (Z.of_N (N_of_ascii c) - 48 + 48) with (Z.of_N (N_of_ascii c)) by lia.
  rewrite N2Z.id. apply ascii_N_embedding.
Qed.

Lemma is_digit_spec (c : ascii) :
  Str.is_digit c = true <-> 48 <= Str.code c <= 57.
Proof. unfold Str.is_digit. rewrite andb_true_iff, !Z.leb_le. tauto. Qed.

Lemma is_digit_digit_char (d : Z) :
  0 <= d <= 9 -> Str.is_digit (BigInt.digit_char d) = true.
Proof. intros H. apply is_digit_spec. rewrite digit_char_code by lia. lia. Qed.

Lemma digit_not_space (c : ascii) :
  Str.is_digit c = true -> Str.is_space c = false.
Proof.
  rewrite is_digit_spec. intros H. unfold Str.is_space. cbv zeta.
  repeat match goal with
         | |- context [?a <=? ?b] => destruct (Z.leb_spec a b)
         | |- context [?a =? ?b] => destruct (Z.eqb_spec a b)
         end; simpl; try reflexivity; lia.
Qed.

Lemma nat_value_from (acc : Z) (l : list ascii) :
  fold_left (fun a c => a * 10 + (Str.code c - 48)) l acc
  = acc * 10 ^ Z.of_nat (length l) + Str.nat_value l.
Proof.
  unfold Str.nat_value. revert acc.
  induction l as [|c l IH]; intros acc.
  - simpl. lia.
  - cbn [fold_left length]. rewrite IH, (IH (0 * 10 + _)).
    rewrite Nat2Z.inj_succ, Z.pow_succ_r by lia. ring.
Qed.

Lemma nat_value_app (l1 l2 : list ascii) :
  Str.nat_value (l1 ++ l2)
  = Str.nat_value l1 * 10 ^ Z.of_nat (length l2) + Str.nat_value l2.
Proof.
  unfold Str.nat_value at 1. rewrite fold_left_app.
  rewrite nat_value_from. reflexivity.
Qed.

Lemma nat_value_cons (c : ascii) (l : list ascii) :
  Str.nat_value (c :: l)
  = (Str.code c - 48) * 10 ^ Z.of_nat (length l) + Str.nat_value l.
Proof.
  change (c :: l) with ([c] ++ l). rewrite nat_value_app.
  unfold Str.nat_value at 1. simpl. reflexivity.
Qed.

Lemma nat_value_snoc (l : list ascii) (c : ascii) :
  Str.nat_value (l ++ [c]) = Str.nat_value l * 10 + (Str.code c - 48).
Proof.
  rewrite nat_value_app. unfold Str.nat_value at 2. simpl. lia.
Qed.

Lemma all_digits_app (l1 l2 : list ascii) :
  Str.all_digits (l1 ++ l2) = Str.all_digits l1 && Str.all_digits l2.
Proof. apply forallb_app. Qed.

Lemma nat_value_bounds (l : list ascii) :
  Str.all_digits l = true -> 0 <= Str.nat_value l < 10 ^ Z.of_nat (length l).
Proof.
  induction l as [|c l IH] using rev_ind; intros H.
  - cbn. lia.
  - rewrite all_digits_app, andb_true_iff in H. destruct H as [H1 H2].
    cbn in H2. rewrite andb_true_r in H2. apply is_digit_spec in H2.
    specialize (IH H1). rewrite nat_value_snoc, length_app. cbn [length].
    rewrite Nat2Z.inj_add, Z.pow_add_r by lia. change (10 ^ Z.of_nat 1) with 10.
    lia.
Qed.

End Digits.

(** ** BigInt: printing and parsing *)

Section BigIntFacts.

Lemma drop_while_none (p : ascii -> bool) (l : list ascii) :
  forallb (fun c => negb (p c)) l = true -> Str.drop_while p l = l.
Proof.
  destruct l as [|c l]; [reflexivity|].
  cbn. rewrite andb_true_iff, negb_true_iff. intros [-> _]. reflexivity.
Qed.

Lemma drop_while_end_none (p : ascii -> bool) (l : list ascii) :
  forallb (fun c => negb (p c)) l = true -> Str.drop_while_end p l = l.
Proof.
  intros H. unfold Str.drop_while_end.
  rewrite drop_while_none, rev_involutive; [reflexivity|].
  rewrite forallb_forall in *. intros c Hc. apply H, in_rev, Hc.
Qed.

Lemma trim_none (l : list ascii) :
  forallb (fun c => negb (Str.is_space c)) l = true -> Str.trim l = l.
Proof.
  intros H. unfold Str.trim.
  rewrite (drop_while_none _ _ H). apply drop_while_end_none, H.
Qed.

Lemma digits_no_space (l : list ascii) :
  Str.all_digits l = true ->
  forallb (fun c => negb (Str.is_space c)) l = true.
Proof.
  unfold Str.all_digits. rewrite !forallb_forall.
  intros H c Hc. rewrite digit_not_space; auto.
Qed.

Lemma digit_in_decimal (c : ascii) :
  Str.is_digit c = true -> BigInt.digit_in 10 c = Some (Str.code c - 48).
Proof.
  intros H. unfold BigInt.digit_in. cbv zeta.
  unfold Str.is_digit in H. rewrite H.
  apply is_digit_spec in H.
  destruct (Z.ltb_spec (Str.code c - 48) 10); [reflexivity | lia].
Qed.

Lemma digits_value_decimal (l : list ascii) (acc : Z) :
  Str.all_digits l = true ->
  BigInt.digits_value 10 acc l
  = Some (acc * 10 ^ Z.of_nat (length l) + Str.nat_value l).
Proof.
  revert acc. induction l as [|c l IH]; intros acc H.
  - cbn. f_equal. lia.
  - cbn in H. rewrite andb_true_iff in H. destruct H as [Hc Hl].
    cbn [BigInt.digits_value]. rewrite (digit_in_decimal _ Hc), (IH _ Hl).
    rewrite nat_value_cons. cbn [length].
    rewrite Nat2Z.inj_succ, Z.pow_succ_r by lia. f_equal. ring.
Qed.

Lemma literal_decimal (l : list ascii) :
  Str.all_digits l = true -> l <> [] ->
  BigInt.literal 10 l = Some (Str.nat_value l).
Proof.
  intros H Hne. destruct l as [|c l]; [congruence|].
  unfold BigInt.literal. rewrite digits_value_decimal by assumption.
  f_equal.
Qed.

Lemma radix_prefix_digits (l : list ascii) :
  Str.all_digits l = true -> BigInt.radix_prefix l = None.
Proof.
  destruct l as [|z [|p ds]]; try reflexivity.
  cbn. rewrite !andb_true_iff. intros (_ & Hp & _).
  apply is_digit_spec in Hp. unfold Str.is_letter.
  destruct (negb (Str.is_zero z)); [reflexivity|].
  repeat match goal with
         | |- context [?a =? ?b] => destruct (Z.eqb_spec a b); try lia
         end.
  reflexivity.
Qed.

(** [BigInt] reads a string of decimal digits as the number it denotes. *)
Lemma parse_digits (l : list ascii) :
  Str.all_digits l = true -> BigInt.parse l = Some (Str.nat_value l).
Proof.
  intros H. unfold BigInt.parse.
  rewrite (trim_none _ (digits_no_space _ H)).
  destruct l as [|c ds] eqn:El; [reflexivity|].
  assert (Hc : 48 <= Str.code c <= 57).
  { cbn in H. rewrite andb_true_iff in H. apply is_digit_spec, H. }
  destruct (Z.eqb_spec (Str.code c) 45); [lia|].
  destruct (Z.eqb_spec (Str.code c) 43); [lia|].
  rewrite (radix_prefix_digits _ H). apply literal_decimal; [assumption|congruence].
Qed.

Lemma of_string_digits (s : string) :
  Str.all_digits (Str.chars s) = true ->
  BigInt.of_string s = Ok (Str.nat_value (Str.chars s)).
Proof. intros H. unfold BigInt.of_string. rewrite parse_digits; auto. Qed.

(** Enough fuel: [to_digits] prints [n]. *)
Lemma to_digits_spec (f : nat) (n : Z) :
  0 <= n < 2 ^ Z.of_nat f -> (1 <= f)%nat ->
  Str.all_digits (BigInt.to_digits f n) = true
  /\ Str.nat_value (BigInt.to_digits f n) = n
  /\ BigInt.to_digits f n <> [].
Proof.
  revert n. induction f as [|f IH]; intros n Hn Hf; [lia|].
  cbn [BigInt.to_digits]. destruct (Z.ltb_spec n 10) as [Hlt|Hge].
  - repeat split.
    + cbn. rewrite is_digit_digit_char by lia. reflexivity.
    + unfold Str.nat_value. cbn. rewrite digit_char_code by lia. lia.
    + discriminate.
  - assert (Hdiv : 0 <= n / 10 < 2 ^ Z.of_nat f).
    { split; [apply Z.div_pos; lia|].
      apply Z.div_lt_upper_bound; [lia|].
      rewrite Nat2Z.inj_succ, Z.pow_succ_r in Hn by lia. lia. }
    assert (Hf' : (1 <= f)%nat).
    { destruct f; [|lia]. cbn in Hdiv.
      assert (1 <= n / 10) by (apply Z.div_le_lower_bound; lia). lia. }
    destruct (IH _ Hdiv Hf') as (Hd & Hv & Hne).
    pose proof (Z.mod_pos_bound n 10 ltac:(lia)) as Hm.
    repeat split.
    + rewrite all_digits_app, Hd. cbn.
      rewrite is_digit_digit_char by lia. reflexivity.
    + rewrite nat_value_snoc, Hv, digit_char_code by lia.
      pose proof (Z.div_mod n 10 ltac:(lia)). lia.
    + intros E. apply app_eq_nil in E. destruct E; discriminate.
Qed.

Lemma to_digits_fuel (f f' : nat) (n : Z) :
  0 <= n < 2 ^ Z.of_nat f -> 0 <= n < 2 ^ Z.of_nat f' ->
  (1 <= f)%nat -> (1 <= f')%nat ->
  BigInt.to_digits f n = BigInt.to_digits f' n.
Proof.
  revert f' n. induction f as [|f IH]; intros f' n Hn Hn' Hf Hf'; [lia|].
  destruct f' as [|f']; [lia|].
  cbn [BigInt.to_digits]. destruct (Z.ltb_spec n 10) as [Hlt|Hge]; [reflexivity|].
  f_equal.
  assert (Hq : 1 <= n / 10) by (apply Z.div_le_lower_bound; lia).
  rewrite Nat2Z.inj_succ, Z.pow_succ_r in Hn, Hn' by lia.
  assert (n / 10 < 2 ^ Z.of_nat f) by (apply Z.div_lt_upper_bound; lia).
  assert (n / 10 < 2 ^ Z.of_nat f') by (apply Z.div_lt_upper_bound; lia).
  apply IH; try lia.
  - destruct f; [cbn in *; lia | lia].
  - destruct f'; [cbn in *; lia | lia].
Qed.

Lemma log2_fuel (n : Z) :
  0 <= n -> n < 2 ^ Z.of_nat (S (Z.to_nat (Z.log2 n))).
Proof.
  intros Hn. rewrite Nat2Z.inj_succ, Z2Nat.id by apply Z.log2_nonneg.
  destruct (Z.eq_dec n 0) as [->|Hz]; [reflexivity|].
  apply Z.log2_spec. lia.
Qed.

Lemma decimal_spec (n : Z) :
  0 <= n ->
  Str.all_digits (BigInt.decimal n) = true
  /\ Str.nat_value (BigInt.decimal n) = n
  /\ BigInt.decimal n <> [].
Proof.
  intros Hn. apply to_digits_spec; [|lia].
  split; [assumption | apply log2_fuel, Hn].
Qed.

Lemma decimal_small (n : Z) :
  0 <= n < 10 -> BigInt.decimal n = [BigInt.digit_char n].
Proof.
  intros Hn. unfold BigInt.decimal. cbn [BigInt.to_digits].
  destruct (Z.ltb_spec n 10); [reflexivity | lia].
Qed.

Lemma decimal_step (n : Z) :
  10 <= n ->
  BigInt.decimal n = BigInt.decimal (n / 10) ++ [BigInt.digit_char (n mod 10)].
Proof.
  intros Hn. unfold BigInt.decimal at 1. cbn [BigInt.to_digits].
  destruct (Z.ltb_spec n 10); [lia|]. f_equal.
  assert (Hq : 1 <= n / 10) by (apply Z.div_le_lower_bound; lia).
  pose proof (log2_fuel n ltac:(lia)) as Hf.
  rewrite Nat2Z.inj_succ, Z.pow_succ_r in Hf by lia.
  assert (n / 10 < 2 ^ Z.of_nat (Z.to_nat (Z.log2 n)))
    by (apply Z.div_lt_upper_bound; lia).
  apply to_digits_fuel; try lia.
  - split; [lia | apply log2_fuel; lia].
  - destruct (Z.to_nat (Z.log2 n)); [cbn in *; lia | lia].
Qed.

(** Printing a bigint and reading it back gives the bigint. *)
Lemma parse_to_chars (z : Z) : BigInt.parse (BigInt.to_chars z) = Some z.
Proof.
  unfold BigInt.to_chars. destruct (Z.ltb_spec z 0) as [Hneg|Hpos].
  - destruct (decimal_spec (- z) ltac:(lia)) as (Hd & Hv & Hne).
    unfold BigInt.parse. rewrite trim_none.
    + change (Str.code "-"%char =? 45) with true. cbv iota.
      rewrite literal_decimal, Hv by assumption. cbn. f_equal. lia.
    + cbn [forallb]. rewrite digits_no_space by assumption. reflexivity.
  - destruct (decimal_spec z Hpos) as (Hd & Hv & Hne).
    rewrite parse_digits, Hv; auto.
Qed.

Lemma chars_pack (l : list ascii) : Str.chars (Str.pack l) = l.
Proof. apply list_ascii_of_string_of_list_ascii. Qed.

Lemma of_string_toString (z : Z) : BigInt.of_string (BigInt.toString z) = Ok z.
Proof.
  unfold BigInt.of_string, BigInt.toString.
  rewrite chars_pack, parse_to_chars. reflexivity.
Qed.

End BigIntFacts.

(** ** calculateMinimumOutput *)

Lemma scaled_down_le (a f : Z) :
  0 <= a -> 0 <= f <= 10000 -> 0 <= a * f / 10000 <= a.
Proof.
  intros Ha Hf. split.
  - apply Z.div_pos; nia.
  - apply Z.div_le_upper_bound; nia.
Qed.

Lemma scaled_down_eq (a f : Z) :
  0 <= a -> 0 <= f <= 10000 ->
  (a * f / 10000 = a <-> f = 10000 \/ a = 0).
Proof.
  intros Ha Hf. split.
  - intros E.
    destruct (Z.eq_dec a 0) as [|Hnz]; [now right|left].
    destruct (Z.eq_dec f 10000) as [|Hne]; [assumption|exfalso].
    assert (a * f / 10000 < a) by (apply Z.div_lt_upper_bound; nia).
    lia.
  - intros [-> | ->].
    + apply Z.div_mul. lia.
    + reflexivity.
Qed.

(** C1, as amended: for an output amount given as a string of decimal
    digits and an integer [slippageBps] in [[0, 10000]],
    [calculateMinimumOutput] returns the decimal string of
    [floor (outAmount * (10000 - slippageBps) / 10000)]; the result is at
    most [outAmount], and equals it if and only if [slippageBps] is [0] or
    [outAmount] is [0]. *)
Theorem calculateMinimumOutput_floor (outAmount : string) (slippageBps : Z) :
  Str.all_digits (Str.chars outAmount) = true ->
  0 <= slippageBps <= 10000 ->
  let amount := Str.nat_value (Str.chars outAmount) in
  let minAmount := amount * (10000 - slippageBps) / 10000 in
  calculateMinimumOutput outAmount slippageBps = Ok (BigInt.toString minAmount)
  /\ BigInt.of_string (BigInt.toString minAmount) = Ok minAmount
  /\ 0 <= minAmount <= amount
  /\ (minAmount = amount <-> slippageBps = 0 \/ amount = 0).
Proof.
  intros Hd Hbps amount minAmount.
  pose proof (nat_value_bounds _ Hd) as [Ha _]. fold amount in Ha.
  repeat split.
  - unfold calculateMinimumOutput. rewrite (of_string_digits _ Hd).
    cbn [rbind]. unfold BigInt.div. cbn [Z.eqb rbind].
    rewrite Z.quot_div_nonneg by nia. reflexivity.
  - apply of_string_toString.
  - apply scaled_down_le; lia.
  - apply scaled_down_le; lia.
  - intros E. apply scaled_down_eq in E; lia.
  - intros H. apply scaled_down_eq; lia.
Qed.

Lemma calculateMinimumOutput_floor_witness :
  Str.all_digits (Str.chars "1000000") = true
  /\ 0 <= 50 <= 10000
  /\ calculateMinimumOutput "1000000" 50
     = Ok (BigInt.toString (1000000 * (10000 - 50) / 10000)).
Proof.
  split; [reflexivity|]. split; [lia|].
  apply (calculateMinimumOutput_floor "1000000" 50); [reflexivity | lia].
Defined.

(** C1 as stated fails: an output amount of [0] with a slippage of one
    basis point gives [0], which equals the output amount although the
    slippage is not [0]. *)
Lemma calculateMinimumOutput_equality_counterexample :
  calculateMinimumOutput "0" 1 = Ok "0"%string
  /\ Str.nat_value (Str.chars "0") = 0
  /\ ~ (0 = Str.nat_value (Str.chars "0") <-> 1 = 0).
Proof.
  split; [reflexivity|]. split; [reflexivity|].
  intros [H _]. specialize (H eq_refl). discriminate.
Qed.

(** ** Canonical decimal strings *)

Section Canonical.

Lemma is_zero_char (c : ascii) : Str.is_zero c = true -> c = "0"%char.
Proof.
  unfold Str.is_zero. intros H. apply Z.eqb_eq in H.
  rewrite <- (digit_char_of_code c), H. reflexivity.
Qed.

Lemma all_digits_repeat0 (k : nat) : Str.all_digits (repeat "0"%char k) = true.
Proof. induction k; [reflexivity | cbn; assumption]. Qed.

Lemma nat_value_repeat0 (k : nat) : Str.nat_value (repeat "0"%char k) = 0.
Proof.
  induction k as [|k IH]; [reflexivity|].
  cbn [repeat]. rewrite nat_value_cons, IH. reflexivity.
Qed.

Lemma to_digits_head (f : nat) (n : Z) :
  0 < n < 2 ^ Z.of_nat f ->
  Str.head_nonzero (BigInt.to_digits f n) = true.
Proof.
  revert n. induction f as [|f IH]; intros n Hn; [cbn in Hn; lia|].
  cbn [BigInt.to_digits]. destruct (Z.ltb_spec n 10) as [Hlt|Hge].
  - cbn. unfold Str.is_zero. rewrite digit_char_code by lia.
    destruct (Z.eqb_spec (n + 48) 48); [lia | reflexivity].
  - assert (Hq : 1 <= n / 10) by (apply Z.div_le_lower_bound; lia).
    assert (Hdiv : 0 < n / 10 < 2 ^ Z.of_nat f).
    { split; [lia|]. apply Z.div_lt_upper_bound; [lia|].
      rewrite Nat2Z.inj_succ, Z.pow_succ_r in Hn by lia. lia. }
    specialize (IH _ Hdiv).
    destruct (BigInt.to_digits f (n / 10)); [discriminate | exact IH].
Qed.

Lemma decimal_head (n : Z) : 0 < n -> Str.head_nonzero (BigInt.decimal n) = true.
Proof.
  intros Hn. apply to_digits_head. split; [assumption | apply log2_fuel; lia].
Qed.

Lemma head_nonzero_positive (l : list ascii) :
  Str.all_digits l = true -> Str.head_nonzero l = true ->
  10 ^ Z.of_nat (length l - 1) <= Str.nat_value l.
Proof.
  destruct l as [|c l]; [discriminate|].
  cbn [Str.all_digits forallb Str.head_nonzero length].
  rewrite andb_true_iff, negb_true_iff. intros [Hc Hl] Hz.
  apply is_digit_spec in Hc. unfold Str.is_zero in Hz. apply Z.eqb_neq in Hz.
  rewrite nat_value_cons. pose proof (nat_value_bounds _ Hl).
  replace (S (length l) - 1)%nat with (length l) by lia.
  assert (0 < 10 ^ Z.of_nat (length l)) by (apply Z.pow_pos_nonneg; lia).
  nia.
Qed.

(** A digit string without a leading zero is the printed form of its
    value. *)
Lemma canonical_decimal (l : list ascii) :
  Str.all_digits l = true -> Str.head_nonzero l = true ->
  l = BigInt.decimal (Str.nat_value l).
Proof.
  induction l as [|c l IH] using rev_ind; [discriminate|].
  intros Hd Hh. rewrite all_digits_app, andb_true_iff in Hd.
  destruct Hd as [Hl Hc]. cbn in Hc. rewrite andb_true_r in Hc.
  pose proof Hc as Hc'. apply is_digit_spec in Hc'.
  rewrite nat_value_snoc.
  destruct l as [|a l].
  - cbn [app Str.head_nonzero] in Hh |- *. rewrite negb_true_iff in Hh.
    unfold Str.is_zero in Hh. apply Z.eqb_neq in Hh.
    change (Str.nat_value []) with 0.
    replace (0 * 10 + (Str.code c - 48)) with (Str.code c - 48) by lia.
    rewrite decimal_small by lia.
    rewrite digit_char_of_code. reflexivity.
  - assert (Hh' : Str.head_nonzero (a :: l) = true) by exact Hh.
    specialize (IH Hl Hh').
    pose proof (head_nonzero_positive _ Hl Hh') as Hpos.
    assert (0 < 10 ^ Z.of_nat (length (a :: l) - 1))
      by (apply Z.pow_pos_nonneg; lia).
    set (v := Str.nat_value (a :: l)) in *.
    rewrite decimal_step by lia.
    replace ((v * 10 + (Str.code c - 48)) / 10) with v
      by (apply Z.div_unique with (r := Str.code c - 48); lia).
    replace ((v * 10 + (Str.code c - 48)) mod 10) with (Str.code c - 48)
      by (apply Z.mod_unique with (q := v); lia).
    rewrite digit_char_of_code, <- IH. reflexivity.
Qed.

(** Removing the leading zeros of a digit string leaves the printed form
    of its value, or nothing when the value is [0]. *)
Lemma strip_leading_zeros_decimal (l : list ascii) :
  Str.all_digits l = true ->
  Str.strip_leading_zeros l
  = if Str.nat_value l =? 0 then [] else BigInt.decimal (Str.nat_value l).
Proof.
  induction l as [|c l IH]; intros Hd; [reflexivity|].
  cbn [Str.strip_leading_zeros Str.drop_while].
  destruct (Str.is_zero c) eqn:Ez.
  - cbn in Hd. rewrite andb_true_iff in Hd. destruct Hd as [_ Hl].
    fold (Str.strip_leading_zeros l). rewrite (IH Hl), nat_value_cons.
    unfold Str.is_zero in Ez. apply Z.eqb_eq in Ez. rewrite Ez.
    reflexivity.
  - assert (Hh : Str.head_nonzero (c :: l) = true) by (cbn; rewrite Ez; reflexivity).
    pose proof (head_nonzero_positive _ Hd Hh) as Hpos.
    assert (0 < 10 ^ Z.of_nat (length (c :: l) - 1))
      by (apply Z.pow_pos_nonneg; lia).
    destruct (Z.eqb_spec (Str.nat_value (c :: l)) 0); [lia|].
    apply canonical_decimal; assumption.
Qed.

Lemma drop_while_zeros (l : list ascii) :
  l = repeat "0"%char (length l - length (Str.drop_while Str.is_zero l))
      ++ Str.drop_while Str.is_zero l.
Proof.
  induction l as [|c l IH]; [reflexivity|].
  cbn [Str.drop_while]. destruct (Str.is_zero c) eqn:Ez.
  - apply is_zero_char in Ez. subst c.
    assert (Hlen : (length (Str.drop_while Str.is_zero l) <= length l)%nat).
    { clear. induction l as [|c l IH]; cbn; [lia|].
      destruct (Str.is_zero c); cbn; lia. }
    replace (length ("0"%char :: l) - length (Str.drop_while Str.is_zero l))%nat
      with (S (length l - length (Str.drop_while Str.is_zero l))) by (cbn; lia).
    cbn [repeat app]. f_equal. exact IH.
  - rewrite Nat.sub_diag. reflexivity.
Qed.

(** Padding what [replace(/0+$/, '')] left back to the original length
    restores the string. *)
Lemma padEnd0_strip_trailing_zeros (l : list ascii) :
  Str.padEnd0 (Str.strip_trailing_zeros l) (length l) = l.
Proof.
  unfold Str.padEnd0, Str.strip_trailing_zeros, Str.drop_while_end.
  pose proof (drop_while_zeros (rev l)) as H.
  rewrite length_rev. rewrite length_rev in H.
  apply (f_equal (@rev ascii)) in H. rewrite rev_involutive, rev_app_distr in H.
  rewrite rev_repeat in H. symmetry. exact H.
Qed.

Lemma drop_while_digits (p : ascii -> bool) (l : list ascii) :
  Str.all_digits l = true -> Str.all_digits (Str.drop_while p l) = true.
Proof.
  induction l as [|c l IH]; [reflexivity|].
  intros H. cbn [Str.drop_while]. destruct (p c); [|exact H].
  cbn in H. rewrite andb_true_iff in H. apply IH, H.
Qed.

Lemma all_digits_rev (l : list ascii) :
  Str.all_digits (rev l) = Str.all_digits l.
Proof.
  induction l as [|c l IH]; [reflexivity|].
  cbn [rev]. rewrite all_digits_app, IH. cbn. rewrite andb_true_r, andb_comm.
  reflexivity.
Qed.

Lemma strip_trailing_zeros_digits (l : list ascii) :
  Str.all_digits l = true ->
  Str.all_digits (Str.strip_trailing_zeros l) = true.
Proof.
  intros H. unfold Str.strip_trailing_zeros, Str.drop_while_end.
  rewrite all_digits_rev. apply drop_while_digits. rewrite all_digits_rev. exact H.
Qed.

Lemma split_digits (l : list ascii) :
  Str.all_digits l = true -> Str.split "."%char l = [l].
Proof.
  induction l as [|c l IH]; [reflexivity|].
  cbn [Str.all_digits forallb]. rewrite andb_true_iff. intros [Hc Hl].
  cbn [Str.split]. apply is_digit_spec in Hc.
  destruct (Ascii.eqb_spec c "."%char) as [->|_];
    [change (Str.code "."%char) with 46 in Hc; lia|].
  fold (Str.all_digits l) in Hl. rewrite (IH Hl). reflexivity.
Qed.

Lemma split_digits_dot (a b : list ascii) :
  Str.all_digits a = true -> Str.all_digits b = true ->
  Str.split "."%char (a ++ "."%char :: b) = [a; b].
Proof.
  intros Ha Hb. induction a as [|c a IH].
  - cbn. rewrite (split_digits _ Hb). reflexivity.
  - cbn [Str.all_digits forallb] in Ha. rewrite andb_true_iff in Ha.
    destruct Ha as [Hc Ha]. cbn [app Str.split]. apply is_digit_spec in Hc.
    destruct (Ascii.eqb_spec c "."%char) as [->|_];
    [change (Str.code "."%char) with 46 in Hc; lia|].
    rewrite (IH Ha). reflexivity.
Qed.

End Canonical.

(** ** formatAmount and parseAmount *)

Section Amounts.

(** Up to [10 ** 22] the power is a binary64 value, and the divisor of
    [formatAmount] is the power of ten itself. *)
Lemma pow10_exact (d : nat) :
  (d <= 22)%nat -> JS.to_BigInt (JS.pow10 d) = Ok (10 ^ Z.of_nat d).
Proof.
  intros H.
  do 23 (destruct d as [|d]; [vm_compute; reflexivity|]).
  lia.
Qed.

Lemma chars_toString (z : Z) : Str.chars (BigInt.toString z) = BigInt.to_chars z.
Proof. apply chars_pack. Qed.

Lemma to_chars_nonneg (z : Z) : 0 <= z -> BigInt.to_chars z = BigInt.decimal z.
Proof.
  intros H. unfold BigInt.to_chars. destruct (Z.ltb_spec z 0); [lia | reflexivity].
Qed.

Lemma decimal_length (f : Z) (d : nat) :
  0 < f < 10 ^ Z.of_nat d -> (length (BigInt.decimal f) <= d)%nat.
Proof.
  intros Hf. destruct (decimal_spec f ltac:(lia)) as (Hd & Hv & _).
  pose proof (head_nonzero_positive _ Hd (decimal_head f ltac:(lia))) as H.
  rewrite Hv in H.
  destruct (Nat.le_gt_cases (length (BigInt.decimal f)) d) as [|Hgt]; [assumption|].
  assert (10 ^ Z.of_nat d <= 10 ^ Z.of_nat (length (BigInt.decimal f) - 1))
    by (apply Z.pow_le_mono_r; lia).
  lia.
Qed.

(** The raw string that [parseAmount] assembles is turned into the
    printed form of its value. *)
Lemma strip_raw (raw : list ascii) (x : Z) :
  Str.all_digits raw = true -> Str.nat_value raw = x -> 0 <= x ->
  match Str.strip_leading_zeros raw with
  | [] => "0"%string
  | l => Str.pack l
  end = BigInt.toString x.
Proof.
  intros Hd Hv Hx. rewrite strip_leading_zeros_decimal, Hv by assumption.
  unfold BigInt.toString. rewrite to_chars_nonneg by assumption.
  destruct (Z.eqb_spec x 0) as [->|Hnz]; [reflexivity|].
  destruct (decimal_spec x Hx) as (_ & _ & Hne).
  destruct (BigInt.decimal x); [congruence | reflexivity].
Qed.

(** X5: the round trip of an amount through [formatAmount] and
    [parseAmount], for up to 22 decimals. *)
Lemma parseAmount_formatAmount (x : Z) (d : nat) :
  0 <= x -> (d <= 22)%nat ->
  exists s, formatAmount (BigInt.toString x) d = Ok s
            /\ parseAmount s d = BigInt.toString x.
Proof.
  intros Hx Hd. unfold formatAmount.
  rewrite of_string_toString, (pow10_exact d Hd). cbn [rbind].
  assert (Hp : 0 < 10 ^ Z.of_nat d) by (apply Z.pow_pos_nonneg; lia).
  unfold BigInt.div, BigInt.rem.
  destruct (Z.eqb_spec (10 ^ Z.of_nat d) 0); [lia|]. cbn [rbind].
  rewrite Z.quot_div_nonneg, Z.rem_mod_nonneg by lia.
  set (w := x / 10 ^ Z.of_nat d). set (f := x mod 10 ^ Z.of_nat d).
  pose proof (Z.div_mod x (10 ^ Z.of_nat d) ltac:(lia)) as Hx'.
  pose proof (Z.mod_pos_bound x (10 ^ Z.of_nat d) Hp) as Hf.
  assert (Hw : 0 <= w) by (apply Z.div_pos; lia).
  fold w f in Hx', Hf.
  destruct (decimal_spec w Hw) as (Hwd & Hwv & _).
  destruct (Z.eqb_spec f 0) as [Hz|Hnz].
  - eexists. split; [reflexivity|].
    unfold parseAmount.
    rewrite chars_toString, to_chars_nonneg, (split_digits _ Hwd) by assumption.
    cbn [nth]. apply strip_raw; [| |assumption].
    + rewrite all_digits_app, Hwd. unfold Str.slice0, Str.padEnd0. cbn [app length].
      rewrite Nat.sub_0_r, firstn_all2 by (rewrite repeat_length; lia).
      apply all_digits_repeat0.
    + unfold Str.slice0, Str.padEnd0. cbn [app length].
      rewrite Nat.sub_0_r, firstn_all2 by (rewrite repeat_length; lia).
      rewrite nat_value_app, Hwv, nat_value_repeat0, repeat_length. lia.
  - eexists. split; [reflexivity|].
    unfold parseAmount. rewrite chars_pack, !to_chars_nonneg by lia.
    destruct (decimal_spec f ltac:(lia)) as (Hfd & Hfv & _).
    pose proof (decimal_length f d ltac:(lia)) as Hlen.
    set (fractionStr := Str.padStart0 (BigInt.decimal f) d).
    assert (Hfs : Str.all_digits fractionStr = true).
    { unfold fractionStr, Str.padStart0.
      rewrite all_digits_app, all_digits_repeat0, Hfd. reflexivity. }
    assert (Hfl : length fractionStr = d).
    { unfold fractionStr, Str.padStart0. rewrite length_app, repeat_length. lia. }
    assert (Hfv' : Str.nat_value fractionStr = f).
    { unfold fractionStr, Str.padStart0.
      rewrite nat_value_app, nat_value_repeat0, Hfv. lia. }
    rewrite split_digits_dot
      by (try assumption; apply strip_trailing_zeros_digits; assumption).
    cbn [nth].
    pose proof (padEnd0_strip_trailing_zeros fractionStr) as Hpad.
    rewrite Hfl in Hpad. rewrite Hpad.
    unfold Str.slice0. rewrite firstn_all2 by lia.
    apply strip_raw; [| |assumption].
    + rewrite all_digits_app, Hwd, Hfs. reflexivity.
    + rewrite nat_value_app, Hwv, Hfv', Hfl. lia.
Qed.

End Amounts.

(** C2, at 23 decimals: the divisor [BigInt(10 ** 23)] is
    [99999999999999991611392], not the power of ten, and the amount
    [10 ^ 23] does not survive the round trip through [formatAmount] and
    [parseAmount]. *)
Theorem formatAmount_23_decimals :
  JS.to_BigInt (JS.pow10 23) = Ok 99999999999999991611392
  /\ formatAmount "100000000000000000000000" 23
     = Ok "1.00000000000000008388608"%string
  /\ parseAmount "1.00000000000000008388608" 23
     = "100000000000000008388608"%string
  /\ BigInt.toString (10 ^ 23) = "100000000000000000000000"%string.
Proof. repeat split; vm_compute; reflexivity. Qed.

(** The power [10 ** 23] lies halfway between two binary64 values.  With
    the upper one, [100000000000000008388608], as the divisor, the steps
    of [formatAmount] on the same amount give a quotient of [0], the
    fraction ["1"] and so ["0.1"], which [parseAmount] reads as [10 ^ 22]:
    the round trip fails with either neighbour. *)
Example formatAmount_23_decimals_upper_neighbour :
  BigInt.div (10 ^ 23) 100000000000000008388608 = Ok 0
  /\ BigInt.rem (10 ^ 23) 100000000000000008388608 = Ok (10 ^ 23)
  /\ Str.pack (Str.strip_trailing_zeros
                 (Str.padStart0 (BigInt.to_chars (10 ^ 23)) 23)) = "1"%string
  /\ parseAmount "0.1" 23 = "10000000000000000000000"%string.
Proof. repeat split; vm_compute; reflexivity. Qed.

(** ** validateQuoteParams *)

Section Validation.

Lemma not_positive_spec (n : JS.Number) :
  JS.isNaN n || JS.le n (JS.of_Z 0) = false <-> positive_number n.
Proof.
  change (JS.of_Z 0) with (JS.Finite 0).
  destruct n as [|negative|q]; cbn.
  - split; [discriminate | tauto].
  - tauto.
  - split.
    + intros H. apply Qnot_le_lt. intros Hle.
      apply Qle_bool_iff in Hle. congruence.
    + intros H. destruct (Qle_bool q 0) eqn:E; [|reflexivity].
      apply Qle_bool_iff in E. exfalso. exact (Qlt_not_le _ _ H E).
Qed.

Lemma of_Z_10000 :
  exists q, JS.of_Z 10000 = JS.Finite q /\ (q == 10000)%Q.
Proof. eexists. split; vm_compute; reflexivity. Qed.

(** The two comparisons of a range check are both false on [NaN]. *)
Lemma out_of_bps_range_NaN : out_of_bps_range (Some JS.NaN) = false.
Proof. reflexivity. Qed.

(** On every other number they decide the range. *)
Lemma out_of_bps_range_spec (o : option JS.Number) :
  o <> Some JS.NaN ->
  (out_of_bps_range o = false <-> in_bps_range o).
Proof.
  intros Hnan. unfold out_of_bps_range, in_bps_range.
  destruct of_Z_10000 as (top & -> & Htop).
  change (JS.of_Z 0) with (JS.Finite 0).
  destruct o as [[|negative|bps]|]; [congruence| | |tauto].
  - cbn. destruct negative; cbn; split; (discriminate || contradiction).
  - cbn [JS.lt JS.gt]. rewrite orb_false_iff, !negb_false_iff, !Qle_bool_iff.
    rewrite Htop. tauto.
Qed.

(** The error list is the concatenation, in the order of the checks, of
    the messages of the checks that fail. *)
Lemma errors_shape (params : QuoteParams) :
  errors (validateQuoteParams params)
  = msg_if (negb (truthy (qp_inputMint params)))
           "Input mint address is required"
    ++ msg_if (negb (truthy (qp_outputMint params)))
              "Output mint address is required"
    ++ msg_if (negb (truthy (qp_amount params))) "Amount is required"
    ++ msg_if (truthy (qp_amount params)
               && (JS.isNaN (JS.of_string (default ""%string (qp_amount params)))
                   || JS.le (JS.of_string (default ""%string (qp_amount params)))
                            (JS.of_Z 0)))
              "Amount must be a positive number"
    ++ msg_if (truthy (qp_inputMint params) && truthy (qp_outputMint params)
               && bool_decide (qp_inputMint params = qp_outputMint params))
              "Input and output tokens must be different"
    ++ msg_if (out_of_bps_range (qp_slippageBps params))
              "Slippage must be between 0 and 10000 basis points"
    ++ msg_if (out_of_bps_range (qp_platformFeeBps params))
              "Platform fee must be between 0 and 10000 basis points".
Proof.
  unfold validateQuoteParams. cbn [errors].
  destruct (truthy (qp_inputMint params)), (truthy (qp_outputMint params)),
    (truthy (qp_amount params)),
    (JS.isNaN (JS.of_string (default ""%string (qp_amount params)))
     || JS.le (JS.of_string (default ""%string (qp_amount params))) (JS.of_Z 0)),
    (bool_decide (qp_inputMint params = qp_outputMint params)),
    (out_of_bps_range (qp_slippageBps params)),
    (out_of_bps_range (qp_platformFeeBps params));
    reflexivity.
Qed.

Lemma elem_of_msg_if (x : string) (c : bool) (m : string) :
  x ∈ msg_if c m <-> c = true /\ x = m.
Proof.
  destruct c; cbn.
  - rewrite list_elem_of_singleton. intuition.
  - rewrite elem_of_nil. intuition discriminate.
Qed.

Lemma valid_spec (params : QuoteParams) :
  valid (validateQuoteParams params) = true
  <-> errors (validateQuoteParams params) = [].
Proof.
  unfold validateQuoteParams at 1. cbn [valid].
  fold (errors (validateQuoteParams params)).
  rewrite bool_decide_eq_true. apply length_zero_iff_nil.
Qed.

Lemma true_iff_not_false (b : bool) : b = true <-> b <> false.
Proof. destruct b; split; intros H; try discriminate; try easy. Qed.

Lemma msg_if_nil (c : bool) (m : string) : msg_if c m = [] <-> c = false.
Proof. destruct c; cbn; intuition discriminate. Qed.

Lemma errors_nil (params : QuoteParams) :
  qp_slippageBps params <> Some JS.NaN ->
  qp_platformFeeBps params <> Some JS.NaN ->
  errors (validateQuoteParams params) = []
  <-> truthy (qp_inputMint params) = true
      /\ truthy (qp_outputMint params) = true
      /\ qp_inputMint params <> qp_outputMint params
      /\ truthy (qp_amount params) = true
      /\ positive_number (JS.of_string (default ""%string (qp_amount params)))
      /\ in_bps_range (qp_slippageBps params)
      /\ in_bps_range (qp_platformFeeBps params).
Proof.
  intros Hslip Hfee.
  rewrite errors_shape, !app_nil, !msg_if_nil.
  rewrite <- not_positive_spec.
  rewrite <- (out_of_bps_range_spec _ Hslip), <- (out_of_bps_range_spec _ Hfee).
  destruct (bool_decide (qp_inputMint params = qp_outputMint params)) eqn:E;
    [apply bool_decide_eq_true in E | apply bool_decide_eq_false in E];
    destruct (truthy (qp_inputMint params)), (truthy (qp_outputMint params)),
      (truthy (qp_amount params)),
      (JS.isNaN (JS.of_string (default ""%string (qp_amount params)))
       || JS.le (JS.of_string (default ""%string (qp_amount params))) (JS.of_Z 0));
    cbn [negb andb]; intuition (discriminate || congruence).
Qed.

Lemma errors_NoDup (params : QuoteParams) :
  NoDup (errors (validateQuoteParams params)).
Proof.
  rewrite errors_shape.
  destruct (negb (truthy (qp_inputMint params))),
    (negb (truthy (qp_outputMint params))),
    (negb (truthy (qp_amount params))),
    (truthy (qp_amount params)
     && (JS.isNaN (JS.of_string (default ""%string (qp_amount params)))
         || JS.le (JS.of_string (default ""%string (qp_amount params))) (JS.of_Z 0))),
    (truthy (qp_inputMint params) && truthy (qp_outputMint params)
     && bool_decide (qp_inputMint params = qp_outputMint params)),
    (out_of_bps_range (qp_slippageBps params)),
    (out_of_bps_range (qp_platformFeeBps params));
    apply (bool_decide_unpack _); vm_compute; exact I.
Qed.

(** Whether a given message is among the errors.  The other messages are
    different strings, so only the check of the message itself counts. *)
Ltac message_in :=
  rewrite errors_shape, !elem_of_app, !elem_of_msg_if;
  intuition (try discriminate).

Lemma input_required_in (params : QuoteParams) :
  "Input mint address is required"%string ∈ errors (validateQuoteParams params)
  <-> negb (truthy (qp_inputMint params)) = true.
Proof. message_in. Qed.

Lemma output_required_in (params : QuoteParams) :
  "Output mint address is required"%string ∈ errors (validateQuoteParams params)
  <-> negb (truthy (qp_outputMint params)) = true.
Proof. message_in. Qed.

Lemma amount_required_in (params : QuoteParams) :
  "Amount is required"%string ∈ errors (validateQuoteParams params)
  <-> negb (truthy (qp_amount params)) = true.
Proof. message_in. Qed.

Lemma amount_positive_in (params : QuoteParams) :
  "Amount must be a positive number"%string ∈ errors (validateQuoteParams params)
  <-> truthy (qp_amount params)
      && (JS.isNaN (JS.of_string (default ""%string (qp_amount params)))
          || JS.le (JS.of_string (default ""%string (qp_amount params))) (JS.of_Z 0))
      = true.
Proof. message_in. Qed.

Lemma different_in (params : QuoteParams) :
  "Input and output tokens must be different"%string
    ∈ errors (validateQuoteParams params)
  <-> truthy (qp_inputMint params) && truthy (qp_outputMint params)
      && bool_decide (qp_inputMint params = qp_outputMint params) = true.
Proof. message_in. Qed.

Lemma slippage_in (params : QuoteParams) :
  "Slippage must be between 0 and 10000 basis points"%string
    ∈ errors (validateQuoteParams params)
  <-> out_of_bps_range (qp_slippageBps params) = true.
Proof. message_in. Qed.

Lemma platform_fee_in (params : QuoteParams) :
  "Platform fee must be between 0 and 10000 basis points"%string
    ∈ errors (validateQuoteParams params)
  <-> out_of_bps_range (qp_platformFeeBps params) = true.
Proof. message_in. Qed.

End Validation.

(** C3 fails on the code for a basis-point value that is [NaN]: the rule
    asks for a slippage and a platform fee in [[0, 10000]] when present,
    [NaN] is present and not in the range, and both comparisons of the
    range check are false on it, so [validateQuoteParams] returns
    [valid: true] with no error.  A number outside the range is reported,
    and for [{inputMint: "A", outputMint: "A", amount: "5"}] the result is
    [valid: false] with the error that input and output tokens must be
    different. *)
Theorem validateQuoteParams_NaN_bps :
  validateQuoteParams
    {| qp_inputMint := Some "A"%string; qp_outputMint := Some "B"%string;
       qp_amount := Some "5"%string; qp_slippageBps := Some JS.NaN;
       qp_platformFeeBps := None |}
  = {| valid := true; errors := [] |}
  /\ validateQuoteParams
       {| qp_inputMint := Some "A"%string; qp_outputMint := Some "B"%string;
          qp_amount := Some "5"%string; qp_slippageBps := None;
          qp_platformFeeBps := Some JS.NaN |}
     = {| valid := true; errors := [] |}
  /\ (in_bps_range (Some JS.NaN) <-> False)
  /\ validateQuoteParams
       {| qp_inputMint := Some "A"%string; qp_outputMint := Some "B"%string;
          qp_amount := Some "5"%string; qp_slippageBps := Some (JS.of_Z 10001);
          qp_platformFeeBps := Some (JS.of_Z (-1)) |}
     = {| valid := false;
          errors := ["Slippage must be between 0 and 10000 basis points"%string;
                     "Platform fee must be between 0 and 10000 basis points"%string] |}
  /\ validateQuoteParams
       {| qp_inputMint := Some "A"%string; qp_outputMint := Some "A"%string;
          qp_amount := Some "5"%string; qp_slippageBps := None;
          qp_platformFeeBps := None |}
     = {| valid := false;
          errors := ["Input and output tokens must be different"%string] |}.
Proof.
  split; [vm_compute; reflexivity|].
  split; [vm_compute; reflexivity|].
  split; [cbn; tauto|].
  split; vm_compute; reflexivity.
Qed.

(** ** compareQuotes *)

(** C4, as amended: for quotes whose amounts are integer strings,
    [compareQuotes a b] returns [1], [-1] or [0], decided by the swap mode
    of [a]: under ExactIn the higher [outAmount] wins, under ExactOut the
    lower [inAmount] wins, ties return [0], on exact integers; and
    [compareQuotes a b = - compareQuotes b a] when [a] and [b] have the
    same swap mode. *)
Theorem compareQuotes_order (a b : JupiterQuote) (inA outA inB outB : Z) :
  BigInt.of_string (inAmount a) = Ok inA ->
  BigInt.of_string (outAmount a) = Ok outA ->
  BigInt.of_string (inAmount b) = Ok inB ->
  BigInt.of_string (outAmount b) = Ok outB ->
  exists r,
    compareQuotes a b = Ok r
    /\ (r = 1 \/ r = -1 \/ r = 0)
    /\ (swapMode a = ExactIn ->
        (r = 1 <-> outB < outA) /\ (r = -1 <-> outA < outB)
        /\ (r = 0 <-> outA = outB))
    /\ (swapMode a = ExactOut ->
        (r = 1 <-> inA < inB) /\ (r = -1 <-> inB < inA)
        /\ (r = 0 <-> inA = inB))
    /\ (swapMode a = swapMode b -> compareQuotes b a = Ok (- r)).
Proof.
  intros HinA HoutA HinB HoutB. unfold compareQuotes.
  rewrite HinA, HoutA, HinB, HoutB.
  destruct (swapMode a), (swapMode b); cbn [rbind];
    repeat match goal with
           | |- context [?x <? ?y] => destruct (Z.ltb_spec x y)
           end;
    eexists; (split; [reflexivity|]);
    repeat split; intros; try discriminate; try lia; try (f_equal; lia).
Qed.

Lemma compareQuotes_order_witness :
  exists r,
    compareQuotes (sample_quote ExactIn "1000000" "1050000" "0.1" [])
                  (sample_quote ExactIn "1000000" "1000000" "0.1" []) = Ok r
    /\ r = 1.
Proof.
  destruct (compareQuotes_order
              (sample_quote ExactIn "1000000" "1050000" "0.1" [])
              (sample_quote ExactIn "1000000" "1000000" "0.1" [])
              1000000 1050000 1000000 1000000
              eq_refl eq_refl eq_refl eq_refl)
    as (r & Hr & _ & Hin & _).
  exists r. split; [exact Hr|].
  apply (proj1 (Hin eq_refl)). reflexivity.
Defined.

(** Amounts beyond 2^53 that differ by one are told apart. *)
Example compareQuotes_large_amounts :
  compareQuotes (sample_quote ExactIn "1" "9007199254740993" "0" [])
                (sample_quote ExactIn "1" "9007199254740992" "0" []) = Ok 1
  /\ compareQuotes (sample_quote ExactOut "9007199254740993" "1" "0" [])
                   (sample_quote ExactOut "9007199254740992" "1" "0" [])
     = Ok (-1).
Proof. split; reflexivity. Qed.

(** C4 as stated fails for a pair of quotes of different swap modes: the
    ExactIn quote compares greater than the ExactOut quote on the output
    amounts, while the reverse comparison is a tie on the input amounts. *)
Lemma compareQuotes_mixed_modes_counterexample :
  compareQuotes (sample_quote ExactIn "1" "2" "0" [])
                (sample_quote ExactOut "1" "1" "0" []) = Ok 1
  /\ compareQuotes (sample_quote ExactOut "1" "1" "0" [])
                   (sample_quote ExactIn "1" "2" "0" []) = Ok 0
  /\ 1 <> - 0.
Proof. repeat split; try reflexivity. discriminate. Qed.

(** ** getRouteSummary *)

Section RouteSummary.

Lemma summary_loop_total (steps : list RoutePlanStep) (acc : SummaryAcc) :
  Forall (fun step => exists fee, BigInt.of_string (feeAmount step) = Ok fee) steps ->
  exists acc', summary_loop acc steps = Ok acc'.
Proof.
  intros H. revert acc. induction H as [|step steps [fee Hfee] _ IH]; intros acc.
  - eexists. reflexivity.
  - cbn [summary_loop]. unfold summary_step. rewrite Hfee. cbn [rbind]. apply IH.
Qed.

Lemma count_starts_at_input (quote : JupiterQuote) (steps : list RoutePlanStep) :
  length (List.filter (starts_at_input quote) steps)
  = length (filter (fun step => step_inputMint step = inputMint quote) steps).
Proof.
  induction steps as [|step steps IH]; [reflexivity|].
  cbn [List.filter]. rewrite filter_cons. unfold starts_at_input at 1.
  destruct (String.eqb_spec (step_inputMint step) (inputMint quote)) as [E|E];
    destruct (decide (step_inputMint step = inputMint quote)); try contradiction;
    cbn [length]; rewrite IH; reflexivity.
Qed.

(** What [getRouteSummary] returns, whenever it returns. *)
Lemma getRouteSummary_fields (quote : JupiterQuote) (summary : RouteSummary) :
  getRouteSummary quote = Ok summary ->
  totalHops summary = length (routePlan quote)
  /\ splitRoutes summary
     = length (filter (fun step => step_inputMint step = inputMint quote)
                      (routePlan quote))
  /\ isDirectRoute summary
     = (length (routePlan quote) =? 1)%nat || (splitRoutes summary =? 1)%nat.
Proof.
  unfold getRouteSummary. destruct (summary_loop _ _) as [acc|e]; [|discriminate].
  cbn [rbind]. intros [= <-]. cbn [totalHops splitRoutes isDirectRoute].
  rewrite <- count_starts_at_input.
  destruct (routePlan quote) as [|step steps]; repeat split; reflexivity.
Qed.

End RouteSummary.

(** C7: for every quote whose step fees are integer strings,
    [getRouteSummary] returns a summary; its [splitRoutes] is the number
    of route-plan steps whose input mint is the quote's input mint, and
    its [isDirectRoute] is true if and only if the route plan has one
    step or [splitRoutes] is one.  A route plan of two steps that both
    start from the quote's input mint gives [splitRoutes = 2] and
    [isDirectRoute = false]. *)
Theorem getRouteSummary_split_routes (quote : JupiterQuote) :
  Forall (fun step => exists fee, BigInt.of_string (feeAmount step) = Ok fee)
         (routePlan quote) ->
  exists summary,
    getRouteSummary quote = Ok summary
    /\ splitRoutes summary
       = length (filter (fun step => step_inputMint step = inputMint quote)
                        (routePlan quote))
    /\ (isDirectRoute summary = true
        <-> length (routePlan quote) = 1%nat \/ splitRoutes summary = 1%nat)
    /\ (forall first second,
          routePlan quote = [first; second] ->
          step_inputMint first = inputMint quote ->
          step_inputMint second = inputMint quote ->
          splitRoutes summary = 2%nat /\ isDirectRoute summary = false).
Proof.
  intros Hfees.
  assert (Hret : exists summary, getRouteSummary quote = Ok summary).
  { unfold getRouteSummary.
    destruct (summary_loop_total _ {| acc_dexes := []; acc_tokens := [];
                                      acc_fees := ∅; acc_percentages := [] |}
                                 Hfees) as [acc ->].
    eexists. reflexivity. }
  destruct Hret as [summary Hs]. exists summary.
  destruct (getRouteSummary_fields _ _ Hs) as (_ & Hsplit & Hdirect).
  split; [exact Hs|]. split; [exact Hsplit|]. split.
  - rewrite Hdirect, orb_true_iff, !Nat.eqb_eq. reflexivity.
  - intros first second Hplan Hfirst Hsecond.
    assert (H2 : splitRoutes summary = 2%nat).
    { rewrite Hsplit, Hplan, !filter_cons.
      destruct (decide (step_inputMint first = inputMint quote)); [|contradiction].
      destruct (decide (step_inputMint second = inputMint quote)); [|contradiction].
      reflexivity. }
    split; [exact H2|]. rewrite Hdirect, H2, Hplan. reflexivity.
Qed.

Lemma getRouteSummary_split_routes_witness :
  exists summary,
    getRouteSummary split_quote = Ok summary
    /\ splitRoutes summary = 2%nat /\ isDirectRoute summary = false.
Proof.
  destruct (getRouteSummary_split_routes split_quote) as (summary & Hs & _ & _ & H).
  - repeat constructor; eexists; reflexivity.
  - exists summary. split; [exact Hs|].
    exact (H _ _ eq_refl eq_refl eq_refl).
Defined.

(** ** filterRoutes *)

Lemma passes_direct_only (quote : JupiterQuote) :
  passes direct_only quote = (length (routePlan quote) <=? 1)%nat.
Proof.
  unfold passes, direct_only. cbn.
  destruct (routePlan quote) as [|s1 [|s2 steps]]; reflexivity.
Qed.

(** C10, as amended: with [{ directOnly: true }] alone, [filterRoutes]
    keeps exactly the quotes whose route plan has at most one step; a
    quote it keeps whose route plan is not empty is a direct route for
    [getRouteSummary], and not conversely: the two-hop single-branch
    quote has [isDirectRoute = true], through [splitRoutes = 1], and is
    rejected by the filter. *)
Theorem filterRoutes_direct_only :
  (forall quotes,
     filterRoutes quotes direct_only
     = List.filter (fun quote => (length (routePlan quote) <=? 1)%nat) quotes)
  /\ (forall quotes quote,
        In quote (filterRoutes quotes direct_only)
        <-> In quote quotes /\ (length (routePlan quote) <= 1)%nat)
  /\ (forall quote summary,
        getRouteSummary quote = Ok summary ->
        routePlan quote <> [] ->
        passes direct_only quote = true ->
        isDirectRoute summary = true)
  /\ (exists summary,
        getRouteSummary two_hop_quote = Ok summary
        /\ length (routePlan two_hop_quote) = 2%nat
        /\ splitRoutes summary = 1%nat
        /\ isDirectRoute summary = true
        /\ filterRoutes [two_hop_quote] direct_only = []).
Proof.
  split; [|split; [|split]].
  - intros quotes. unfold filterRoutes. apply filter_ext. intros quote.
    apply passes_direct_only.
  - intros quotes quote. unfold filterRoutes.
    rewrite filter_In, passes_direct_only, Nat.leb_le. reflexivity.
  - intros quote summary Hs Hne Hp.
    destruct (getRouteSummary_fields _ _ Hs) as (_ & _ & ->).
    rewrite passes_direct_only in Hp. apply Nat.leb_le in Hp.
    destruct (routePlan quote) as [|s1 [|s2 steps]]; cbn in *;
      [congruence | reflexivity | lia].
  - eexists. repeat split; vm_compute; reflexivity.
Qed.

(** C10 as stated fails: the filter is not narrower than the summary's
    notion of a direct route, because a quote with an empty route plan
    passes [{ directOnly: true }] while its [isDirectRoute] is false. *)
Lemma filterRoutes_direct_only_counterexample :
  filterRoutes [no_route_quote] direct_only = [no_route_quote]
  /\ exists summary,
       getRouteSummary no_route_quote = Ok summary
       /\ isDirectRoute summary = false.
Proof.
  split; [reflexivity|]. eexists. split; [reflexivity|]. reflexivity.
Qed.

(** ** Number: rounding to binary64 *)

Section Rounding.

Lemma div_half_even_nonneg (a b : Z) :
  0 <= a -> 0 < b -> 0 <= JS.div_half_even a b.
Proof.
  intros Ha Hb. unfold JS.div_half_even.
  assert (0 <= a / b) by (apply Z.div_pos; lia).
  destruct (2 * (a mod b) ?= b); [destruct (Z.even (a / b))| |]; lia.
Qed.

(** Rounding a quotient that is at most the integer [N] gives at most [N]. *)
Lemma div_half_even_le (a b N : Z) :
  0 <= a -> 0 < b -> a <= N * b -> JS.div_half_even a b <= N.
Proof.
  intros Ha Hb HN. unfold JS.div_half_even.
  pose proof (Z.div_mod a b ltac:(lia)) as Hdm.
  pose proof (Z.mod_pos_bound a b Hb) as Hr.
  assert (Hq : a / b <= N) by (apply Z.div_le_upper_bound; lia).
  destruct (Z.compare_spec (2 * (a mod b)) b) as [E|E|E]; [|lia|].
  - assert (a / b + 1 <= N) by nia. destruct (Z.even (a / b)); lia.
  - nia.
Qed.

Lemma scale2_nonneg (m k : Z) : 0 <= m -> (0 <= JS.scale2 m k)%Q.
Proof.
  intros Hm. unfold JS.scale2. destruct (0 <=? k).
  - unfold Qle. cbn [Qnum Qden inject_Z].
    assert (0 <= 2 ^ k) by (apply Z.pow_nonneg; lia). nia.
  - unfold Qle. cbn [Qnum Qden]. lia.
Qed.

Lemma ilog2_le_6 (n d : Z) :
  0 < n -> 0 < d -> n <= 100 * d -> JS.ilog2 n d <= 6.
Proof.
  intros Hn Hd Hle. unfold JS.ilog2.
  pose proof (Z.log2_spec n Hn) as [Hn1 _].
  pose proof (Z.log2_spec d Hd) as [_ Hd2].
  pose proof (Z.log2_nonneg d) as Hd0.
  set (e := Z.log2 n - Z.log2 d).
  assert (He : e <= 7).
  { destruct (Z.le_gt_cases e 7) as [|Hgt]; [assumption|exfalso].
    assert (2 ^ (Z.log2 d + 8) <= 2 ^ Z.log2 n)
      by (apply Z.pow_le_mono_r; unfold e in Hgt; lia).
    replace (Z.log2 d + 8) with (Z.succ (Z.log2 d) + 7) in H by lia.
    rewrite Z.pow_add_r in H by lia. change (2 ^ 7) with 128 in H. nia. }
  destruct (Z.eq_dec e 7) as [E7|].
  - rewrite E7. change (0 <=? 7) with true. cbv iota.
    change (2 ^ 7) with 128. destruct (Z.leb_spec (d * 128) n); lia.
  - destruct (if 0 <=? e then _ else _); lia.
Qed.

Lemma round_pos_nonneg (n d : Z) :
  0 < n -> 0 < d ->
  (exists y, JS.round_pos n d = JS.Finite y /\ (0 <= y)%Q)
  \/ JS.round_pos n d = JS.Infinity false.
Proof.
  intros Hn Hd. unfold JS.round_pos.
  set (k := Z.max (JS.ilog2 n d) (-1022) - 52).
  set (m := if 0 <=? k then _ else _).
  assert (Hm : 0 <= m).
  { unfold m. destruct (Z.leb_spec 0 k).
    - apply div_half_even_nonneg; [lia|].
      assert (0 < 2 ^ k) by (apply Z.pow_pos_nonneg; lia). nia.
    - apply div_half_even_nonneg; [|lia].
      assert (0 <= 2 ^ (- k)) by (apply Z.pow_nonneg; lia). nia. }
  destruct (2 ^ (1024 - k) <=? m); [right; reflexivity|].
  left. eexists. split; [reflexivity | apply scale2_nonneg, Hm].
Qed.

(** A positive quotient that is at most [100] rounds to a finite value
    that is at most [100]. *)
Lemma round_pos_le_100 (n d : Z) :
  0 < n -> 0 < d -> n <= 100 * d ->
  exists y, JS.round_pos n d = JS.Finite y /\ (0 <= y <= 100)%Q.
Proof.
  intros Hn Hd Hle. unfold JS.round_pos.
  pose proof (ilog2_le_6 n d Hn Hd Hle) as Hlog.
  set (k := Z.max (JS.ilog2 n d) (-1022) - 52).
  assert (Hk : k <= -46) by (unfold k; lia).
  destruct (Z.leb_spec 0 k) as [|_]; [lia|].
  set (P := 2 ^ (- k)).
  assert (HP : 0 < P) by (apply Z.pow_pos_nonneg; lia).
  set (m := JS.div_half_even (n * P) d).
  assert (Hm0 : 0 <= m) by (apply div_half_even_nonneg; nia).
  assert (Hm : m <= 100 * P) by (apply div_half_even_le; nia).
  assert (Hbig : 128 * P <= 2 ^ (1024 - k)).
  { replace (1024 - k) with (1024 + - k) by lia.
    rewrite Z.pow_add_r by lia. fold P.
    assert (2 ^ 7 <= 2 ^ 1024) by (apply Z.pow_le_mono_r; lia).
    change (2 ^ 7) with 128 in H. nia. }
  destruct (Z.leb_spec (2 ^ (1024 - k)) m) as [|_]; [lia|].
  eexists. split; [reflexivity|].
  unfold JS.scale2. destruct (Z.leb_spec 0 k) as [|_]; [lia|]. fold P.
  unfold Qle. cbn [Qnum Qden]. rewrite Z2Pos.id by assumption. lia.
Qed.

Lemma round_nonneg (q : Q) :
  (0 <= q)%Q ->
  (exists y, JS.round q = JS.Finite y /\ (0 <= y)%Q)
  \/ JS.round q = JS.Infinity false.
Proof.
  intros Hq. unfold JS.round. destruct q as [n d]. cbn [Qnum Qden].
  destruct n as [|p|p].
  - left. exists 0%Q. split; [reflexivity | apply Qle_refl].
  - apply round_pos_nonneg; lia.
  - unfold Qle in Hq. cbn in Hq. lia.
Qed.

Lemma round_le_100 (q : Q) :
  (q <= 100)%Q ->
  (exists y, JS.round q = JS.Finite y /\ (y <= 100)%Q)
  \/ JS.round q = JS.Infinity true.
Proof.
  intros Hq. unfold JS.round. destruct q as [n d]. cbn [Qnum Qden].
  unfold Qle in Hq. cbn [Qnum Qden] in Hq.
  destruct n as [|p|p].
  - left. exists 0%Q. split; [reflexivity | discriminate].
  - destruct (round_pos_le_100 (Z.pos p) (Z.pos d)) as (y & -> & _ & Hy); try lia.
    left. exists y. split; [reflexivity | exact Hy].
  - destruct (round_pos_nonneg (Z.pos p) (Z.pos d)) as [(y & -> & Hy) | ->]; try lia.
    + left. exists (- y)%Q. split; [reflexivity|].
      apply Qle_trans with 0%Q; [|discriminate].
      apply (Qopp_le_compat 0 y) in Hy. exact Hy.
    + right. reflexivity.
Qed.

(** The integer literals of [analyzeRouteEfficiency] are binary64 values. *)
Lemma of_Z_literal (z : Z) :
  In z [0; 20; 50; 70; 90; 100] ->
  exists q, JS.of_Z z = JS.Finite q /\ (q == inject_Z z)%Q.
Proof.
  cbn [In]. intros H.
  decompose [or] H; try contradiction; subst z;
    eexists; (split; [vm_compute; reflexivity | reflexivity]).
Qed.

End Rounding.

(** ** analyzeRouteEfficiency *)

Section Efficiency.

Lemma analyzeRouteEfficiency_fields (quote : JupiterQuote) :
  efficiency (analyzeRouteEfficiency quote)
  = JS.max (JS.of_Z 0)
           (JS.sub (JS.of_Z 100)
                   (JS.mul (JS.abs (JS.parseFloat (priceImpactPct quote)))
                           (JS.of_Z 20)))
  /\ recommendation (analyzeRouteEfficiency quote)
     = recommend (efficiency (analyzeRouteEfficiency quote)).
Proof.
  unfold analyzeRouteEfficiency.
  destruct (fold_left efficiency_step (routePlan quote) (∅, None)) as [hops largest].
  split; reflexivity.
Qed.

Lemma max_zero_range (x : JS.Number) :
  ((exists y, x = JS.Finite y /\ (y <= 100)%Q) \/ x = JS.Infinity true) ->
  exists e, JS.max (JS.of_Z 0) x = JS.Finite e /\ (0 <= e <= 100)%Q.
Proof.
  change (JS.of_Z 0) with (JS.Finite 0).
  intros [(y & -> & Hy) | ->].
  - cbn [JS.max JS.lt]. destruct (Qle_bool y 0) eqn:E; cbn [negb].
    + exists 0%Q. split; [reflexivity|]. split; discriminate.
    + exists y. split; [reflexivity|]. split; [|exact Hy].
      apply Qlt_le_weak, Qnot_le_lt. intros H. apply Qle_bool_iff in H. congruence.
  - exists 0%Q. split; [reflexivity|]. split; discriminate.
Qed.

Lemma sub_100_range (t : JS.Number) :
  ((exists b, t = JS.Finite b /\ (0 <= b)%Q) \/ t = JS.Infinity false) ->
  (exists y, JS.sub (JS.of_Z 100) t = JS.Finite y /\ (y <= 100)%Q)
  \/ JS.sub (JS.of_Z 100) t = JS.Infinity true.
Proof.
  destruct (of_Z_literal 100) as (q100 & E100 & H100); [cbn; tauto|].
  rewrite E100. intros [(b & -> & Hb) | ->].
  - cbn [JS.sub]. apply round_le_100. rewrite H100.
    apply Qle_trans with (inject_Z 100 - 0)%Q; [|discriminate].
    apply Qplus_le_r, Qopp_le_compat, Hb.
  - right. reflexivity.
Qed.

Lemma mul_20_range (x : JS.Number) :
  ((exists a, x = JS.Finite a /\ (0 <= a)%Q) \/ x = JS.Infinity false) ->
  (exists b, JS.mul x (JS.of_Z 20) = JS.Finite b /\ (0 <= b)%Q)
  \/ JS.mul x (JS.of_Z 20) = JS.Infinity false.
Proof.
  destruct (of_Z_literal 20) as (q20 & E20 & H20); [cbn; tauto|].
  rewrite E20. intros [(a & -> & Ha) | ->].
  - cbn [JS.mul]. apply round_nonneg. apply Qmult_le_0_compat; [exact Ha|].
    rewrite H20. discriminate.
  - right. cbn [JS.mul].
    assert (Qeq_bool q20 0 = false) as ->.
    { destruct (Qeq_bool q20 0) eqn:E; [|reflexivity].
      apply Qeq_bool_iff in E. rewrite H20 in E. discriminate. }
    assert (Qle_bool 0 q20 = true) as ->.
    { apply Qle_bool_iff. rewrite H20. discriminate. }
    reflexivity.
Qed.

Lemma abs_range (x : JS.Number) :
  x <> JS.NaN ->
  (exists a, JS.abs x = JS.Finite a /\ (0 <= a)%Q) \/ JS.abs x = JS.Infinity false.
Proof.
  destruct x as [|negative|q]; intros H; [congruence| right; reflexivity |].
  left. exists (Qabs q). split; [reflexivity | apply Qabs_nonneg].
Qed.

(** The four tiers of the recommendation. *)
Lemma recommend_tiers (e : Q) :
  ((90 <= e)%Q ->
   recommend (JS.Finite e) = "Excellent route with minimal price impact"%string)
  /\ ((70 <= e < 90)%Q ->
      recommend (JS.Finite e) = "Good route, acceptable price impact"%string)
  /\ ((50 <= e < 70)%Q ->
      recommend (JS.Finite e)
      = "Consider using a smaller trade size to reduce price impact"%string)
  /\ ((e < 50)%Q ->
      recommend (JS.Finite e)
      = "High price impact detected. Consider splitting the trade or waiting for better liquidity"%string).
Proof.
  unfold recommend.
  destruct (of_Z_literal 90) as (q90 & -> & H90); [cbn; tauto|].
  destruct (of_Z_literal 70) as (q70 & -> & H70); [cbn; tauto|].
  destruct (of_Z_literal 50) as (q50 & -> & H50); [cbn; tauto|].
  unfold JS.ge. cbn [JS.le].
  assert (T : forall q z, (q == inject_Z z)%Q ->
              if Qle_bool q e then (inject_Z z <= e)%Q else (e < inject_Z z)%Q).
  { intros q z Hq. destruct (Qle_bool q e) eqn:E.
    - rewrite <- Hq. apply Qle_bool_iff, E.
    - rewrite <- Hq. apply Qnot_le_lt. intros H.
      apply Qle_bool_iff in H. congruence. }
  pose proof (T _ _ H90) as T90. pose proof (T _ _ H70) as T70.
  pose proof (T _ _ H50) as T50.
  change (inject_Z 90) with 90%Q in T90. change (inject_Z 70) with 70%Q in T70.
  change (inject_Z 50) with 50%Q in T50. clear T.
  destruct (Qle_bool q90 e), (Qle_bool q70 e), (Qle_bool q50 e);
    repeat split; intros H; try reflexivity; exfalso; lra.
Qed.

End Efficiency.

(** C8, as amended: for every quote whose [priceImpactPct] is numeric,
    [analyzeRouteEfficiency] returns the score
    [max(0, 100 - |priceImpactPct| * 20)], computed on the absolute value
    of the price impact; the score lies in [[0, 100]]; and the
    recommendation is the message of the tier of the score: at least 90,
    at least 70, at least 50, or below. *)
Theorem analyzeRouteEfficiency_score (quote : JupiterQuote) :
  JS.parseFloat (priceImpactPct quote) <> JS.NaN ->
  let impact := JS.abs (JS.parseFloat (priceImpactPct quote)) in
  let r := analyzeRouteEfficiency quote in
  efficiency r
  = JS.max (JS.of_Z 0) (JS.sub (JS.of_Z 100) (JS.mul impact (JS.of_Z 20)))
  /\ exists e,
       efficiency r = JS.Finite e
       /\ (0 <= e <= 100)%Q
       /\ ((90 <= e)%Q ->
           recommendation r = "Excellent route with minimal price impact"%string)
       /\ ((70 <= e < 90)%Q ->
           recommendation r = "Good route, acceptable price impact"%string)
       /\ ((50 <= e < 70)%Q ->
           recommendation r
           = "Consider using a smaller trade size to reduce price impact"%string)
       /\ ((e < 50)%Q ->
           recommendation r
           = "High price impact detected. Consider splitting the trade or waiting for better liquidity"%string).
Proof.
  intros Hnum impact r.
  destruct (analyzeRouteEfficiency_fields quote) as [Heff Hrec].
  fold r impact in Heff, Hrec.
  split; [exact Heff|].
  destruct (max_zero_range _ (sub_100_range _ (mul_20_range _ (abs_range _ Hnum))))
    as (e & He & Hrange).
  fold impact in He. rewrite <- Heff in He.
  exists e. split; [exact He|]. split; [exact Hrange|].
  rewrite Hrec, He. apply recommend_tiers.
Qed.

Lemma analyzeRouteEfficiency_score_witness :
  JS.parseFloat (priceImpactPct split_quote) <> JS.NaN
  /\ exists e,
       efficiency (analyzeRouteEfficiency split_quote) = JS.Finite e
       /\ (0 <= e <= 100)%Q.
Proof.
  assert (H : JS.parseFloat (priceImpactPct split_quote) <> JS.NaN)
    by (vm_compute; discriminate).
  split; [exact H|].
  destruct (analyzeRouteEfficiency_score split_quote H) as (_ & e & He & Hr & _).
  exists e. split; [exact He | exact Hr].
Defined.

(** C8 as stated fails on a negative price impact: for [priceImpactPct]
    of [-1] the score is [80], while [max(0, 100 - (-1) * 20)] is [120]. *)
Lemma analyzeRouteEfficiency_negative_impact_counterexample :
  exists e s,
    efficiency (analyzeRouteEfficiency
                  (sample_quote ExactIn "1000000" "1050000" "-1" []))
    = JS.Finite e
    /\ efficiency_as_stated (sample_quote ExactIn "1000000" "1050000" "-1" [])
       = JS.Finite s
    /\ (e == 80)%Q /\ (s == 120)%Q /\ ~ (e == s)%Q.
Proof.
  eexists. eexists.
  split; [vm_compute; reflexivity|].
  split; [vm_compute; reflexivity|].
  repeat split; discriminate.
Qed.

(** ** estimateTransactionFee *)

Lemma estimateTransactionFee_value (conn : Connection) (message : string)
  (w : World) (value : option Z) :
  feeForMessage conn (length (requests w)) message = Ok value ->
  fst (estimateTransactionFee conn (VersionedTransaction message) w)
  = Ok (fee_or_default value)
  /\ fst (estimateTransactionFee conn (Transaction (Ok message)) w)
     = Ok (fee_or_default value).
Proof.
  intros H. unfold estimateTransactionFee, getFeeForMessage, request, bind.
  rewrite H. split; reflexivity.
Qed.

Lemma fee_or_default_spec (value : option Z) :
  fee_or_default value
  = match value with
    | Some fee => if Z.eq_dec fee 0 then 5000 else fee
    | None => 5000
    end.
Proof.
  destruct value as [fee|]; [|reflexivity]. cbn.
  destruct (Z.eqb_spec fee 0), (Z.eq_dec fee 0); congruence.
Qed.

(** C9, at a reported fee of [0]: the ledger supplies the fee value [0]
    and [estimateTransactionFee] returns the fallback [5000] instead of
    it, for a versioned and for a legacy transaction. *)
Theorem estimateTransactionFee_zero_fee :
  fst (estimateTransactionFee (fee_connection (Some 0))
                              (VersionedTransaction "message") start)
  = Ok 5000
  /\ fst (estimateTransactionFee (fee_connection (Some 0))
                                 (Transaction (Ok "message"%string)) start)
     = Ok 5000
  /\ fst (estimateTransactionFee (fee_connection (Some 4000))
                                 (VersionedTransaction "message") start)
     = Ok 4000
  /\ fst (estimateTransactionFee (fee_connection None)
                                 (VersionedTransaction "message") start)
     = Ok 5000.
Proof. repeat split; reflexivity. Qed.

(** ** getRecentBlockhash *)

Section Retries.

Variable conn : Connection.

Lemma backoff_cons (i : Z) (k : nat) :
  backoff i (S k) = 1000 * (i + 1) :: backoff (i + 1) k.
Proof.
  unfold backoff. cbn [seq map]. f_equal; [f_equal; lia|].
  rewrite <- seq_shift, map_map. apply map_ext. intros j. f_equal. lia.
Qed.

Lemma last_cons_default (d d' : Thrown) (e : Thrown) (fs : list Thrown) :
  default (default d (Some (as_Error e))) (as_Error <$> last fs)
  = default d' (as_Error <$> last (e :: fs)).
Proof.
  destruct fs as [|f fs]; [reflexivity|].
  rewrite (last_cons e (f :: fs)).
  destruct (last (f :: fs)) eqn:E; [reflexivity|].
  apply last_None in E. discriminate.
Qed.

(** A run of the loop against a connection whose next replies are the
    given failures. *)
Lemma getRecentBlockhash_loop_spec (failures : list Thrown) :
  forall (remaining : nat) (i : Z) (lastError : option Thrown) (w : World),
    (forall j e, failures !! j = Some e ->
                 latestBlockhash conn (length (requests w) + j) = Throw e) ->
    forall r w', getRecentBlockhash_loop conn remaining i lastError w = (r, w') ->
    ((length failures < remaining)%nat ->
     forall info,
       latestBlockhash conn (length (requests w) + length failures) = Ok info ->
       r = Ok info
       /\ timers w' = timers w ++ backoff i (length failures)
       /\ requests w'
          = requests w
            ++ repeat (GetLatestBlockhash confirmed_level) (S (length failures)))
    /\ (length failures = remaining ->
        r = Throw (default (default (Error "Failed to get recent blockhash")
                                    lastError)
                           (as_Error <$> last failures))
        /\ timers w' = timers w ++ backoff i (length failures)
        /\ requests w'
           = requests w
             ++ repeat (GetLatestBlockhash confirmed_level) (length failures)).
Proof.
  induction failures as [|e fs IH]; intros remaining i lastError w Hf r w' Hrun.
  - cbn [length]. rewrite Nat.add_0_r. split.
    + intros Hlt info Hinfo. destruct remaining as [|remaining]; [lia|].
      cbn [getRecentBlockhash_loop] in Hrun.
      unfold bind, attempt, getLatestBlockhash, request in Hrun.
      rewrite Hinfo in Hrun. cbn in Hrun. injection Hrun as <- <-.
      cbn. rewrite app_nil_r. destruct info. repeat split; reflexivity.
    + intros <-. cbn in Hrun. injection Hrun as <- <-.
      rewrite !app_nil_r. repeat split; reflexivity.
  - destruct remaining as [|remaining]; [cbn [length]; split; intros; lia|].
    cbn [getRecentBlockhash_loop] in Hrun.
    unfold bind, attempt, getLatestBlockhash, request in Hrun.
    pose proof (Hf 0%nat e eq_refl) as H0. rewrite Nat.add_0_r in H0.
    rewrite H0 in Hrun. cbn [fst snd] in Hrun.
    unfold sleep at 1 in Hrun. cbn [now requests timers] in Hrun.
    fold (as_Error e) in Hrun.
    match type of Hrun with
    | getRecentBlockhash_loop _ _ _ _ ?next = _ => set (w2 := next) in Hrun
    end.
    assert (Hf2 : forall j e', fs !! j = Some e' ->
                    latestBlockhash conn (length (requests w2) + j) = Throw e').
    { intros j e' Hj. unfold w2. cbn [requests]. rewrite length_app. cbn [length].
      replace (length (requests w) + 1 + j)%nat
        with (length (requests w) + S j)%nat by lia.
      apply Hf. exact Hj. }
    destruct (IH remaining (i + 1) (Some (as_Error e)) w2 Hf2 r w' Hrun) as [HA HB].
    assert (Hreq : forall k,
               requests w2 ++ repeat (GetLatestBlockhash confirmed_level) k
               = requests w ++ repeat (GetLatestBlockhash confirmed_level) (S k)).
    { intros k. unfold w2. cbn [requests repeat]. rewrite <- app_assoc. reflexivity. }
    assert (Htim : timers w2 ++ backoff (i + 1) (length fs)
                   = timers w ++ backoff i (S (length fs))).
    { unfold w2. cbn [timers]. rewrite backoff_cons, <- app_assoc. reflexivity. }
    cbn [length]. split.
    + intros Hlt info Hinfo.
      destruct (HA ltac:(lia) info) as (Hr & Ht & Hq).
      { unfold w2. cbn [requests]. rewrite length_app. cbn [length].
        replace (length (requests w) + 1 + length fs)%nat
          with (length (requests w) + S (length fs))%nat by lia.
        exact Hinfo. }
      rewrite Ht, Hq, Htim, Hreq. repeat split. exact Hr.
    + intros Hlen. destruct (HB ltac:(lia)) as (Hr & Ht & Hq).
      rewrite Ht, Hq, Htim, Hreq. repeat split.
      rewrite Hr. f_equal. apply last_cons_default.
Qed.

End Retries.



(** ** waitForConfirmation *)

Section Polling.

Variable conn : Connection.
Variable signature : string.

(** Requests take no negative time, and a wait of 1000 ms lasts at least
    [wait_min] ms: [1000] when no timer fires early, less when one may. *)
Variable wait_min : Z.
Hypothesis latency_nonneg : forall n, 0 <= latency conn n.
Hypothesis wait_lasts : forall n, wait_min <= 1000 + timer_lag conn n.





End Polling.



(** The timeout scenario of the specification, run: a status source that
    never reports the signature, a timeout of 2000 ms, requests that take
    no time.  Two polls, two waits of 1000 ms, and the timeout result. *)
Example waitForConfirmation_timeout_2000 :
  waitForConfirmation 2 quiet_connection "signature" (Some 2000)
                      confirmed_level start
  = Some (Ok {| signature := "signature"; confirmed := false; slot := None;
                blockTime := None;
                err := Some (Some "Transaction confirmation timeout"%string) |},
          {| now := 2000;
             requests := [GetSignatureStatus "signature";
                          GetSignatureStatus "signature"];
             timers := [1000; 1000] |}).
Proof. reflexivity. Qed.

(** The same scenario with timers that fire one millisecond early: the
    third poll starts at 1998 ms, before the timeout of 2000 ms. *)
Example waitForConfirmation_timeout_2000_hasty :
  waitForConfirmation 3 hasty_connection "signature" (Some 2000)
                      confirmed_level start
  = Some (Ok {| signature := "signature"; confirmed := false; slot := None;
                blockTime := None;
                err := Some (Some "Transaction confirmation timeout"%string) |},
          {| now := 2997;
             requests := [GetSignatureStatus "signature";
                          GetSignatureStatus "signature";
                          GetSignatureStatus "signature"];
             timers := [1000; 1000; 1000] |}).
Proof. reflexivity. Qed.


(** ** Number: reading amounts *)

(** What [validateQuoteParams] takes for a strictly positive number:
    decimal, exponent, hexadecimal and [Infinity] literals above zero; not
    zero, not a negative number, not a string that is no number, and not a
    literal so small that it rounds to zero. *)
Example positive_number_examples :
  positive_number (JS.of_string "5")
  /\ positive_number (JS.of_string " 0.000001 ")
  /\ positive_number (JS.of_string "1e3")
  /\ positive_number (JS.of_string "0x10")
  /\ positive_number (JS.of_string "Infinity")
  /\ ~ positive_number (JS.of_string "0")
  /\ ~ positive_number (JS.of_string "-5")
  /\ ~ positive_number (JS.of_string "five")
  /\ ~ positive_number (JS.of_string "5 USDC")
  /\ ~ positive_number (JS.of_string "1e-400").
Proof.
  repeat split; try (vm_compute; reflexivity);
    intros H; vm_compute in H; try contradiction; discriminate.
Qed.

(** * Properties of the further functions *)

(** ** The rounding error of a binary64 result *)

(** ** Number: the error of a rounding *)

Section RoundingError.

Lemma div_half_even_error (a b : Z) :
  0 <= a -> 0 < b -> 2 * Z.abs (JS.div_half_even a b * b - a) <= b.
Proof.
  intros Ha Hb. unfold JS.div_half_even.
  pose proof (Z.div_mod a b ltac:(lia)) as Hdm.
  pose proof (Z.mod_pos_bound a b Hb) as Hr.
  destruct (Z.compare_spec (2 * (a mod b)) b) as [E|E|E];
    [destruct (Z.even (a / b))| |]; nia.
Qed.

(** [ilog2 n d] is the exponent of the power of two at or below [n / d]. *)
Lemma ilog2_lower (n d s : Z) :
  0 < n -> 0 < d -> 0 <= s -> 0 <= s + JS.ilog2 n d ->
  d * 2 ^ (s + JS.ilog2 n d) <= n * 2 ^ s.
Proof.
  intros Hn Hd Hs. unfold JS.ilog2.
  pose proof (Z.log2_spec n Hn) as [Hn1 _].
  pose proof (Z.log2_spec d Hd) as [_ Hd2].
  pose proof (Z.log2_nonneg d) as Hd0. pose proof (Z.log2_nonneg n) as Hn0.
  set (e := Z.log2 n - Z.log2 d).
  assert (Hs0 : 0 < 2 ^ s) by (apply Z.pow_pos_nonneg; lia).
  destruct (Z.leb_spec 0 e) as [He|He].
  - destruct (Z.leb_spec (d * 2 ^ e) n) as [Hc|Hc]; intros Hse.
    + rewrite Z.pow_add_r by lia. nia.
    + replace (Z.log2 n) with (Z.log2 d + e) in Hn1 by (unfold e; lia).
      replace (s + (e - 1)) with (s + e - 1) by lia.
      assert (H1 : 2 ^ Z.succ (Z.log2 d) * 2 ^ (s + e - 1) = 2 ^ (Z.log2 d + e) * 2 ^ s).
      { rewrite <- !Z.pow_add_r by lia. f_equal. lia. }
      assert (0 < 2 ^ (s + e - 1)) by (apply Z.pow_pos_nonneg; lia).
      nia.
  - destruct (Z.leb_spec d (n * 2 ^ (- e))) as [Hc|Hc]; intros Hse.
    + assert (H1 : 2 ^ (- e) * 2 ^ (s + e) = 2 ^ s).
      { rewrite <- Z.pow_add_r by lia. f_equal. lia. }
      assert (0 < 2 ^ (s + e)) by (apply Z.pow_pos_nonneg; lia).
      nia.
    + replace (s + (e - 1)) with (s + e - 1) by lia.
      assert (H1 : 2 ^ Z.succ (Z.log2 d) * 2 ^ (s + e - 1) = 2 ^ Z.log2 n * 2 ^ s).
      { rewrite <- !Z.pow_add_r by lia. f_equal. unfold e. lia. }
      assert (0 < 2 ^ (s + e - 1)) by (apply Z.pow_pos_nonneg; lia).
      nia.
Qed.

Lemma ilog2_upper (n d s : Z) :
  0 < n -> 0 < d -> 0 <= s -> 0 <= s + JS.ilog2 n d + 1 ->
  n * 2 ^ s < d * 2 ^ (s + JS.ilog2 n d + 1).
Proof.
  intros Hn Hd Hs. unfold JS.ilog2.
  pose proof (Z.log2_spec n Hn) as [_ Hn2].
  pose proof (Z.log2_spec d Hd) as [Hd1 _].
  pose proof (Z.log2_nonneg d) as Hd0. pose proof (Z.log2_nonneg n) as Hn0.
  set (e := Z.log2 n - Z.log2 d).
  assert (Hs0 : 0 < 2 ^ s) by (apply Z.pow_pos_nonneg; lia).
  assert (Hgen : 0 <= s + e + 1 -> n * 2 ^ s < d * 2 ^ (s + e + 1)).
  { intros Hse.
    assert (H1 : 2 ^ Z.succ (Z.log2 n) * 2 ^ s = 2 ^ Z.log2 d * 2 ^ (s + e + 1)).
    { rewrite <- !Z.pow_add_r by lia. f_equal. unfold e. lia. }
    assert (0 < 2 ^ (s + e + 1)) by (apply Z.pow_pos_nonneg; lia).
    nia. }
  destruct (Z.leb_spec 0 e) as [He|He].
  - destruct (Z.leb_spec (d * 2 ^ e) n) as [Hc|Hc]; intros Hse.
    + apply Hgen. lia.
    + replace (s + (e - 1) + 1) with (s + e) by lia.
      rewrite Z.pow_add_r by lia. nia.
  - destruct (Z.leb_spec d (n * 2 ^ (- e))) as [Hc|Hc]; intros Hse.
    + apply Hgen. lia.
    + replace (s + (e - 1) + 1) with (s + e) in * by lia.
      assert (H1 : 2 ^ (- e) * 2 ^ (s + e) = 2 ^ s).
      { rewrite <- Z.pow_add_r by lia. f_equal. lia. }
      assert (0 < 2 ^ (s + e)) by (apply Z.pow_pos_nonneg; lia).
      nia.
Qed.

End RoundingError.

Section RoundingRelative.

(** In the range of the normal numbers below [2 ^ 52], [round_pos] keeps
    53 bits: the result is [m / P] with [|m / P - n / d| <= 1 / (2 P)]
    and [2 ^ 52 <= (n / d) * P]. *)
Lemma round_pos_normal (n d : Z) :
  0 < n -> 0 < d -> d <= n * 2 ^ 40 -> n < d * 2 ^ 52 ->
  exists m P,
    0 < P
    /\ JS.round_pos n d = JS.Finite (Qmake m (Z.to_pos P))
    /\ 2 * Z.abs (m * d - n * P) <= d
    /\ d * 2 ^ 52 <= n * P.
Proof.
  intros Hn Hd Hlow Hhigh. unfold JS.round_pos.
  set (e := JS.ilog2 n d).
  assert (He1 : e < 52).
  { destruct (Z.lt_ge_cases e 52) as [|Hge]; [assumption|exfalso].
    pose proof (ilog2_lower n d 0 Hn Hd ltac:(lia) ltac:(fold e; lia)) as H.
    fold e in H. rewrite Z.add_0_l, Z.pow_0_r, Z.mul_1_r in H.
    assert (2 ^ 52 <= 2 ^ e) by (apply Z.pow_le_mono_r; lia). nia. }
  assert (He2 : -41 < e).
  { destruct (Z.lt_ge_cases (-41) e) as [|Hle]; [assumption|exfalso].
    pose proof (ilog2_upper n d (- (e + 1)) Hn Hd ltac:(lia) ltac:(fold e; lia)) as H.
    fold e in H. replace (- (e + 1) + e + 1) with 0 in H by lia.
    rewrite Z.pow_0_r, Z.mul_1_r in H.
    assert (2 ^ 40 <= 2 ^ (- (e + 1))) by (apply Z.pow_le_mono_r; lia). nia. }
  replace (Z.max e (-1022)) with e by lia.
  destruct (Z.leb_spec 0 (e - 52)) as [|_]; [lia|].
  replace (- (e - 52)) with (52 - e) by lia.
  set (P := 2 ^ (52 - e)).
  assert (HP : 0 < P) by (apply Z.pow_pos_nonneg; lia).
  pose proof (ilog2_lower n d (52 - e) Hn Hd ltac:(lia) ltac:(fold e; lia)) as Hlo.
  pose proof (ilog2_upper n d (52 - e) Hn Hd ltac:(lia) ltac:(fold e; lia)) as Hup.
  fold e P in Hlo, Hup.
  replace (52 - e + e) with 52 in Hlo by lia.
  replace (52 - e + e + 1) with 53 in Hup by lia.
  pose proof (div_half_even_error (n * P) d ltac:(nia) Hd) as Herr.
  set (m := JS.div_half_even (n * P) d) in *.
  assert (Hbig : 2 ^ 54 <= 2 ^ (1024 - (e - 52))) by (apply Z.pow_le_mono_r; lia).
  change (2 ^ 54) with 18014398509481984 in Hbig.
  change (2 ^ 53) with 9007199254740992 in Hup.
  destruct (Z.leb_spec (2 ^ (1024 - (e - 52))) m) as [Hov|_]; [nia|].
  exists m, P. split; [exact HP|]. split.
  - unfold JS.scale2. destruct (Z.leb_spec 0 (e - 52)) as [|_]; [lia|].
    replace (- (e - 52)) with (52 - e) by lia. reflexivity.
  - split; assumption.
Qed.

(** In that range a rounding moves a value by at most one part in
    [2 ^ 53]. *)
Lemma round_relative (q : Q) :
  (1 # 2 ^ 40 <= q)%Q -> (q < inject_Z (2 ^ 52))%Q ->
  exists y,
    JS.round q = JS.Finite y
    /\ (q * (1 - (1 # 2 ^ 53)) <= y)%Q /\ (y <= q * (1 + (1 # 2 ^ 53)))%Q.
Proof.
  destruct q as [n d]. intros Hlow Hhigh.
  unfold Qle, Qlt in Hlow, Hhigh. cbn [Qnum Qden inject_Z] in Hlow, Hhigh.
  assert (Hn : 0 < n) by (change (Z.pos (2 ^ 40)) with (2 ^ 40) in Hlow; lia).
  unfold JS.round. cbn [Qnum Qden].
  destruct n as [|p|p]; try lia.
  destruct (round_pos_normal (Z.pos p) (Z.pos d)) as (m & P & HP & -> & Herr & Hlo);
    try lia.
  exists (Qmake m (Z.to_pos P)). split; [reflexivity|].
  change (2 ^ 52) with 4503599627370496 in Hlo.
  unfold Qle, Qmult, Qminus, Qplus, Qopp. cbn [Qnum Qden].
  rewrite !Pos2Z.inj_mul, !Z2Pos.id by assumption.
  change (Z.pos (2 ^ 53)) with 9007199254740992.
  split; nia.
Qed.

End RoundingRelative.

(** ** Conversions between units *)

Section ScaleRoundTrip.

(** An integer below [2 ^ 52] is a binary64 value. *)
Lemma of_Z_exact (z : Z) :
  0 <= z < 2 ^ 52 ->
  exists q, JS.of_Z z = JS.Finite q /\ (q == inject_Z z)%Q.
Proof.
  intros Hz. unfold JS.of_Z, JS.round. cbn [inject_Z Qnum Qden].
  destruct z as [|p|p]; try lia.
  - exists 0%Q. split; reflexivity.
  - assert (H40 : 2 ^ 40 = 1099511627776) by reflexivity.
    assert (H52 : 2 ^ 52 = 4503599627370496) by reflexivity.
    destruct (round_pos_normal (Z.pos p) 1) as (m & P & HP & -> & Herr & _);
      try lia.
    eexists. split; [reflexivity|].
    unfold Qeq. cbn [Qnum Qden inject_Z]. rewrite Z2Pos.id by assumption. lia.
Qed.

Lemma round_half_up_integer (y : Q) (b : Z) :
  (inject_Z b - (1 # 2) <= y)%Q -> (y < inject_Z b + (1 # 2))%Q ->
  JSMath.round (JS.Finite y) = JS.Finite (inject_Z b).
Proof.
  intros Hlo Hhi. cbn [JSMath.round]. do 2 f_equal.
  pose proof (Qfloor_le (y + (1 # 2))) as H1.
  pose proof (Qlt_floor (y + (1 # 2))) as H2.
  assert (H3 : (inject_Z (Qfloor (y + (1 # 2))) < inject_Z (b + 1))%Q).
  { rewrite inject_Z_plus. change (inject_Z 1) with 1%Q. lra. }
  assert (H4 : (inject_Z b < inject_Z (Qfloor (y + (1 # 2)) + 1))%Q) by lra.
  rewrite <- Zlt_Qlt in H3, H4. lia.
Qed.

(** Dividing an integer [b] by an integer [c] and multiplying the
    quotient by [c] gives a number less than a half away from [b], up
    to [b = 2 ^ 50]. *)
Lemma scale_there_and_back (b c : Z) :
  0 <= b <= 2 ^ 50 -> 1 <= c <= 2 ^ 30 ->
  exists y,
    JS.mul (JSMath.div (JS.of_Z b) (JS.of_Z c)) (JS.of_Z c) = JS.Finite y
    /\ (inject_Z b - (3 # 8) <= y <= inject_Z b + (3 # 8))%Q.
Proof.
  intros Hb Hc.
  assert (H250 : 2 ^ 50 < 2 ^ 52) by reflexivity.
  assert (H230 : 2 ^ 30 < 2 ^ 52) by reflexivity.
  destruct (of_Z_exact c ltac:(lia)) as (qc & -> & Hqc).
  assert (Hc1 : (1 <= inject_Z c)%Q).
  { change 1%Q with (inject_Z 1). rewrite <- Zle_Qle. lia. }
  assert (Hc2 : (inject_Z c <= inject_Z (2 ^ 30))%Q) by (rewrite <- Zle_Qle; lia).
  assert (Hqc0 : Qeq_bool qc 0 = false).
  { destruct (Qeq_bool qc 0) eqn:E; [|reflexivity].
    apply Qeq_bool_iff in E. rewrite Hqc in E. lra. }
  destruct (Z.eq_dec b 0) as [->|Hb0].
  - change (JS.of_Z 0) with (JS.Finite 0). cbn [JSMath.div]. rewrite Hqc0.
    assert (E : JS.round (0 / qc) = JS.Finite 0).
    { unfold JS.round, Qdiv, Qmult. cbn [Qnum]. reflexivity. }
    rewrite E. cbn [JS.mul].
    assert (E' : JS.round (0 * qc) = JS.Finite 0).
    { unfold JS.round, Qmult. cbn [Qnum]. reflexivity. }
    exists 0%Q. split; [exact E'|]. change (inject_Z 0) with 0%Q. lra.
  - destruct (of_Z_exact b ltac:(lia)) as (qb & -> & Hqb).
    assert (Hb1 : (1 <= inject_Z b)%Q).
    { change 1%Q with (inject_Z 1). rewrite <- Zle_Qle. lia. }
    assert (Hb2 : (inject_Z b <= inject_Z (2 ^ 50))%Q) by (rewrite <- Zle_Qle; lia).
    cbn [JSMath.div]. rewrite Hqc0.
    set (u := (qb / qc)%Q).
    assert (Hu : (u * inject_Z c == inject_Z b)%Q).
    { unfold u. rewrite Hqb, Hqc. field. lra. }
    assert (Hu0 : (0 < u)%Q).
    { unfold u. rewrite Hqb, Hqc. apply Qlt_shift_div_l; lra. }
    change (inject_Z (2 ^ 30)) with 1073741824%Q in Hc2.
    change (inject_Z (2 ^ 50)) with 1125899906842624%Q in Hb2.
    assert (Hu1 : (1 # 2 ^ 40 <= u)%Q).
    { change (1 # 2 ^ 40)%Q with (1 # 1099511627776)%Q.
      apply Qmult_le_r with (z := inject_Z c); [lra|]. rewrite Hu. lra. }
    assert (Hu2 : (u <= inject_Z b)%Q).
    { apply Qmult_le_r with (z := inject_Z c); [lra|]. rewrite Hu.
      rewrite <- (Qmult_1_r (inject_Z b)) at 1.
      apply Qmult_le_l; [lra | exact Hc1]. }
    destruct (round_relative u Hu1) as (x & -> & Hx1 & Hx2).
    { change (inject_Z (2 ^ 52)) with 4503599627370496%Q. lra. }
    cbn [JS.mul].
    set (t := (x * qc)%Q).
    assert (Ht1 : (inject_Z b * (1 - (1 # 2 ^ 53)) <= t)%Q).
    { unfold t. rewrite Hqc, <- Hu.
      assert (E : (u * inject_Z c * (1 - (1 # 2 ^ 53))
                   == u * (1 - (1 # 2 ^ 53)) * inject_Z c)%Q) by ring.
      rewrite E.
      apply Qmult_le_compat_r; [exact Hx1 | lra]. }
    assert (Ht2 : (t <= inject_Z b * (1 + (1 # 2 ^ 53)))%Q).
    { unfold t. rewrite Hqc, <- Hu.
      assert (E : (u * inject_Z c * (1 + (1 # 2 ^ 53))
                   == u * (1 + (1 # 2 ^ 53)) * inject_Z c)%Q) by ring.
      rewrite E.
      apply Qmult_le_compat_r; [exact Hx2 | lra]. }
    destruct (round_relative t) as (y & -> & Hy1 & Hy2).
    { change (1 # 2 ^ 40)%Q with (1 # 1099511627776)%Q.
      change (1 # 2 ^ 53)%Q with (1 # 9007199254740992)%Q in Ht1. lra. }
    { change (inject_Z (2 ^ 52)) with 4503599627370496%Q.
      change (1 # 2 ^ 53)%Q with (1 # 9007199254740992)%Q in Ht2. lra. }
    change (1 # 2 ^ 53)%Q with (1 # 9007199254740992)%Q in *.
    exists y. split; [reflexivity | lra].
Qed.

Lemma scale_round_trip (b c : Z) :
  0 <= b <= 2 ^ 50 -> 1 <= c <= 2 ^ 30 ->
  JSMath.round (JS.mul (JSMath.div (JS.of_Z b) (JS.of_Z c)) (JS.of_Z c))
  = JS.Finite (inject_Z b).
Proof.
  intros Hb Hc. destruct (scale_there_and_back b c Hb Hc) as (y & -> & Hy).
  apply round_half_up_integer; lra.
Qed.

End ScaleRoundTrip.

(** X1: an integer number of basis points survives the conversion to a
    percentage and back, up to [2 ^ 50]: [percentageToBps (bpsToPercentage
    bps)] is [bps]. *)
Theorem percentageToBps_bpsToPercentage (bps : Z) :
  0 <= bps <= 2 ^ 50 ->
  percentageToBps (bpsToPercentage (JS.of_Z bps)) = JS.Finite (inject_Z bps).
Proof.
  intros H. unfold percentageToBps, bpsToPercentage.
  apply scale_round_trip; [exact H|]. split; cbv; discriminate.
Qed.

Lemma percentageToBps_bpsToPercentage_witness :
  percentageToBps (bpsToPercentage (JS.of_Z 50)) = JS.Finite (inject_Z 50).
Proof.
  apply (percentageToBps_bpsToPercentage 50). split; cbv; discriminate.
Defined.

(** X2: an integer number of lamports survives [lamportsToSol] and
    [solToLamports], up to [2 ^ 50] lamports. *)
Theorem solToLamports_lamportsToSol (lamports : Z) :
  0 <= lamports <= 2 ^ 50 ->
  solToLamports (lamportsToSol lamports) = JS.Finite (inject_Z lamports).
Proof.
  intros H. unfold solToLamports, lamportsToSol, JSMath.of_BigInt.
  change (JSMath.literal 1 9) with (JS.of_Z (10 ^ 9)).
  apply scale_round_trip; [exact H|]. split; cbv; discriminate.
Qed.

Lemma solToLamports_lamportsToSol_witness :
  solToLamports (lamportsToSol 1500000000) = JS.Finite (inject_Z 1500000000).
Proof.
  apply (solToLamports_lamportsToSol 1500000000). split; cbv; discriminate.
Defined.

(** Above [2 ^ 50] the round trip can be off by one lamport. *)
Example solToLamports_lamportsToSol_large :
  solToLamports (lamportsToSol 4450908268710232)
  = JS.Finite (inject_Z 4450908268710233).
Proof. vm_compute. reflexivity. Qed.

(** ** parseAmount *)

Section Truncation.

Lemma take_padEnd0_short (f : list ascii) (d : nat) :
  (length f <= d)%nat ->
  Str.slice0 (Str.padEnd0 f d) d = f ++ repeat "0"%char (d - length f).
Proof.
  intros H. unfold Str.slice0, Str.padEnd0.
  apply firstn_all2. rewrite length_app, repeat_length. lia.
Qed.

Lemma take_padEnd0_long (f : list ascii) (d : nat) :
  (d <= length f)%nat -> Str.slice0 (Str.padEnd0 f d) d = take d f.
Proof.
  intros H. unfold Str.slice0, Str.padEnd0.
  replace (d - length f)%nat with 0%nat by lia. cbn [repeat].
  rewrite app_nil_r. reflexivity.
Qed.

Lemma all_digits_take (n : nat) (l : list ascii) :
  Str.all_digits l = true -> Str.all_digits (take n l) = true.
Proof.
  intros H. rewrite <- (take_drop n l), all_digits_app in H.
  apply andb_true_iff in H. tauto.
Qed.

Lemma all_digits_drop (n : nat) (l : list ascii) :
  Str.all_digits l = true -> Str.all_digits (drop n l) = true.
Proof.
  intros H. rewrite <- (take_drop n l), all_digits_app in H.
  apply andb_true_iff in H. tauto.
Qed.

(** The leading [n] digits of a digit string denote the quotient of its
    value by the power of ten of the digits dropped. *)
Lemma nat_value_take (n : nat) (l : list ascii) :
  Str.all_digits l = true -> (n <= length l)%nat ->
  Str.nat_value (take n l) = Str.nat_value l / 10 ^ Z.of_nat (length l - n).
Proof.
  intros Hd Hn.
  pose proof (nat_value_app (take n l) (drop n l)) as H.
  rewrite take_drop in H. rewrite H, length_drop.
  pose proof (nat_value_bounds _ (all_digits_drop n l Hd)) as Hb.
  rewrite length_drop in Hb.
  assert (0 < 10 ^ Z.of_nat (length l - n)) by (apply Z.pow_pos_nonneg; lia).
  rewrite Z.div_add_l by lia. rewrite (Z.div_small (Str.nat_value (drop n l))) by lia.
  lia.
Qed.

Lemma parseAmount_whole (w : list ascii) (d : nat) :
  Str.all_digits w = true ->
  parseAmount (Str.pack w) d
  = BigInt.toString (Str.nat_value w * 10 ^ Z.of_nat d).
Proof.
  intros Hw. unfold parseAmount. rewrite chars_pack, (split_digits _ Hw).
  cbn [nth]. rewrite take_padEnd0_short by (cbn; lia). cbn [app length].
  rewrite Nat.sub_0_r.
  pose proof (nat_value_bounds w Hw).
  assert (0 < 10 ^ Z.of_nat d) by (apply Z.pow_pos_nonneg; lia).
  apply strip_raw.
  - rewrite all_digits_app, Hw, all_digits_repeat0. reflexivity.
  - rewrite nat_value_app, nat_value_repeat0, repeat_length. lia.
  - nia.
Qed.

Lemma parseAmount_fraction (w f : list ascii) (d : nat) :
  Str.all_digits w = true -> Str.all_digits f = true ->
  parseAmount (Str.pack (w ++ "."%char :: f)) d
  = BigInt.toString
      (Str.nat_value (w ++ f) * 10 ^ Z.of_nat d / 10 ^ Z.of_nat (length f)).
Proof.
  intros Hw Hf. unfold parseAmount.
  rewrite chars_pack, (split_digits_dot _ _ Hw Hf). cbn [nth].
  pose proof (nat_value_bounds w Hw) as Hwb.
  pose proof (nat_value_bounds f Hf) as Hfb.
  assert (Hpd : 0 < 10 ^ Z.of_nat d) by (apply Z.pow_pos_nonneg; lia).
  assert (Hpf : 0 < 10 ^ Z.of_nat (length f)) by (apply Z.pow_pos_nonneg; lia).
  rewrite (nat_value_app w f).
  destruct (Nat.le_gt_cases (length f) d) as [Hle|Hgt].
  - rewrite take_padEnd0_short by assumption.
    assert (Hsplit : 10 ^ Z.of_nat d
                     = 10 ^ Z.of_nat (d - length f) * 10 ^ Z.of_nat (length f)).
    { rewrite <- Z.pow_add_r by lia. f_equal. lia. }
    assert (0 < 10 ^ Z.of_nat (d - length f)) by (apply Z.pow_pos_nonneg; lia).
    apply strip_raw.
    + rewrite !all_digits_app, Hw, Hf, all_digits_repeat0. reflexivity.
    + rewrite !nat_value_app, nat_value_repeat0, !length_app, !repeat_length.
      rewrite Hsplit, Z.mul_assoc, Z.div_mul by lia.
      replace (Z.of_nat (length f + (d - length f))) with (Z.of_nat d) by lia.
      rewrite Hsplit. ring.
    + apply Z.div_pos; [nia | lia].
  - rewrite take_padEnd0_long by lia.
    assert (Hsplit : 10 ^ Z.of_nat (length f)
                     = 10 ^ Z.of_nat (length f - d) * 10 ^ Z.of_nat d).
    { rewrite <- Z.pow_add_r by lia. f_equal. lia. }
    assert (0 < 10 ^ Z.of_nat (length f - d)) by (apply Z.pow_pos_nonneg; lia).
    apply strip_raw.
    + rewrite all_digits_app, Hw, all_digits_take by assumption. reflexivity.
    + rewrite nat_value_app, nat_value_take, length_take by (assumption || lia).
      replace (d `min` length f)%nat with d by lia.
      rewrite Hsplit at 2. rewrite Z.div_mul_cancel_r by lia.
      rewrite Hsplit at 1.
      rewrite (Z.mul_comm (10 ^ Z.of_nat (length f - d))), Z.mul_assoc.
      rewrite Z.div_add_l by lia. reflexivity.
    + apply Z.div_pos; [nia | lia].
Qed.

End Truncation.

(** X4: [parseAmount] scales a decimal numeral by [10 ^ decimals] and cuts
    the digits that do not fit; it never rounds up. *)
Theorem parseAmount_truncates (w f : list ascii) (d : nat) :
  Str.all_digits w = true -> Str.all_digits f = true ->
  let value := Str.nat_value (w ++ f) in
  let raw := value * 10 ^ Z.of_nat d / 10 ^ Z.of_nat (length f) in
  parseAmount (Str.pack (w ++ "."%char :: f)) d = BigInt.toString raw
  /\ parseAmount (Str.pack w) d
     = BigInt.toString (Str.nat_value w * 10 ^ Z.of_nat d)
  /\ raw * 10 ^ Z.of_nat (length f) <= value * 10 ^ Z.of_nat d
  /\ value * 10 ^ Z.of_nat d < (raw + 1) * 10 ^ Z.of_nat (length f).
Proof.
  intros Hw Hf value raw.
  assert (Hpf : 0 < 10 ^ Z.of_nat (length f)) by (apply Z.pow_pos_nonneg; lia).
  split; [apply parseAmount_fraction; assumption|].
  split; [apply parseAmount_whole; assumption|].
  unfold raw.
  pose proof (Z.div_mod (value * 10 ^ Z.of_nat d) (10 ^ Z.of_nat (length f))
                ltac:(lia)) as H.
  pose proof (Z.mod_pos_bound (value * 10 ^ Z.of_nat d)
                (10 ^ Z.of_nat (length f)) Hpf) as Hm.
  split; nia.
Qed.

Lemma parseAmount_truncates_witness :
  parseAmount "1.2345678" 6 = "1234567"%string
  /\ parseAmount "12" 6 = "12000000"%string.
Proof.
  destruct (parseAmount_truncates (Str.chars "1") (Str.chars "2345678") 6
              eq_refl eq_refl) as (H1 & _).
  destruct (parseAmount_truncates (Str.chars "12") [] 6 eq_refl eq_refl)
    as (_ & H2 & _).
  split; [exact H1 | exact H2].
Defined.

(** The round trip of [formatAmount] and [parseAmount], for 1.5 units of a
    token of 6 decimals. *)
Lemma parseAmount_formatAmount_witness :
  exists s, formatAmount "1500000" 6 = Ok s /\ parseAmount s 6 = "1500000"%string.
Proof. exact (parseAmount_formatAmount 1500000 6 ltac:(lia) ltac:(lia)). Defined.

(** ** Price impact and slippage *)

Section Thresholds.

(** [x < a] is kept when [a] grows. *)
Lemma lt_le_trans (x : JS.Number) (a b : Q) :
  (a <= b)%Q -> JS.lt x (JS.Finite a) = true -> JS.lt x (JS.Finite b) = true.
Proof.
  intros Hab. destruct x as [|s|q]; cbn [JS.lt]; try trivial.
  rewrite !negb_true_iff. intros H.
  destruct (Qle_bool b q) eqn:E; [|reflexivity].
  apply Qle_bool_iff in E.
  assert (Hq : Qle_bool a q = true) by (apply Qle_bool_iff; lra).
  congruence.
Qed.

(** The thresholds of the two classifications, in increasing order. *)
Lemma thresholds :
  exists t01 t05 t1 t2 t5,
    JSMath.literal 1 (-1) = JS.Finite t01
    /\ JSMath.literal 5 (-1) = JS.Finite t05
    /\ JS.of_Z 1 = JS.Finite t1
    /\ JS.of_Z 2 = JS.Finite t2
    /\ JS.of_Z 5 = JS.Finite t5
    /\ (0 < t01)%Q /\ (t01 <= t05)%Q /\ (t05 <= t1)%Q /\ (t1 <= t2)%Q
    /\ (t2 <= t5)%Q.
Proof.
  do 5 eexists.
  split; [vm_compute; reflexivity|].
  split; [vm_compute; reflexivity|].
  split; [vm_compute; reflexivity|].
  split; [vm_compute; reflexivity|].
  split; [vm_compute; reflexivity|].
  repeat split; vm_compute; congruence.
Qed.

Lemma getRecommendedSlippage_values (priceImpactPct : string) :
  In (getRecommendedSlippage priceImpactPct) [10; 50; 100; 500].
Proof.
  unfold getRecommendedSlippage.
  repeat match goal with |- context [if ?c then _ else _] => destruct c end;
    cbn; tauto.
Qed.

Lemma getRecommendedSlippage_bounds (priceImpactPct : string) :
  10 <= getRecommendedSlippage priceImpactPct
  /\ getRecommendedSlippage priceImpactPct <= 500.
Proof.
  pose proof (getRecommendedSlippage_values priceImpactPct) as H.
  cbn in H. lia.
Qed.

End Thresholds.

(** X6: the slippage recommended for a price impact agrees with the
    severity of that impact. *)
Theorem getRecommendedSlippage_severity (priceImpactPct : string) :
  match getPriceImpactSeverity priceImpactPct with
  | low => getRecommendedSlippage priceImpactPct = 10
  | medium =>
      getRecommendedSlippage priceImpactPct = 50
      \/ getRecommendedSlippage priceImpactPct = 100
  | high =>
      getRecommendedSlippage priceImpactPct = 100
      \/ getRecommendedSlippage priceImpactPct = 500
  | very_high => getRecommendedSlippage priceImpactPct = 500
  end
  /\ (getRecommendedSlippage priceImpactPct = 10
      -> getPriceImpactSeverity priceImpactPct = low)
  /\ (JS.parseFloat priceImpactPct = JS.NaN ->
      getPriceImpactSeverity priceImpactPct = very_high
      /\ getRecommendedSlippage priceImpactPct = 500)
  /\ In (getRecommendedSlippage priceImpactPct) [10; 50; 100; 500].
Proof.
  unfold getPriceImpactSeverity, getRecommendedSlippage,
    DEFAULT_SLIPPAGE.LOW, DEFAULT_SLIPPAGE.MEDIUM, DEFAULT_SLIPPAGE.HIGH,
    DEFAULT_SLIPPAGE.VERY_HIGH.
  destruct thresholds
    as (t01 & t05 & t1 & t2 & t5 & -> & -> & -> & -> & -> & H0 & H1 & H2 & H3 & H4).
  set (impact := JS.abs (JS.parseFloat priceImpactPct)).
  assert (Hnan : JS.parseFloat priceImpactPct = JS.NaN -> impact = JS.NaN).
  { unfold impact. intros ->. reflexivity. }
  pose proof (lt_le_trans impact t01 t05 H1) as M1.
  pose proof (lt_le_trans impact t05 t1 H2) as M2.
  pose proof (lt_le_trans impact t1 t2 H3) as M3.
  pose proof (lt_le_trans impact t2 t5 H4) as M4.
  destruct (JS.lt impact (JS.Finite t01)) eqn:E01.
  { split; [reflexivity|]. split; [reflexivity|]. split; [|cbn; tauto].
    intros Hn. rewrite (Hnan Hn) in E01. discriminate. }
  destruct (JS.lt impact (JS.Finite t05)) eqn:E05.
  { rewrite (M2 eq_refl).
    split; [left; reflexivity|]. split; [discriminate|]. split; [|cbn; tauto].
    intros Hn. rewrite (Hnan Hn) in E05. discriminate. }
  destruct (JS.lt impact (JS.Finite t1)) eqn:E1.
  { rewrite (M3 eq_refl).
    split; [right; reflexivity|]. split; [discriminate|]. split; [|cbn; tauto].
    intros Hn. rewrite (Hnan Hn) in E1. discriminate. }
  destruct (JS.lt impact (JS.Finite t2)) eqn:E2.
  { rewrite (M4 eq_refl).
    split; [left; reflexivity|]. split; [discriminate|]. split; [|cbn; tauto].
    intros Hn. rewrite (Hnan Hn) in E2. discriminate. }
  destruct (JS.lt impact (JS.Finite t5)) eqn:E5.
  { split; [right; reflexivity|]. split; [discriminate|]. split; [|cbn; tauto].
    intros Hn. rewrite (Hnan Hn) in E5. discriminate. }
  split; [reflexivity|]. split; [discriminate|]. split; [|cbn; tauto].
  intros _. split; reflexivity.
Qed.

(** X7: with the recommended slippage, the minimum output is between 95%
    and 99.9% of the quoted output, and below it when it is positive. *)
Theorem calculateMinimumOutput_recommended (outAmount priceImpactPct : string) :
  Str.all_digits (Str.chars outAmount) = true ->
  let amount := Str.nat_value (Str.chars outAmount) in
  exists minAmount,
    calculateMinimumOutput outAmount (getRecommendedSlippage priceImpactPct)
    = Ok (BigInt.toString minAmount)
    /\ amount * 9500 / 10000 <= minAmount <= amount * 9990 / 10000
    /\ (0 < amount -> minAmount < amount).
Proof.
  intros Hd amount.
  pose proof (nat_value_bounds _ Hd) as Ha. fold amount in Ha.
  destruct (getRecommendedSlippage_bounds priceImpactPct) as (Hlo & Hhi).
  unfold calculateMinimumOutput.
  rewrite (of_string_digits _ Hd). cbn [rbind]. fold amount.
  unfold BigInt.div. cbn [Z.eqb rbind].
  set (s := getRecommendedSlippage priceImpactPct) in *.
  rewrite Z.quot_div_nonneg by nia.
  eexists. split; [reflexivity|].
  split; [split; apply Z.div_le_mono; nia|].
  intros Hpos. apply Z.div_lt_upper_bound; nia.
Qed.

Lemma calculateMinimumOutput_recommended_witness :
  exists minAmount,
    calculateMinimumOutput "1000000" (getRecommendedSlippage "0.3")
    = Ok (BigInt.toString minAmount)
    /\ minAmount < 1000000.
Proof.
  destruct (calculateMinimumOutput_recommended "1000000" "0.3" eq_refl)
    as (m & H1 & _ & H3).
  exists m. split; [exact H1 | apply H3; reflexivity].
Defined.

(** ** getBestRoute *)

Section BestRoute.

Variable mode : SwapMode.

Lemma better_spec (best current : JupiterQuote) (a c : Z) :
  BigInt.of_string (traded mode best) = Ok a ->
  BigInt.of_string (traded mode current) = Ok c ->
  better mode best current
  = Ok (if rank mode a <? rank mode c then current else best).
Proof.
  intros Ha Hc. unfold better, traded, rank in *.
  destruct mode; rewrite Hc, Ha; cbn [rbind].
  - reflexivity.
  - do 2 f_equal. destruct (Z.ltb_spec c a), (Z.ltb_spec (- a) (- c)); lia || reflexivity.
Qed.

(** The run of [reduce] from a best quote that stands at the index [i] of
    the quotes already seen. *)
Lemma reduce_better_spec (rest : list JupiterQuote) :
  forall (ramounts : list Z) (seen : list JupiterQuote) (samounts : list Z)
         (best : JupiterQuote) (a : Z) (i : nat),
    Forall2 (fun q v => BigInt.of_string (traded mode q) = Ok v) rest ramounts ->
    Forall2 (fun q v => BigInt.of_string (traded mode q) = Ok v) seen samounts ->
    seen !! i = Some best -> samounts !! i = Some a ->
    (forall j b, samounts !! j = Some b -> rank mode b <= rank mode a) ->
    (forall j b, (j < i)%nat -> samounts !! j = Some b ->
                 rank mode b < rank mode a) ->
    exists i' best' a',
      reduce (better mode) best rest = Ok best'
      /\ (seen ++ rest) !! i' = Some best'
      /\ (samounts ++ ramounts) !! i' = Some a'
      /\ (forall j b, (samounts ++ ramounts) !! j = Some b ->
                      rank mode b <= rank mode a')
      /\ (forall j b, (j < i')%nat -> (samounts ++ ramounts) !! j = Some b ->
                      rank mode b < rank mode a').
Proof.
  induction rest as [|current rest IH];
    intros ramounts seen samounts best a i Hrest Hseen Hi Ha Hmax Hfirst.
  - apply Forall2_nil_inv_l in Hrest as ->.
    exists i, best, a. rewrite !app_nil_r. cbn [reduce]. auto.
  - apply Forall2_cons_inv_l in Hrest as (c & ramounts' & Hc & Hrest' & ->).
    assert (Hbest : BigInt.of_string (traded mode best) = Ok a).
    { eapply Forall2_lookup_lr in Hseen; eauto. }
    cbn [reduce]. rewrite (better_spec best current a c Hbest Hc). cbn [rbind].
    pose proof (Forall2_length _ _ _ Hseen) as Hlen.
    assert (Hseen' : Forall2 (fun q v => BigInt.of_string (traded mode q) = Ok v)
                             (seen ++ [current]) (samounts ++ [c])).
    { apply Forall2_app; [assumption | constructor; [assumption | constructor]]. }
    pose proof (lookup_lt_Some _ _ _ Ha) as Hilt.
    destruct (Z.ltb_spec (rank mode a) (rank mode c)) as [Hlt|Hge].
    + destruct (IH ramounts' (seen ++ [current]) (samounts ++ [c]) current c
                   (length seen) Hrest' Hseen')
        as (i' & best' & a' & H1 & H2 & H3 & H4 & H5).
      * rewrite lookup_app_r, Nat.sub_diag by lia. reflexivity.
      * rewrite Hlen, lookup_app_r, Nat.sub_diag by lia. reflexivity.
      * intros j b Hj. apply lookup_app_Some in Hj as [Hj | [_ Hj]].
        -- specialize (Hmax j b Hj). lia.
        -- apply list_lookup_singleton_Some in Hj as [_ <-]. lia.
      * intros j b Hjlt Hj. rewrite lookup_app_l in Hj by lia.
        specialize (Hmax j b Hj). lia.
      * exists i', best', a'. rewrite <- !app_assoc in H2, H3, H4, H5.
        auto.
    + destruct (IH ramounts' (seen ++ [current]) (samounts ++ [c]) best a i
                   Hrest' Hseen')
        as (i' & best' & a' & H1 & H2 & H3 & H4 & H5).
      * rewrite lookup_app_l by (rewrite Hlen; lia). assumption.
      * rewrite lookup_app_l by lia. assumption.
      * intros j b Hj. apply lookup_app_Some in Hj as [Hj | [_ Hj]].
        -- exact (Hmax j b Hj).
        -- apply list_lookup_singleton_Some in Hj as [_ <-]. lia.
      * intros j b Hjlt Hj. rewrite lookup_app_l in Hj by lia.
        exact (Hfirst j b Hjlt Hj).
      * exists i', best', a'. rewrite <- !app_assoc in H2, H3, H4, H5.
        auto.
Qed.

Lemma getBestRoute_spec (quotes : list JupiterQuote) (amounts : list Z) :
  Forall2 (fun q v => BigInt.of_string (traded mode q) = Ok v) quotes amounts ->
  quotes <> [] ->
  exists i best a,
    getBestRoute quotes (Some mode) = Ok (Some best)
    /\ quotes !! i = Some best
    /\ amounts !! i = Some a
    /\ (forall j b, amounts !! j = Some b -> rank mode b <= rank mode a)
    /\ (forall j b, (j < i)%nat -> amounts !! j = Some b ->
                    rank mode b < rank mode a).
Proof.
  intros Hall Hne. destruct quotes as [|first rest]; [congruence|].
  apply Forall2_cons_inv_l in Hall as (a & ramounts & Ha & Hrest & ->).
  destruct (reduce_better_spec rest ramounts [first] [a] first a 0 Hrest)
    as (i & best & a' & H1 & H2 & H3 & H4 & H5).
  - constructor; [assumption | constructor].
  - reflexivity.
  - reflexivity.
  - intros j b Hj. apply list_lookup_singleton_Some in Hj as [_ <-]. lia.
  - intros j b Hj. lia.
  - exists i, best, a'. unfold getBestRoute.
    change (default ExactIn (Some mode)) with mode. rewrite H1. cbn [rbind].
    auto.
Qed.

(** A run of [reduce] that ends well has read the amount of every quote
    after the first, and of the first when there is another. *)
Lemma reduce_better_reads (rest : list JupiterQuote) :
  forall (best best' : JupiterQuote),
    reduce (better mode) best rest = Ok best' ->
    Forall (fun q => exists v, BigInt.of_string (traded mode q) = Ok v) rest
    /\ (rest <> [] -> exists v, BigInt.of_string (traded mode best) = Ok v).
Proof.
  induction rest as [|current rest IH]; intros best best' H.
  - split; [constructor | congruence].
  - cbn [reduce] in H.
    assert (Hparse : exists c a next,
               BigInt.of_string (traded mode current) = Ok c
               /\ BigInt.of_string (traded mode best) = Ok a
               /\ better mode best current = Ok next).
    { unfold better, traded in *. destruct mode;
        [destruct (BigInt.of_string (outAmount current)) as [c|] eqn:Ec;
           [|discriminate];
         destruct (BigInt.of_string (outAmount best)) as [a|] eqn:Ea;
           [|discriminate]
        |destruct (BigInt.of_string (inAmount current)) as [c|] eqn:Ec;
           [|discriminate];
         destruct (BigInt.of_string (inAmount best)) as [a|] eqn:Ea;
           [|discriminate]];
        cbn [rbind] in *; do 3 eexists; (split; [|split]); reflexivity. }
    destruct Hparse as (c & a & next & Hc & Ha & Hnext).
    rewrite Hnext in H. cbn [rbind] in H.
    destruct (IH next best' H) as (Hrest & _).
    split; [constructor; eauto | eauto].
Qed.

Lemma reduce_better_throws (rest : list JupiterQuote) :
  forall (best : JupiterQuote) (e : Thrown),
    reduce (better mode) best rest = Throw e -> e = SyntaxError.
Proof.
  induction rest as [|current rest IH]; intros best e H; [discriminate|].
  cbn [reduce] in H.
  destruct (better mode best current) as [next|e'] eqn:E; cbn [rbind] in H.
  - eauto.
  - injection H as <-. unfold better, BigInt.of_string in E.
    destruct mode;
      repeat match type of E with
             | context [match ?p with Some _ => _ | None => _ end] =>
                 destruct p; cbn [rbind] in E
             end; congruence.
Qed.

End BestRoute.

(** X8: [getBestRoute] returns the first of the quotes with the largest
    output (in mode ExactIn) or the smallest input (in mode ExactOut); no
    mode given is mode ExactIn. *)
Theorem getBestRoute_first_best (quotes : list JupiterQuote) (mode : SwapMode)
  (amounts : list Z) :
  Forall2 (fun q v => BigInt.of_string (traded mode q) = Ok v) quotes amounts ->
  quotes <> [] ->
  exists i best a,
    getBestRoute quotes (Some mode) = Ok (Some best)
    /\ quotes !! i = Some best
    /\ best ∈ quotes
    /\ amounts !! i = Some a
    /\ BigInt.of_string (traded mode best) = Ok a
    /\ (forall j b, amounts !! j = Some b -> rank mode b <= rank mode a)
    /\ (forall j b, (j < i)%nat -> amounts !! j = Some b ->
                    rank mode b < rank mode a)
    /\ (mode = ExactIn -> getBestRoute quotes None = Ok (Some best)).
Proof.
  intros Hall Hne.
  destruct (getBestRoute_spec mode quotes amounts Hall Hne)
    as (i & best & a & H1 & H2 & H3 & H4 & H5).
  exists i, best, a.
  split; [exact H1|]. split; [exact H2|].
  split; [eapply list_elem_of_lookup_2; exact H2|].
  split; [exact H3|].
  split; [exact (Forall2_lookup_lr _ _ _ _ _ _ Hall H2 H3)|].
  split; [exact H4|]. split; [exact H5|].
  intros ->. exact H1.
Qed.

Lemma getBestRoute_first_best_witness :
  getBestRoute [sample_quote ExactIn "10" "7" "0" [];
                sample_quote ExactIn "10" "9" "0" [];
                sample_quote ExactIn "11" "9" "0" []] (Some ExactIn)
  = Ok (Some (sample_quote ExactIn "10" "9" "0" [])).
Proof.
  destruct (getBestRoute_first_best
              [sample_quote ExactIn "10" "7" "0" [];
               sample_quote ExactIn "10" "9" "0" [];
               sample_quote ExactIn "11" "9" "0" []] ExactIn [7; 9; 9])
    as (i & best & a & H1 & H2 & _ & H3 & _ & H4 & H5 & _).
  - repeat constructor.
  - discriminate.
  - rewrite H1. do 2 f_equal.
    destruct i as [|[|[|i]]]; cbn in H2, H3.
    + specialize (H4 1%nat 9 eq_refl). injection H3 as <-. cbn in H4. lia.
    + congruence.
    + specialize (H5 1%nat 9 ltac:(lia) eq_refl). injection H3 as <-.
      cbn in H5. lia.
    + discriminate.
Defined.

(** X9: no quote of the list beats the one that [getBestRoute] returns,
    by [compareQuotes], when the quotes are of the mode asked for. *)
Theorem getBestRoute_compareQuotes (quotes : list JupiterQuote) (mode : SwapMode)
  (best : JupiterQuote) :
  Forall (fun q => swapMode q = mode) quotes ->
  Forall (fun q => exists v, BigInt.of_string (inAmount q) = Ok v) quotes ->
  Forall (fun q => exists v, BigInt.of_string (outAmount q) = Ok v) quotes ->
  getBestRoute quotes (Some mode) = Ok (Some best) ->
  forall q, q ∈ quotes ->
    compareQuotes best q = Ok 1 \/ compareQuotes best q = Ok 0.
Proof.
  intros Hmode Hin Hout Hbest q Hq.
  assert (Hall : exists amounts,
             Forall2 (fun q v => BigInt.of_string (traded mode q) = Ok v)
                     quotes amounts).
  { clear -Hin Hout. induction quotes as [|q quotes IH].
    - exists []. constructor.
    - apply Forall_cons in Hin as ((vi & Hi) & Hin).
      apply Forall_cons in Hout as ((vo & Ho) & Hout).
      destruct (IH Hin Hout) as (amounts & IH').
      exists ((match mode with ExactIn => vo | ExactOut => vi end) :: amounts).
      constructor; [destruct mode; assumption | assumption]. }
  destruct Hall as (amounts & Hall).
  assert (Hne : quotes <> []) by (intros ->; inversion Hq).
  destruct (getBestRoute_spec mode quotes amounts Hall Hne)
    as (i & best' & a & H1 & H2 & H3 & H4 & _).
  rewrite H1 in Hbest. injection Hbest as ->.
  apply list_elem_of_lookup in Hq as (j & Hj).
  destruct (Forall2_lookup_l _ _ _ _ _ Hall Hj) as (b & Hb & Hqb).
  pose proof (Forall2_lookup_lr _ _ _ _ _ _ Hall H2 H3) as Hba.
  cbn beta in Hba.
  specialize (H4 j b Hb).
  assert (Hm : swapMode best = mode).
  { rewrite Forall_forall in Hmode. apply Hmode.
    eapply list_elem_of_lookup_2; eauto. }
  unfold compareQuotes. rewrite Hm. unfold traded, rank in *.
  destruct mode; rewrite Hba, Hqb; cbn [rbind].
  - destruct (Z.ltb_spec b a); [left; reflexivity|].
    destruct (Z.ltb_spec a b); [lia | right; reflexivity].
  - destruct (Z.ltb_spec a b); [left; reflexivity|].
    destruct (Z.ltb_spec b a); [lia | right; reflexivity].
Qed.

Lemma getBestRoute_compareQuotes_witness :
  compareQuotes (sample_quote ExactOut "10" "9" "0" [])
                (sample_quote ExactOut "12" "9" "0" []) = Ok 1
  \/ compareQuotes (sample_quote ExactOut "10" "9" "0" [])
                   (sample_quote ExactOut "12" "9" "0" []) = Ok 0.
Proof.
  apply (getBestRoute_compareQuotes
           [sample_quote ExactOut "12" "9" "0" [];
            sample_quote ExactOut "10" "9" "0" []] ExactOut).
  - repeat constructor.
  - repeat constructor; eexists; reflexivity.
  - repeat constructor; eexists; reflexivity.
  - reflexivity.
  - apply list_elem_of_here.
Defined.

(** X10: [getBestRoute] gives [null] for no quote and the quote itself for
    a single one, whatever its amounts; with two quotes or more, an amount
    that is no integer literal makes it throw a [SyntaxError]. *)
Theorem getBestRoute_edges (mode : option SwapMode) :
  getBestRoute [] mode = Ok None
  /\ (forall q, getBestRoute [q] mode = Ok (Some q))
  /\ (forall quotes, getBestRoute quotes mode = Ok None -> quotes = [])
  /\ (forall quotes q,
        (2 <= length quotes)%nat -> q ∈ quotes ->
        (forall v, BigInt.of_string (traded (default ExactIn mode) q) <> Ok v) ->
        getBestRoute quotes mode = Throw SyntaxError).
Proof.
  split; [reflexivity|]. split; [reflexivity|]. split.
  - intros [|first rest]; [reflexivity|]. cbn [getBestRoute].
    destruct (reduce _ first rest); discriminate.
  - intros [|first [|second rest]] q Hlen Hq Hbad; cbn [length] in Hlen; try lia.
    unfold getBestRoute.
    destruct (reduce (better (default ExactIn mode)) first (second :: rest))
      as [best|e] eqn:E; cbn [rbind].
    + exfalso.
      destruct (reduce_better_reads _ _ _ _ E) as (Hrest & Hfirst).
      apply elem_of_cons in Hq as [-> | Hq].
      * destruct (Hfirst ltac:(discriminate)) as (v & Hv). exact (Hbad v Hv).
      * rewrite Forall_forall in Hrest.
        destruct (Hrest q Hq) as (v & Hv).
        exact (Hbad v Hv).
    + f_equal. eapply reduce_better_throws; eauto.
Qed.

(** ** Route fees *)

Section RouteFees.

Lemma fee_value_parsed (step : RoutePlanStep) (fee : Z) :
  BigInt.of_string (feeAmount step) = Ok fee -> fee_value step = fee.
Proof. unfold fee_value. intros ->. reflexivity. Qed.

Lemma sum_fees_cons (step : RoutePlanStep) (steps : list RoutePlanStep) :
  sum_fees (step :: steps) = fee_value step + sum_fees steps.
Proof. reflexivity. Qed.

Lemma sum_fees_nonneg (steps : list RoutePlanStep) :
  Forall (fun step => 0 <= fee_value step) steps -> 0 <= sum_fees steps.
Proof.
  induction 1 as [|step steps H _ IH]; [reflexivity|].
  rewrite sum_fees_cons. lia.
Qed.

Lemma totalFee_loop_spec (steps : list RoutePlanStep) :
  forall totalFee,
    Forall (fun step => exists fee, BigInt.of_string (feeAmount step) = Ok fee)
           steps ->
    totalFee_loop totalFee steps = Ok (totalFee + sum_fees steps).
Proof.
  induction steps as [|step steps IH]; intros totalFee H.
  - cbn. f_equal. unfold sum_fees. cbn. lia.
  - apply Forall_cons in H as ((fee & Hfee) & H).
    cbn [totalFee_loop]. rewrite Hfee. cbn [rbind].
    rewrite (IH _ H), sum_fees_cons, (fee_value_parsed _ _ Hfee).
    f_equal. lia.
Qed.

(** The fees that [getRouteSummary] has added up for a mint after a run
    of its loop. *)
Lemma summary_loop_fees (steps : list RoutePlanStep) :
  forall (acc acc' : SummaryAcc) (mint : string),
    summary_loop acc steps = Ok acc' ->
    acc_fees acc' !! mint
    = match filter (fun step => feeMint step = mint) steps with
      | [] => acc_fees acc !! mint
      | paid => Some (default 0 (acc_fees acc !! mint) + sum_fees paid)
      end.
Proof.
  induction steps as [|step steps IH]; intros acc acc' mint H.
  - cbn in H. injection H as <-. reflexivity.
  - cbn [summary_loop] in H. unfold summary_step in H.
    destruct (BigInt.of_string (feeAmount step)) as [fee|] eqn:Hfee;
      [|discriminate].
    cbn [rbind] in H. rewrite (IH _ _ mint H). cbn [acc_fees].
    rewrite filter_cons. destruct (decide (feeMint step = mint)) as [->|Hne].
    + rewrite lookup_insert_eq. cbn [default from_option id].
      rewrite sum_fees_cons, (fee_value_parsed _ _ Hfee).
      destruct (filter _ steps) as [|s paid].
      * f_equal. unfold sum_fees. cbn. lia.
      * f_equal. lia.
    + rewrite lookup_insert_ne by assumption. reflexivity.
Qed.

End RouteFees.

(** X11: the fee map of [getRouteSummary] holds, for each fee mint of the
    route plan, the sum of the fees of the steps paid in that mint, and
    nothing for any other mint. *)
Theorem getRouteSummary_totalFees (quote : JupiterQuote) (summary : RouteSummary) :
  getRouteSummary quote = Ok summary ->
  forall mint,
    totalFees summary !! mint
    = match filter (fun step => feeMint step = mint) (routePlan quote) with
      | [] => None
      | paid => Some (sum_fees paid)
      end.
Proof.
  intros H mint. unfold getRouteSummary in H.
  destruct (summary_loop _ (routePlan quote)) as [acc|] eqn:E; [|discriminate].
  cbn [rbind] in H. injection H as <-. cbn [totalFees].
  rewrite (summary_loop_fees _ _ _ mint E). cbn [acc_fees].
  rewrite lookup_empty. cbn [default from_option id].
  destruct (filter _ (routePlan quote)); [reflexivity | f_equal; lia].
Qed.

Lemma getRouteSummary_totalFees_witness :
  exists summary,
    getRouteSummary split_quote = Ok summary
    /\ totalFees summary !! "SOL"%string = Some 20
    /\ totalFees summary !! "USDC"%string = None.
Proof.
  eexists. split; [reflexivity|].
  split.
  - exact (getRouteSummary_totalFees split_quote _ eq_refl "SOL"%string).
  - exact (getRouteSummary_totalFees split_quote _ eq_refl "USDC"%string).
Defined.

(** X12: [calculateRouteFees] prints the sum of the fees with exactly
    [feeDecimals] digits after the point (one digit, for no decimals), and
    [parseAmount] reads the sum back from it. *)
Theorem calculateRouteFees_parseAmount (quote : JupiterQuote) (d : nat) :
  Forall (fun step => exists fee,
            BigInt.of_string (feeAmount step) = Ok fee /\ 0 <= fee)
         (routePlan quote) ->
  (d <= 22)%nat ->
  let total := sum_fees (routePlan quote) in
  exists w f,
    calculateRouteFees quote (Some d) = Ok (Str.pack (w ++ "."%char :: f))
    /\ Str.all_digits w = true /\ Str.all_digits f = true
    /\ length f = Nat.max d 1
    /\ Str.nat_value w = total / 10 ^ Z.of_nat d
    /\ Str.nat_value f = total mod 10 ^ Z.of_nat d
    /\ parseAmount (Str.pack (w ++ "."%char :: f)) d = BigInt.toString total.
Proof.
  intros Hfees Hd total.
  assert (Hparse : Forall (fun step => exists fee,
                             BigInt.of_string (feeAmount step) = Ok fee)
                          (routePlan quote)).
  { eapply Forall_impl; [exact Hfees|]. intros step (fee & H & _). eauto. }
  assert (Htotal : 0 <= total).
  { apply sum_fees_nonneg. eapply Forall_impl; [exact Hfees|].
    intros step (fee & H & Hpos). rewrite (fee_value_parsed _ _ H). exact Hpos. }
  assert (Hp : 0 < 10 ^ Z.of_nat d) by (apply Z.pow_pos_nonneg; lia).
  unfold calculateRouteFees. cbn [default from_option id].
  rewrite (totalFee_loop_spec _ 0 Hparse), (pow10_exact d Hd). cbn [rbind].
  rewrite Z.add_0_l. fold total.
  unfold BigInt.div, BigInt.rem.
  destruct (Z.eqb_spec (10 ^ Z.of_nat d) 0); [lia|]. cbn [rbind].
  rewrite Z.quot_div_nonneg, Z.rem_mod_nonneg by lia.
  pose proof (Z.mod_pos_bound total (10 ^ Z.of_nat d) Hp) as Hf.
  pose proof (Z.div_mod total (10 ^ Z.of_nat d) ltac:(lia)) as Hdm.
  assert (Hw : 0 <= total / 10 ^ Z.of_nat d) by (apply Z.div_pos; lia).
  rewrite !to_chars_nonneg by lia.
  destruct (decimal_spec _ Hw) as (Hwd & Hwv & _).
  destruct (decimal_spec (total mod 10 ^ Z.of_nat d) ltac:(lia))
    as (Hfd & Hfv & Hfne).
  assert (Hlen : (length (BigInt.decimal (total mod 10 ^ Z.of_nat d))
                  <= Nat.max d 1)%nat).
  { destruct (Z.eq_dec (total mod 10 ^ Z.of_nat d) 0) as [E|E].
    - rewrite E. change (BigInt.decimal 0) with ["0"%char]. cbn [length]. lia.
    - pose proof (decimal_length (total mod 10 ^ Z.of_nat d) d ltac:(lia)). lia. }
  assert (Hlen1 : (1 <= length (BigInt.decimal (total mod 10 ^ Z.of_nat d)))%nat).
  { destruct (BigInt.decimal (total mod 10 ^ Z.of_nat d)); [congruence|].
    cbn [length]. lia. }
  set (f := Str.padStart0 (BigInt.decimal (total mod 10 ^ Z.of_nat d)) d).
  assert (Hfs : Str.all_digits f = true).
  { unfold f, Str.padStart0. rewrite all_digits_app, all_digits_repeat0, Hfd.
    reflexivity. }
  assert (Hfv' : Str.nat_value f = total mod 10 ^ Z.of_nat d).
  { unfold f, Str.padStart0. rewrite nat_value_app, nat_value_repeat0, Hfv. lia. }
  assert (Hfl : length f = Nat.max d 1).
  { unfold f, Str.padStart0. rewrite length_app, repeat_length. lia. }
  exists (BigInt.decimal (total / 10 ^ Z.of_nat d)), f.
  split; [reflexivity|]. split; [exact Hwd|]. split; [exact Hfs|].
  split; [exact Hfl|]. split; [exact Hwv|]. split; [exact Hfv'|].
  rewrite (parseAmount_fraction _ _ d Hwd Hfs).
  rewrite nat_value_app, Hwv, Hfv', Hfl. f_equal.
  destruct d as [|d'].
  - change (Z.of_nat 0) with 0 in *. change (Nat.max 0 1) with 1%nat.
    rewrite Z.pow_0_r in *. rewrite Z.mul_1_r.
    rewrite Z.mod_1_r, Z.add_0_r, Z.div_1_r.
    rewrite Z.div_mul by (cbv; discriminate). reflexivity.
  - replace (Nat.max (S d') 1) with (S d') by lia.
    rewrite Z.div_mul by lia. lia.
Qed.

Lemma calculateRouteFees_parseAmount_witness :
  calculateRouteFees split_quote (Some 6%nat) = Ok "0.000020"%string
  /\ parseAmount "0.000020" 6 = "20"%string.
Proof.
  destruct (calculateRouteFees_parseAmount split_quote 6)
    as (w & f & H1 & _ & _ & _ & _ & _ & H2).
  - repeat constructor; eexists; (split; [reflexivity | cbv; discriminate]).
  - lia.
  - assert (E : calculateRouteFees split_quote (Some 6%nat)
                = Ok "0.000020"%string) by reflexivity.
    rewrite E in H1. injection H1 as H1. rewrite <- H1 in H2.
    split; [exact E | exact H2].
Defined.

(** ** Tokens and DEXes of a route *)

Section Tokens.

Lemma set_add_elem (x y : string) (l : list string) :
  y ∈ set_add x l <-> y = x \/ y ∈ l.
Proof.
  unfold set_add. destruct (bool_decide_reflect (x ∈ l)) as [Hin|Hout].
  - split; [tauto | intros [-> | H]; assumption].
  - rewrite elem_of_app, list_elem_of_singleton. tauto.
Qed.

Lemma set_add_NoDup (x : string) (l : list string) :
  NoDup l -> NoDup (set_add x l).
Proof.
  intros H. unfold set_add. destruct (bool_decide_reflect (x ∈ l)) as [Hin|Hout].
  - assumption.
  - apply NoDup_app. split; [assumption|]. split.
    + intros y Hy Hx. apply list_elem_of_singleton in Hx as ->. contradiction.
    + apply NoDup_singleton.
Qed.

(** [path] and [seen] of [simplifyRoutePath] hold the same strings in the
    same order. *)
Lemma path_add_same (x : string) (l : list string) :
  path_add x (l, l) = (set_add x l, set_add x l).
Proof.
  unfold path_add, set_add. destruct (bool_decide (x ∈ l)); reflexivity.
Qed.

Lemma simplifyRoutePath_fold (steps : list RoutePlanStep) :
  forall l,
    fold_left
      (fun st step =>
         path_add (step_outputMint step) (path_add (step_inputMint step) st))
      steps (l, l)
    = (tokens_from l steps, tokens_from l steps).
Proof.
  induction steps as [|step steps IH]; intros l; [reflexivity|].
  cbn [fold_left]. rewrite !path_add_same, IH. reflexivity.
Qed.

Lemma simplifyRoutePath_tokens (steps : list RoutePlanStep) :
  simplifyRoutePath steps = tokens_from [] steps.
Proof. unfold simplifyRoutePath. rewrite simplifyRoutePath_fold. reflexivity. Qed.

Lemma summary_loop_tokens (steps : list RoutePlanStep) :
  forall acc acc',
    summary_loop acc steps = Ok acc' ->
    acc_tokens acc' = tokens_from (acc_tokens acc) steps.
Proof.
  induction steps as [|step steps IH]; intros acc acc' H.
  - cbn in H. injection H as <-. reflexivity.
  - cbn [summary_loop] in H. unfold summary_step in H.
    destruct (BigInt.of_string (feeAmount step)); [|discriminate].
    cbn [rbind] in H. rewrite (IH _ _ H). reflexivity.
Qed.

Lemma tokens_from_NoDup (steps : list RoutePlanStep) :
  forall l, NoDup l -> NoDup (tokens_from l steps).
Proof.
  induction steps as [|step steps IH]; intros l H; [assumption|].
  apply IH. do 2 apply set_add_NoDup. assumption.
Qed.

Lemma tokens_from_elem (steps : list RoutePlanStep) :
  forall l x,
    x ∈ tokens_from l steps
    <-> x ∈ l \/ exists step, step ∈ steps
                              /\ (x = step_inputMint step
                                  \/ x = step_outputMint step).
Proof.
  induction steps as [|step steps IH]; intros l x.
  - cbn. split; [tauto|]. intros [H | (step & H & _)]; [assumption|].
    inversion H.
  - change (tokens_from l (step :: steps))
      with (tokens_from (set_add (step_outputMint step)
                                 (set_add (step_inputMint step) l)) steps).
    rewrite IH, !set_add_elem. split.
    + intros [[-> | [-> | H]] | (s & Hs & Hx)].
      * right. exists step. split; [apply list_elem_of_here | tauto].
      * right. exists step. split; [apply list_elem_of_here | tauto].
      * tauto.
      * right. exists s. split; [apply list_elem_of_further; assumption | tauto].
    + intros [H | (s & Hs & Hx)]; [tauto|].
      apply elem_of_cons in Hs as [-> | Hs]; [tauto|].
      right. exists s. tauto.
Qed.

(** The tokens keep the order in which they were first met. *)
Lemma tokens_from_prefix (steps : list RoutePlanStep) :
  forall l, exists more, tokens_from l steps = l ++ more.
Proof.
  induction steps as [|step steps IH]; intros l.
  - exists []. rewrite app_nil_r. reflexivity.
  - destruct (IH (set_add (step_outputMint step)
                          (set_add (step_inputMint step) l))) as (more & H).
    change (tokens_from l (step :: steps))
      with (tokens_from (set_add (step_outputMint step)
                                 (set_add (step_inputMint step) l)) steps).
    rewrite H. unfold set_add.
    repeat match goal with
           | |- context [bool_decide ?P] => destruct (bool_decide P)
           end; rewrite <- ?app_assoc; eauto.
Qed.

Lemma summary_loop_dexes (steps : list RoutePlanStep) :
  forall acc acc',
    summary_loop acc steps = Ok acc' ->
    (NoDup (acc_dexes acc) -> NoDup (acc_dexes acc'))
    /\ forall x,
         x ∈ acc_dexes acc'
         <-> x ∈ acc_dexes acc
             \/ x ∈ omap (fun step => if truthy (label step) then label step
                                      else None) steps.
Proof.
  induction steps as [|step steps IH]; intros acc acc' H.
  - cbn in H. injection H as <-. split; [tauto|]. intros x. cbn.
    rewrite elem_of_nil. tauto.
  - cbn [summary_loop] in H. unfold summary_step in H.
    destruct (BigInt.of_string (feeAmount step)); [|discriminate].
    cbn [rbind] in H. destruct (IH _ _ H) as (Hnd & Hel). cbn [acc_dexes] in *.
    split.
    + intros Hacc. apply Hnd. destruct (truthy (label step));
        [apply set_add_NoDup|]; assumption.
    + intros x. rewrite Hel. cbn [omap list_omap].
      destruct (label step) as [dex|] eqn:El; cbn [truthy default from_option id].
      * destruct (negb (String.eqb dex "")) eqn:Et.
        -- rewrite set_add_elem, elem_of_cons. tauto.
        -- tauto.
      * tauto.
Qed.

Lemma omap_length_le {A B} (f : A -> option B) (l : list A) :
  (length (omap f l) <= length l)%nat.
Proof.
  induction l as [|x l IH]; [reflexivity|].
  cbn [omap list_omap length]. destruct (f x); cbn [length]; lia.
Qed.

End Tokens.

(** X13: [simplifyRoutePath] of the route plan of a quote is the token list
    of its summary. *)
Theorem simplifyRoutePath_uniqueTokens (quote : JupiterQuote)
  (summary : RouteSummary) :
  getRouteSummary quote = Ok summary ->
  simplifyRoutePath (routePlan quote) = uniqueTokens summary.
Proof.
  intros H. unfold getRouteSummary in H.
  destruct (summary_loop _ (routePlan quote)) as [acc|] eqn:E; [|discriminate].
  cbn [rbind] in H. injection H as <-. cbn [uniqueTokens].
  rewrite (summary_loop_tokens _ _ _ E), simplifyRoutePath_tokens. reflexivity.
Qed.

Lemma simplifyRoutePath_uniqueTokens_witness :
  exists summary,
    getRouteSummary two_hop_quote = Ok summary
    /\ simplifyRoutePath (routePlan two_hop_quote) = uniqueTokens summary.
Proof.
  eexists. split; [reflexivity|].
  exact (simplifyRoutePath_uniqueTokens two_hop_quote _ eq_refl).
Defined.

(** X14: the path of [simplifyRoutePath] has no token twice, holds exactly
    the input and output mints of the steps, and starts with the input
    mint of the first step. *)
Theorem simplifyRoutePath_path (routePlan : list RoutePlanStep) :
  NoDup (simplifyRoutePath routePlan)
  /\ (forall x,
        x ∈ simplifyRoutePath routePlan
        <-> exists step, step ∈ routePlan
                         /\ (x = step_inputMint step \/ x = step_outputMint step))
  /\ (forall first rest,
        routePlan = first :: rest ->
        head (simplifyRoutePath routePlan) = Some (step_inputMint first)).
Proof.
  rewrite simplifyRoutePath_tokens. split; [|split].
  - apply tokens_from_NoDup, NoDup_nil_2.
  - intros x. rewrite tokens_from_elem, elem_of_nil. tauto.
  - intros first rest ->.
    change (tokens_from [] (first :: rest))
      with (tokens_from (set_add (step_outputMint first)
                                 [step_inputMint first]) rest).
    destruct (tokens_from_prefix rest (set_add (step_outputMint first)
                                               [step_inputMint first]))
      as (more & ->).
    unfold set_add. destruct (bool_decide _); reflexivity.
Qed.

(** X15: the DEX list of a summary has no DEX twice and holds exactly the
    non-empty labels of the route plan, the DEXes that [filterRoutes]
    matches against. *)
Theorem getRouteSummary_dexesUsed (quote : JupiterQuote) (summary : RouteSummary) :
  getRouteSummary quote = Ok summary ->
  NoDup (dexesUsed summary)
  /\ (forall dex, dex ∈ dexesUsed summary <-> dex ∈ routeDexes quote)
  /\ (length (dexesUsed summary) <= totalHops summary)%nat.
Proof.
  intros H. unfold getRouteSummary in H.
  destruct (summary_loop _ (routePlan quote)) as [acc|] eqn:E; [|discriminate].
  cbn [rbind] in H. injection H as <-. cbn [dexesUsed totalHops].
  destruct (summary_loop_dexes _ _ _ E) as (Hnd & Hel). cbn [acc_dexes] in *.
  assert (Hnd' : NoDup (acc_dexes acc)) by (apply Hnd, NoDup_nil_2).
  assert (Hel' : forall dex, dex ∈ acc_dexes acc <-> dex ∈ routeDexes quote).
  { intros dex. rewrite Hel, elem_of_nil. unfold routeDexes. tauto. }
  split; [exact Hnd'|]. split; [exact Hel'|].
  transitivity (length (routeDexes quote)).
  - apply submseteq_length, NoDup_submseteq; [exact Hnd'|].
    intros dex. apply Hel'.
  - unfold routeDexes. apply omap_length_le.
Qed.

Lemma getRouteSummary_dexesUsed_witness :
  exists summary,
    getRouteSummary split_quote = Ok summary
    /\ NoDup (dexesUsed summary)
    /\ ("Orca"%string ∈ dexesUsed summary <-> "Orca"%string ∈ routeDexes split_quote).
Proof.
  eexists. split; [reflexivity|].
  destruct (getRouteSummary_dexesUsed split_quote _ eq_refl) as (H1 & H2 & _).
  split; [exact H1 | exact (H2 "Orca"%string)].
Defined.

(** ** The largest hop *)

Section LargestHop.

Lemma hop_label_truthy (step : RoutePlanStep) :
  truthy (Some (hop_label step)) = true.
Proof.
  unfold hop_label. destruct (label step) as [l|]; cbn [truthy default from_option id].
  - destruct (negb (String.eqb l "")) eqn:E; [exact E | reflexivity].
  - reflexivity.
Qed.

(** The largest hop after a run of the loop of [analyzeRouteEfficiency]
    over [rest], the steps [seen] having been read before. *)
Lemma efficiency_loop_largest (rest : list RoutePlanStep) :
  forall (seen : list RoutePlanStep) (hops : gmap string HopShare)
         (largest : option (string * Z)),
    match largest with
    | None => seen = []
    | Some (l, p) =>
        exists i step,
          seen !! i = Some step /\ hop_label step = l /\ percent step = p
          /\ (forall j s, seen !! j = Some s -> percent s <= p)
          /\ (forall j s, (j < i)%nat -> seen !! j = Some s -> percent s < p)
    end ->
    match snd (fold_left efficiency_step rest (hops, largest)) with
    | None => seen ++ rest = []
    | Some (l, p) =>
        exists i step,
          (seen ++ rest) !! i = Some step /\ hop_label step = l
          /\ percent step = p
          /\ (forall j s, (seen ++ rest) !! j = Some s -> percent s <= p)
          /\ (forall j s, (j < i)%nat -> (seen ++ rest) !! j = Some s ->
                          percent s < p)
    end.
Proof.
  induction rest as [|step rest IH]; intros seen hops largest H.
  - cbn [fold_left snd]. rewrite app_nil_r. exact H.
  - cbn [fold_left]. unfold efficiency_step at 2.
    replace (seen ++ step :: rest) with ((seen ++ [step]) ++ rest)
      by (rewrite <- app_assoc; reflexivity).
    destruct largest as [[l p]|].
    + destruct H as (i & best & Hi & Hl & Hp & Hmax & Hfirst).
      pose proof (lookup_lt_Some _ _ _ Hi) as Hilt.
      destruct (Z.ltb_spec p (percent step)) as [Hlt|Hge]; apply IH.
      * exists (length seen), step.
        rewrite lookup_app_r, Nat.sub_diag by lia.
        split; [reflexivity|]. split; [reflexivity|]. split; [reflexivity|].
        split.
        -- intros j s Hj. apply lookup_app_Some in Hj as [Hj | [_ Hj]].
           ++ specialize (Hmax j s Hj). lia.
           ++ apply list_lookup_singleton_Some in Hj as [_ <-]. lia.
        -- intros j s Hjlt Hj. rewrite lookup_app_l in Hj by lia.
           specialize (Hmax j s Hj). lia.
      * exists i, best. rewrite lookup_app_l by lia.
        split; [assumption|]. split; [assumption|]. split; [assumption|].
        split.
        -- intros j s Hj. apply lookup_app_Some in Hj as [Hj | [_ Hj]].
           ++ exact (Hmax j s Hj).
           ++ apply list_lookup_singleton_Some in Hj as [_ <-]. lia.
        -- intros j s Hjlt Hj. rewrite lookup_app_l in Hj by lia.
           exact (Hfirst j s Hjlt Hj).
    + subst seen. apply IH. exists 0%nat, step. cbn.
      split; [reflexivity|]. split; [reflexivity|]. split; [reflexivity|].
      split.
      * intros [|j] s Hj; cbn in Hj; [injection Hj as <-; lia | discriminate].
      * intros j s Hj. lia.
Qed.

End LargestHop.

(** X16: the largest hop of [analyzeRouteEfficiency] is the label of the
    first step that carries the largest percentage; there is none only
    for an empty route plan. *)
Theorem analyzeRouteEfficiency_largestHop (quote : JupiterQuote) :
  match largestHop (analyzeRouteEfficiency quote) with
  | None => routePlan quote = []
  | Some l =>
      exists i step,
        routePlan quote !! i = Some step
        /\ l = hop_label step
        /\ (forall j s, routePlan quote !! j = Some s ->
                        percent s <= percent step)
        /\ (forall j s, (j < i)%nat -> routePlan quote !! j = Some s ->
                        percent s < percent step)
  end.
Proof.
  unfold analyzeRouteEfficiency.
  pose proof (efficiency_loop_largest (routePlan quote) [] ∅ None eq_refl) as H.
  cbn [app] in H.
  destruct (fold_left efficiency_step (routePlan quote) (∅, None))
    as [hops [[l p]|]]; cbn [snd largestHop] in *.
  - destruct H as (i & step & Hi & Hl & Hp & Hmax & Hfirst).
    rewrite <- Hl, hop_label_truthy.
    exists i, step. rewrite Hp. auto.
  - exact H.
Qed.

(** ** filterRoutes, continued *)

Section Filter.


(** What a quote that passes has gone through, criterion by criterion. *)
Lemma passes_inv (criteria : FilterCriteria) (quote : JupiterQuote) :
  passes criteria quote = true ->
  match maxPriceImpact criteria with
  | Some limit =>
      JS.gt (JS.abs (JS.parseFloat (priceImpactPct quote))) limit = false
  | None => True
  end
  /\ match maxHops criteria with
     | Some limit => Z.of_nat (length (routePlan quote)) <= limit
     | None => True
     end
  /\ (directOnly criteria = Some true -> (length (routePlan quote) <= 1)%nat)
  /\ match dex_list (includeDexes criteria) with
     | Some wanted => some_in (routeDexes quote) wanted = true
     | None => True
     end
  /\ match dex_list (excludeDexes criteria) with
     | Some unwanted => some_in (routeDexes quote) unwanted = false
     | None => True
     end.
Proof.
  unfold passes. intros H.
  match type of H with (if ?c then _ else _) = _ => destruct c eqn:E1 end;
    [discriminate|].
  match type of H with (if ?c then _ else _) = _ => destruct c eqn:E2 end;
    [discriminate|].
  match type of H with (if ?c then _ else _) = _ => destruct c eqn:E3 end;
    [discriminate|].
  match type of H with (if ?c then _ else _) = _ => destruct c eqn:E4 end;
    [discriminate|].
  match type of H with (if ?c then _ else _) = _ => destruct c eqn:E5 end;
    [discriminate|].
  split. { destruct (maxPriceImpact criteria); [exact E1 | exact I]. }
  split. { destruct (maxHops criteria); [apply Z.ltb_ge; exact E2 | exact I]. }
  split.
  { intros Hd. rewrite Hd in E3. cbn [default from_option id andb] in E3.
    apply Nat.ltb_ge in E3. exact E3. }
  split.
  { destruct (dex_list (includeDexes criteria));
      [apply negb_false_iff; exact E4 | exact I]. }
  destruct (dex_list (excludeDexes criteria)); [exact E5 | exact I].
Qed.


End Filter.



(** X18: a DEX list given both as the DEXes to include and as the DEXes to
    exclude leaves no quote. *)
Theorem filterRoutes_include_exclude_same (quotes : list JupiterQuote)
  (criteria : FilterCriteria) (dexes : list string) :
  includeDexes criteria = Some dexes ->
  excludeDexes criteria = Some dexes ->
  dexes <> [] ->
  filterRoutes quotes criteria = [].
Proof.
  intros Hinc Hexc Hne. unfold filterRoutes.
  induction quotes as [|q quotes IH]; [reflexivity|].
  cbn [List.filter]. rewrite IH.
  destruct (passes criteria q) eqn:E; [|reflexivity].
  destruct (passes_inv _ _ E) as (_ & _ & _ & H1 & H2).
  rewrite Hinc in H1. rewrite Hexc in H2.
  destruct dexes as [|d ds]; [congruence|]. cbn [dex_list] in H1, H2.
  congruence.
Qed.

Lemma filterRoutes_include_exclude_same_witness :
  filterRoutes [split_quote; two_hop_quote]
               {| maxPriceImpact := None; maxHops := None;
                  includeDexes := Some ["Orca"%string];
                  excludeDexes := Some ["Orca"%string]; directOnly := None |}
  = [].
Proof.
  apply (filterRoutes_include_exclude_same _ _ ["Orca"%string]);
    [reflexivity | reflexivity | discriminate].
Defined.

(** X19: a quote whose price impact is not a number is never rejected by
    [maxPriceImpact], and a limit that is not a number rejects nothing. *)
Theorem filterRoutes_unparsable_impact (quotes : list JupiterQuote)
  (limit : JS.Number) :
  let criteria := {| maxPriceImpact := Some limit; maxHops := None;
                     includeDexes := None; excludeDexes := None;
                     directOnly := None |} in
  (forall quote,
     quote ∈ quotes -> JS.parseFloat (priceImpactPct quote) = JS.NaN ->
     quote ∈ filterRoutes quotes criteria)
  /\ (limit = JS.NaN -> filterRoutes quotes criteria = quotes).
Proof.
  intros criteria. split.
  - intros quote Hin Hnan. unfold filterRoutes.
    apply list_elem_of_In, filter_In. split; [apply list_elem_of_In; exact Hin|].
    unfold passes, criteria. cbn. rewrite Hnan. destruct limit; reflexivity.
  - intros ->. unfold filterRoutes.
    induction quotes as [|q quotes IH]; [reflexivity|].
    cbn [List.filter]. rewrite IH.
    replace (passes criteria q) with true; [reflexivity|].
    unfold passes, criteria. cbn.
    destruct (JS.abs (JS.parseFloat (priceImpactPct q))); reflexivity.
Qed.

(** X20: criteria that are absent, false or empty lists filter nothing, and
    [maxHops] of one keeps what [directOnly] keeps. *)
Theorem filterRoutes_vacuous_criteria (quotes : list JupiterQuote) :
  (forall include exclude direct,
     include = None \/ include = Some [] ->
     exclude = None \/ exclude = Some [] ->
     direct = None \/ direct = Some false ->
     filterRoutes quotes {| maxPriceImpact := None; maxHops := None;
                            includeDexes := include; excludeDexes := exclude;
                            directOnly := direct |} = quotes)
  /\ filterRoutes quotes {| maxPriceImpact := None; maxHops := Some 1;
                            includeDexes := None; excludeDexes := None;
                            directOnly := None |}
     = filterRoutes quotes direct_only.
Proof.
  split.
  - intros include exclude direct Hi He Hd. unfold filterRoutes.
    induction quotes as [|q quotes IH]; [reflexivity|].
    cbn [List.filter]. rewrite IH.
    replace (passes _ q) with true; [reflexivity|].
    unfold passes. cbn.
    destruct Hi as [-> | ->], He as [-> | ->], Hd as [-> | ->]; reflexivity.
  - unfold filterRoutes. induction quotes as [|q quotes IH]; [reflexivity|].
    cbn [List.filter]. rewrite IH, passes_direct_only.
    replace (passes _ q) with (length (routePlan q) <=? 1)%nat; [reflexivity|].
    unfold passes. cbn.
    destruct (length (routePlan q)) as [|[|n]]; try reflexivity.
    destruct (Z.ltb_spec 1 (Z.of_nat (S (S n)))); [reflexivity | lia].
Qed.

(** ** Transactions, continued *)

(** X21: [getTransactionStatus] makes one status request and nothing else;
    a finalized signature is reported as confirmed too, a processed or
    unknown one as neither. *)
Theorem getTransactionStatus_reply (conn : Connection) (signature : string)
  (w : World) :
  let run := getTransactionStatus conn signature w in
  requests (snd run) = requests w ++ [GetSignatureStatus signature]
  /\ timers (snd run) = timers w
  /\ now (snd run) = now w + latency conn (length (requests w))
  /\ match signatureStatus conn (length (requests w)) signature with
     | Throw e => fst run = Throw e
     | Ok None =>
         fst run = Ok {| ts_confirmed := false; ts_finalized := false;
                         ts_slot := None; ts_err := None |}
     | Ok (Some value) =>
         exists status,
           fst run = Ok status
           /\ ts_slot status = Some (status_slot value)
           /\ ts_err status <> None
           /\ (ts_finalized status = true
               <-> confirmationStatus value = Some finalized_level)
           /\ (ts_confirmed status = true
               <-> confirmationStatus value = Some confirmed_level
                   \/ confirmationStatus value = Some finalized_level)
           /\ (ts_finalized status = true -> ts_confirmed status = true)
     end.
Proof.
  intros run. unfold run, getTransactionStatus, getSignatureStatus, bind, request.
  destruct (signatureStatus conn (length (requests w)) signature)
    as [[value|]|e] eqn:E; cbn [fst snd requests timers now ret].
  - repeat (split; [reflexivity|]).
    eexists. split; [reflexivity|].
    cbn [ts_slot ts_err ts_finalized ts_confirmed].
    split; [reflexivity|]. split; [discriminate|].
    destruct (confirmationStatus value) as [[| |]|]; cbn;
      intuition (discriminate || congruence).
  - repeat (split; [reflexivity|]). reflexivity.
  - repeat (split; [reflexivity|]). reflexivity.
Qed.

(** X22: with no attempt allowed, [getRecentBlockhash] fails with its own
    error and asks the ledger nothing. *)
Theorem getRecentBlockhash_no_attempt (conn : Connection) (maxRetries : Z)
  (w : World) :
  maxRetries <= 0 ->
  getRecentBlockhash conn (Some maxRetries) w
  = (Throw (Error "Failed to get recent blockhash"), w).
Proof.
  intros H. unfold getRecentBlockhash. cbn [default from_option id].
  replace (Z.to_nat maxRetries) with 0%nat by lia. reflexivity.
Qed.

Lemma getRecentBlockhash_no_attempt_witness :
  getRecentBlockhash quiet_connection (Some 0) start
  = (Throw (Error "Failed to get recent blockhash"), start).
Proof. apply getRecentBlockhash_no_attempt. lia. Defined.

Section Clock.

Variable conn : Connection.
Hypothesis latency_nonneg : forall n, 0 <= latency conn n.
Hypothesis timer_lag_nonneg : forall n, 0 <= timer_lag conn n.

(** The clock runs at least as long as the timers that were set. *)
Lemma getRecentBlockhash_loop_clock (remaining : nat) :
  forall (i : Z) (lastError : option Thrown) (w : World),
    exists new,
      timers (snd (getRecentBlockhash_loop conn remaining i lastError w))
      = timers w ++ new
      /\ now w + foldr Z.add 0 new
         <= now (snd (getRecentBlockhash_loop conn remaining i lastError w)).
Proof.
  induction remaining as [|remaining IH]; intros i lastError w.
  - exists []. cbn. rewrite app_nil_r. split; [reflexivity | lia].
  - cbn [getRecentBlockhash_loop]. unfold bind, attempt, getLatestBlockhash, request.
    destruct (latestBlockhash conn (length (requests w))) as [info|e].
    + exists []. cbn. rewrite app_nil_r. split; [reflexivity|].
      pose proof (latency_nonneg (length (requests w))). lia.
    + unfold sleep. cbn [timers requests now].
      match goal with
      | |- context [getRecentBlockhash_loop conn remaining ?i' ?le ?w'] =>
          destruct (IH i' le w') as (new & H1 & H2)
      end.
      cbn [timers now] in H1, H2.
      exists (1000 * (i + 1) :: new). rewrite H1, <- app_assoc.
      split; [reflexivity|]. cbn [foldr].
      pose proof (latency_nonneg (length (requests w))).
      pose proof (timer_lag_nonneg (length (timers w))). lia.
Qed.

Lemma backoff_sum (k : nat) (i : Z) :
  foldr Z.add 0 (backoff i k)
  = 1000 * Z.of_nat k * i + 500 * Z.of_nat k * (Z.of_nat k + 1).
Proof.
  revert i. induction k as [|k IH]; intros i; [reflexivity|].
  rewrite backoff_cons. cbn [foldr]. rewrite IH. lia.
Qed.

End Clock.

(** X23: the waits of [getRecentBlockhash] add up: after [k] failed
    attempts the caller has waited at least [500 * k * (k + 1)]
    milliseconds, also when the last allowed attempt has failed. *)
Theorem getRecentBlockhash_waits (conn : Connection) (maxRetries : option Z)
  (w : World) (failures : list Thrown) :
  (forall n, 0 <= latency conn n) ->
  (forall n, 0 <= timer_lag conn n) ->
  (forall j e, failures !! j = Some e ->
               latestBlockhash conn (length (requests w) + j) = Throw e) ->
  let attempts := Z.to_nat (default 3 maxRetries) in
  let run := getRecentBlockhash conn maxRetries w in
  let k := Z.of_nat (length failures) in
  (length failures = attempts
   \/ ((length failures < attempts)%nat
       /\ exists info,
            latestBlockhash conn (length (requests w) + length failures)
            = Ok info)) ->
  now w + 500 * k * (k + 1) <= now (snd run)
  /\ (length failures = attempts -> maxRetries = None ->
      now w + 6000 <= now (snd run)).
Proof.
  intros Hlat Hlag Hfail attempts run k Hcase.
  assert (Hmain : now w + 500 * k * (k + 1) <= now (snd run)).
  { unfold run, getRecentBlockhash. fold attempts.
    destruct (getRecentBlockhash_loop_clock conn Hlat Hlag attempts 0 None w)
      as (new & Hnew & Hclock).
    destruct (getRecentBlockhash_loop conn attempts 0 None w) as [r w'] eqn:E.
    cbn [snd] in *.
    destruct (getRecentBlockhash_loop_spec conn failures attempts 0 None w
                Hfail r w' E) as (Hok & Hall).
    assert (Ht : timers w' = timers w ++ backoff 0 (length failures)).
    { destruct Hcase as [Heq | (Hlt & info & Hinfo)].
      - destruct (Hall Heq) as (_ & Ht & _). exact Ht.
      - destruct (Hok Hlt info Hinfo) as (_ & Ht & _). exact Ht. }
    rewrite Ht in Hnew. apply app_inv_head in Hnew. subst new.
    rewrite backoff_sum in Hclock. unfold k. lia. }
  split; [exact Hmain|].
  intros Hlen ->. unfold k in Hmain. rewrite Hlen in Hmain.
  unfold attempts in Hmain. cbn in Hmain. exact Hmain.
Qed.

Lemma getRecentBlockhash_waits_witness :
  (now start + 6000 <=? now (snd (getRecentBlockhash quiet_connection None start)))
  = true.
Proof.
  apply Z.leb_le.
  apply (getRecentBlockhash_waits quiet_connection None start
           (repeat (Error "fetch failed") 3)).
  - intros n. cbn. lia.
  - intros n. cbn. lia.
  - intros j e Hj. apply lookup_lt_Some in Hj as Hlt. cbn [length repeat] in Hlt.
    destruct j as [|[|[|j]]]; cbn in Hj; try lia; injection Hj as <-; reflexivity.
  - left. reflexivity.
  - reflexivity.
  - reflexivity.
Defined.

(** X24: with a timeout of zero or less, [waitForConfirmation] reports the
    timeout at once and asks the ledger nothing; [confirmTransaction] of
    the client takes a timeout of zero for the default instead. *)
Theorem waitForConfirmation_no_time (fuel : nat) (conn : Connection)
  (signature : string) (timeoutMs : Z) (commitment : Commitment) (w : World) :
  timeoutMs <= 0 ->
  waitForConfirmation fuel conn signature (Some timeoutMs) commitment w
  = Some (Ok (timeout_result signature), w)
  /\ (timeoutMs < 0 ->
      SolanaClient.confirmTransaction fuel conn commitment signature
                                      (Some timeoutMs) w
      = Some (Ok (timeout_result signature), w))
  /\ SolanaClient.confirmTransaction fuel conn commitment signature (Some 0) w
     = waitForConfirmation fuel conn signature None commitment w.
Proof.
  intros H.
  assert (Hrun : forall t, t <= 0 ->
            waitForConfirmation fuel conn signature (Some t) commitment w
            = Some (Ok (timeout_result signature), w)).
  { intros t Ht. unfold waitForConfirmation. cbn [default from_option id].
    destruct fuel; cbn [waitForConfirmation_loop];
      (destruct (Z.ltb_spec (now w - now w) t); [lia | reflexivity]). }
  split; [exact (Hrun _ H)|]. split; [|reflexivity].
  intros Hneg. unfold SolanaClient.confirmTransaction.
  destruct (Z.eqb_spec timeoutMs 0); [lia|]. apply Hrun. lia.
Qed.

Lemma waitForConfirmation_no_time_witness :
  waitForConfirmation 0 quiet_connection "signature" (Some 0) confirmed_level start
  = Some (Ok (timeout_result "signature"), start).
Proof.
  destruct (waitForConfirmation_no_time 0 quiet_connection "signature" 0
              confirmed_level start ltac:(lia)) as (H & _).
  exact H.
Defined.

(** X25: the client prices a legacy transaction at 5000 lamports without
    compiling its message or asking the ledger, where the utility compiles
    the message and asks. *)
Theorem SolanaClient_estimateTransactionFee_legacy (conn : Connection)
  (w : World) :
  (forall compileMessage,
     SolanaClient.estimateTransactionFee conn (Transaction compileMessage) w
     = (Ok 5000, w))
  /\ (forall e,
        estimateTransactionFee conn (Transaction (Throw e)) w = (Throw e, w))
  /\ (forall message,
        requests (snd (estimateTransactionFee conn (Transaction (Ok message)) w))
        = requests w ++ [GetFeeForMessage message])
  /\ (forall message value,
        feeForMessage conn (length (requests w)) message = Ok value ->
        (fst (estimateTransactionFee conn (Transaction (Ok message)) w) = Ok 5000
         <-> value = None \/ value = Some 0 \/ value = Some 5000)).
Proof.
  split; [reflexivity|]. split; [reflexivity|]. split.
  { intros message.
    unfold estimateTransactionFee, getFeeForMessage, bind, request.
    destruct (feeForMessage conn (length (requests w)) message); reflexivity. }
  intros message value Hv.
  destruct (estimateTransactionFee_value conn message w value Hv) as (_ & ->).
  unfold fee_or_default. destruct value as [fee|].
  - destruct (Z.eqb_spec fee 0) as [->|Hne].
    + split; [auto | reflexivity].
    + split.
      * intros E. injection E as ->. auto.
      * intros [E | [E | E]]; congruence.
  - split; [auto | reflexivity].
Qed.

(** ** Token amounts *)

Section TokenAmounts.

Lemma parseTokenAmount_parseAmount (amount : string) (decimals : nat) :
  parseTokenAmount amount decimals = parseAmount amount decimals.
Proof. reflexivity. Qed.

Lemma pow10_pos (n : nat) : 0 < 10 ^ Z.of_nat n.
Proof. apply Z.pow_pos_nonneg; lia. Qed.

Lemma pow10_split (a b : nat) :
  (b <= a)%nat -> 10 ^ Z.of_nat a = 10 ^ Z.of_nat (a - b) * 10 ^ Z.of_nat b.
Proof. intros H. rewrite <- Z.pow_add_r by lia. f_equal. lia. Qed.

(** The digits that [formatTokenAmount] keeps of a fraction [F] of [d]
    digits, read back with [d] decimals, are [F] without its last
    [d - m] digits. *)
Lemma kept_fraction (P : list ascii) (d m : nat) :
  Str.all_digits P = true -> length P = d ->
  let t := Str.strip_trailing_zeros (Str.slice0 P m) in
  Str.all_digits t = true
  /\ (length t <= d)%nat
  /\ Str.nat_value t * 10 ^ Z.of_nat (d - length t)
     = Str.nat_value P - Str.nat_value P mod 10 ^ Z.of_nat (d - m).
Proof.
  intros HP Hlen t.
  set (P1 := Str.slice0 P m) in *.
  assert (HP1 : Str.all_digits P1 = true) by (apply all_digits_take; exact HP).
  assert (HL : length P1 = Nat.min m d).
  { unfold P1, Str.slice0. rewrite length_take. lia. }
  assert (HV : Str.nat_value P1 = Str.nat_value P / 10 ^ Z.of_nat (d - m)).
  { unfold P1, Str.slice0. destruct (Nat.le_gt_cases m d) as [Hle|Hgt].
    - rewrite nat_value_take by (assumption || lia). rewrite Hlen. reflexivity.
    - rewrite firstn_all2 by lia.
      replace (d - m)%nat with 0%nat by lia. rewrite Z.div_1_r. reflexivity. }
  pose proof (padEnd0_strip_trailing_zeros P1) as Hpad. fold t in Hpad.
  assert (Ht : Str.all_digits t = true)
    by (apply strip_trailing_zeros_digits; exact HP1).
  assert (Htl : (length t <= length P1)%nat).
  { pose proof (f_equal length Hpad) as Hl. unfold Str.padEnd0 in Hl.
    rewrite length_app, repeat_length in Hl. lia. }
  split; [exact Ht|]. split; [lia|].
  assert (HV1 : Str.nat_value P1
                = Str.nat_value t * 10 ^ Z.of_nat (length P1 - length t)).
  { pose proof (f_equal Str.nat_value Hpad) as Hv. unfold Str.padEnd0 in Hv.
    rewrite nat_value_app, nat_value_repeat0, repeat_length in Hv. lia. }
  pose proof (pow10_pos (d - m)) as Hpe.
  pose proof (Z.div_mod (Str.nat_value P) (10 ^ Z.of_nat (d - m)) ltac:(lia)) as Hdm.
  rewrite <- HV, HV1 in Hdm.
  replace (d - length t)%nat with ((length P1 - length t) + (d - m))%nat by lia.
  rewrite Nat2Z.inj_add, Z.pow_add_r by lia. lia.
Qed.

End TokenAmounts.

(** X26: an amount printed by [formatTokenAmount] and read back by
    [parseTokenAmount] has lost the digits beyond [maxDecimals], and
    nothing else. *)
Theorem parseTokenAmount_formatTokenAmount (x : Z) (d m : nat) :
  0 <= x -> (d <= 22)%nat ->
  exists s,
    formatTokenAmount (BigInt.toString x) d (Some m) = Ok s
    /\ parseTokenAmount s d
       = BigInt.toString (x - x mod 10 ^ Z.of_nat (d - m)).
Proof.
  intros Hx Hd. unfold formatTokenAmount. cbn [default from_option id].
  rewrite of_string_toString, (pow10_exact d Hd). cbn [rbind].
  pose proof (pow10_pos d) as Hp. pose proof (pow10_pos (d - m)) as Hpe.
  unfold BigInt.div, BigInt.rem.
  destruct (Z.eqb_spec (10 ^ Z.of_nat d) 0); [lia|]. cbn [rbind].
  rewrite Z.quot_div_nonneg, Z.rem_mod_nonneg by lia.
  set (W := x / 10 ^ Z.of_nat d). set (F := x mod 10 ^ Z.of_nat d).
  pose proof (Z.div_mod x (10 ^ Z.of_nat d) ltac:(lia)) as Hx'.
  pose proof (Z.mod_pos_bound x (10 ^ Z.of_nat d) Hp) as Hf.
  assert (Hw : 0 <= W) by (apply Z.div_pos; lia).
  fold W F in Hx', Hf.
  destruct (decimal_spec W Hw) as (Hwd & Hwv & _).
  assert (Hmod : x mod 10 ^ Z.of_nat (d - m) = F mod 10 ^ Z.of_nat (d - m)).
  { rewrite Hx' at 1.
    replace (10 ^ Z.of_nat d * W + F)
      with (F + W * 10 ^ Z.of_nat (d - (d - m)) * 10 ^ Z.of_nat (d - m))
      by (rewrite (pow10_split d (d - m)) by lia; ring).
    apply Z.mod_add. lia. }
  destruct (Z.eqb_spec F 0) as [Hz|Hnz].
  - eexists. split; [reflexivity|]. rewrite parseTokenAmount_parseAmount.
    unfold BigInt.toString at 1. rewrite to_chars_nonneg by assumption.
    rewrite (parseAmount_whole _ d Hwd), Hwv, Hmod, Hz, Z.mod_0_l by lia.
    f_equal. lia.
  - rewrite !to_chars_nonneg by lia.
    destruct (decimal_spec F ltac:(lia)) as (Hfd & Hfv & _).
    pose proof (decimal_length F d ltac:(lia)) as Hlen.
    set (P := Str.padStart0 (BigInt.decimal F) d).
    assert (HP : Str.all_digits P = true).
    { unfold P, Str.padStart0.
      rewrite all_digits_app, all_digits_repeat0, Hfd. reflexivity. }
    assert (HPl : length P = d).
    { unfold P, Str.padStart0. rewrite length_app, repeat_length. lia. }
    assert (HPv : Str.nat_value P = F).
    { unfold P, Str.padStart0.
      rewrite nat_value_app, nat_value_repeat0, Hfv. lia. }
    destruct (kept_fraction P d m HP HPl) as (Ht & Htl & Htv).
    rewrite HPv in Htv.
    destruct (Str.strip_trailing_zeros (Str.slice0 P m)) as [|c t] eqn:Et.
    + eexists. split; [reflexivity|]. rewrite parseTokenAmount_parseAmount.
      unfold BigInt.toString at 1. rewrite to_chars_nonneg by assumption.
      rewrite (parseAmount_whole _ d Hwd), Hwv, Hmod. f_equal.
      change (Str.nat_value []) with 0 in Htv. lia.
    + eexists. split; [reflexivity|]. rewrite parseTokenAmount_parseAmount.
      rewrite (parseAmount_fraction _ _ d Hwd Ht), nat_value_app, Hwv, Hmod.
      f_equal.
      set (T := Str.nat_value (c :: t)) in *.
      set (k := length (c :: t)) in *.
      pose proof (pow10_pos k) as Hpn. pose proof (pow10_pos (d - k)) as Hpdn.
      rewrite (pow10_split d k) by lia.
      rewrite Z.mul_assoc, Z.div_mul by lia.
      rewrite Z.mul_add_distr_r, <- Z.mul_assoc.
      rewrite (Z.mul_comm (10 ^ Z.of_nat k)), <- (pow10_split d k) by lia.
      lia.
Qed.

Lemma parseTokenAmount_formatTokenAmount_witness :
  formatTokenAmount "1234567891" 9 None = Ok "1.234567"%string
  /\ parseTokenAmount "1.234567" 9 = "1234567000"%string.
Proof.
  destruct (parseTokenAmount_formatTokenAmount 1234567891 9 6 ltac:(lia) ltac:(lia))
    as (s & H1 & H2).
  assert (E : formatTokenAmount "1234567891" 9 None = Ok "1.234567"%string)
    by reflexivity.
  split; [exact E|].
  change (formatTokenAmount (BigInt.toString 1234567891) 9 (Some 6%nat))
    with (formatTokenAmount "1234567891" 9 None) in H1.
  rewrite E in H1. injection H1 as <-. exact H2.
Defined.

(** ** DCA orders and the printed route *)

Section DCA.

Lemma filter_throwing_spec {A} (callback : A -> Result bool) (l : list A) :
  forall kept,
    filter_throwing callback l = Ok kept ->
    kept `sublist_of` l
    /\ (forall x, x ∈ kept -> callback x = Ok true)
    /\ (forall x, x ∈ l -> callback x = Ok true -> x ∈ kept).
Proof.
  induction l as [|x l IH]; intros kept H.
  - cbn in H. injection H as <-. split; [constructor|].
    split; intros x Hx; inversion Hx.
  - cbn [filter_throwing] in H.
    destruct (callback x) as [keep|] eqn:Ex; [|discriminate]. cbn [rbind] in H.
    destruct (filter_throwing callback l) as [kept'|]; [|discriminate].
    cbn [rbind] in H. injection H as <-.
    destruct (IH kept' eq_refl) as (Hsub & Hall & Hcomplete).
    destruct keep.
    + split; [constructor; exact Hsub|]. split.
      * intros y Hy. apply elem_of_cons in Hy as [-> | Hy]; auto.
      * intros y Hy Hc. apply elem_of_cons in Hy as [-> | Hy];
          [apply list_elem_of_here | apply list_elem_of_further; auto].
    + split; [constructor; exact Hsub|]. split; [exact Hall|].
      intros y Hy Hc. apply elem_of_cons in Hy as [-> | Hy]; [congruence | auto].
Qed.

Lemma has_funds_active (dca : DCAOrder) :
  has_funds dca = Ok true -> getDCAStatus dca = Ok active.
Proof.
  unfold has_funds, getDCAStatus.
  destruct (BigInt.of_string (inDeposited dca)) as [deposited|]; [|discriminate].
  destruct (BigInt.of_string (inUsed dca)) as [used|]; [|discriminate].
  destruct (BigInt.of_string (inWithdrawn dca)) as [withdrawn|]; [|discriminate].
  cbn [rbind]. intros H. injection H as H.
  apply andb_true_iff in H as (Hr & Hn).
  apply Z.ltb_lt in Hr, Hn.
  destruct (Z.eqb_spec (deposited - used - withdrawn) 0); [lia|].
  rewrite andb_false_r. cbn [andb].
  destruct (Z.eqb_spec (nextCycleAt dca) 0); [lia | reflexivity].
Qed.

End DCA.

(** X27: every order that [getActiveDCAs] keeps is an order of the user
    whose status is ['active']; the orders stay in their order. *)
Theorem getActiveDCAs_active (dcas kept : list DCAOrder) :
  getActiveDCAs dcas = Ok kept ->
  kept `sublist_of` dcas
  /\ forall dca, dca ∈ kept -> getDCAStatus dca = Ok active.
Proof.
  intros H. destruct (filter_throwing_spec _ _ _ H) as (Hsub & Hall & _).
  split; [exact Hsub|]. intros dca Hin. apply has_funds_active, Hall, Hin.
Qed.

Lemma getActiveDCAs_active_witness :
  getDCAStatus {| dca_publicKey := "order"; inDeposited := "100";
                  inWithdrawn := "0"; inUsed := "40";
                  inAmountPerCycle := "10"; nextCycleAt := 1700000000 |}
  = Ok active.
Proof.
  destruct (getActiveDCAs_active
              [{| dca_publicKey := "order"; inDeposited := "100";
                  inWithdrawn := "0"; inUsed := "40";
                  inAmountPerCycle := "10"; nextCycleAt := 1700000000 |}]
              _ eq_refl) as (_ & H).
  apply H. apply list_elem_of_here.
Defined.

(** An order with nothing deposited and a next cycle has the status
    ['active'] and is not among the active orders. *)
Example getActiveDCAs_not_every_active_order :
  getDCAStatus {| dca_publicKey := "order"; inDeposited := "0";
                  inWithdrawn := "0"; inUsed := "0";
                  inAmountPerCycle := "10"; nextCycleAt := 1700000000 |}
  = Ok active
  /\ getActiveDCAs [{| dca_publicKey := "order"; inDeposited := "0";
                       inWithdrawn := "0"; inUsed := "0";
                       inAmountPerCycle := "10"; nextCycleAt := 1700000000 |}]
     = Ok [].
Proof. split; reflexivity. Qed.

(** X28: the progress of an order: the percentage is the used share in
    basis points, as a percentage; what is used, withdrawn and remaining
    adds up to the deposit. *)
Theorem calculateProgress_shares (dca : DCAOrder) (deposited used withdrawn perCycle : Z) :
  BigInt.of_string (inDeposited dca) = Ok deposited ->
  BigInt.of_string (inUsed dca) = Ok used ->
  BigInt.of_string (inWithdrawn dca) = Ok withdrawn ->
  BigInt.of_string (inAmountPerCycle dca) = Ok perCycle ->
  0 <= used <= deposited -> 0 < deposited ->
  exists progress remaining,
    calculateProgress dca = Ok progress
    /\ percentComplete progress
       = bpsToPercentage (JS.of_Z (used * 10000 / deposited))
    /\ percentageToBps (percentComplete progress)
       = JS.Finite (inject_Z (used * 10000 / deposited))
    /\ 0 <= used * 10000 / deposited <= 10000
    /\ BigInt.of_string (amountUsed progress) = Ok used
    /\ BigInt.of_string (amountRemaining progress) = Ok remaining
    /\ used + withdrawn + remaining = deposited.
Proof.
  intros Hd Hu Hw Hp Hused Hpos.
  assert (Hbps : 0 <= used * 10000 / deposited <= 10000).
  { split; [apply Z.div_pos; lia|].
    apply Z.div_le_upper_bound; lia. }
  unfold calculateProgress. rewrite Hd, Hu, Hw, Hp. cbn [rbind].
  destruct (Z.ltb_spec 0 deposited); [|lia].
  unfold BigInt.div. destruct (Z.eqb_spec deposited 0); [lia|]. cbn [rbind].
  rewrite (Z.quot_div_nonneg (used * 10000) deposited) by lia.
  destruct (Z.ltb_spec 0 perCycle).
  - destruct (Z.eqb_spec perCycle 0); [lia|]. cbn [rbind].
    eexists. exists (deposited - used - withdrawn).
    split; [reflexivity|]. cbn [percentComplete amountUsed amountRemaining].
    split; [reflexivity|].
    split.
    { unfold percentageToBps, JSMath.of_BigInt.
      apply scale_round_trip; [|split; cbv; discriminate].
      assert (10000 < 2 ^ 50) by reflexivity. lia. }
    split; [exact Hbps|].
    rewrite !of_string_toString. split; [reflexivity|]. split; [reflexivity | lia].
  - cbn [rbind].
    eexists. exists (deposited - used - withdrawn).
    split; [reflexivity|]. cbn [percentComplete amountUsed amountRemaining].
    split; [reflexivity|].
    split.
    { unfold percentageToBps, JSMath.of_BigInt.
      apply scale_round_trip; [|split; cbv; discriminate].
      assert (10000 < 2 ^ 50) by reflexivity. lia. }
    split; [exact Hbps|].
    rewrite !of_string_toString. split; [reflexivity|]. split; [reflexivity | lia].
Qed.

Lemma calculateProgress_shares_witness :
  exists progress,
    calculateProgress {| dca_publicKey := "order"; inDeposited := "300";
                         inWithdrawn := "0"; inUsed := "100";
                         inAmountPerCycle := "10"; nextCycleAt := 1700000000 |}
    = Ok progress
    /\ percentageToBps (percentComplete progress) = JS.Finite (inject_Z 3333).
Proof.
  destruct (calculateProgress_shares
              {| dca_publicKey := "order"; inDeposited := "300";
                 inWithdrawn := "0"; inUsed := "100";
                 inAmountPerCycle := "10"; nextCycleAt := 1700000000 |}
              300 100 0 10 eq_refl eq_refl eq_refl eq_refl ltac:(lia) ltac:(lia))
    as (progress & remaining & H1 & _ & H3 & _).
  exists progress. split; [exact H1 | exact H3].
Defined.

Section FormatRoute.

Variable quote : JupiterQuote.

Lemma formatRoute_fold (steps : list RoutePlanStep) :
  forall routes currentRoute,
    currentRoute <> [] ->
    exists routes' currentRoute',
      fold_left (formatRoute_step quote) steps (routes, currentRoute)
      = (routes', currentRoute')
      /\ currentRoute' <> []
      /\ length routes'
         = (length routes + length (List.filter (starts_at_input quote) steps))%nat.
Proof.
  induction steps as [|step steps IH]; intros routes currentRoute Hne.
  - exists routes, currentRoute. cbn. split; [reflexivity|]. split; [exact Hne | lia].
  - cbn [fold_left List.filter]. unfold formatRoute_step at 2, starts_at_input at 1.
    destruct (String.eqb (step_inputMint step) (inputMint quote)).
    + destruct currentRoute as [|c cs]; [congruence|]. cbn [length Nat.ltb Nat.leb].
      destruct (IH (routes ++ [c :: cs])
                   ([step_inputMint step] ++ [hop_arrow step; step_outputMint step]))
        as (r' & c' & H1 & H2 & H3); [discriminate|].
      exists r', c'. split; [exact H1|]. split; [exact H2|].
      rewrite H3, length_app. cbn [length]. lia.
    + destruct (IH routes (currentRoute ++ [hop_arrow step; step_outputMint step]))
        as (r' & c' & H1 & H2 & H3).
      { destruct currentRoute; discriminate. }
      exists r', c'. split; [exact H1|]. split; [exact H2|]. exact H3.
Qed.

End FormatRoute.

(** X29: [formatRoute] prints one branch for each step that leaves the input
    mint, as [getRouteSummary] counts the split routes, and one more when
    the route plan does not start at the input mint; an empty plan gives
    ['No route found']. *)
Theorem formatRoute_branches (quote : JupiterQuote) :
  (routePlan quote = [] -> formatRoute quote = "No route found"%string)
  /\ (forall first rest,
        routePlan quote = first :: rest ->
        formatRoute quote
        = Array_join (String "010"%char "") (Array_join " " <$> formatRoute_routes quote)
        /\ length (formatRoute_routes quote)
           = ((if starts_at_input quote first then 0 else 1)
              + length (List.filter (starts_at_input quote) (routePlan quote)))%nat
        /\ forall summary,
             getRouteSummary quote = Ok summary ->
             step_inputMint first = inputMint quote ->
             length (formatRoute_routes quote) = splitRoutes summary).
Proof.
  split.
  - intros H. unfold formatRoute. rewrite H. reflexivity.
  - intros first rest Hplan.
    assert (Hlen : length (formatRoute_routes quote)
                   = ((if starts_at_input quote first then 0 else 1)
                      + length (List.filter (starts_at_input quote)
                                            (routePlan quote)))%nat).
    { unfold formatRoute_routes. rewrite Hplan. cbn [fold_left List.filter].
      unfold formatRoute_step at 2. cbn [length Nat.ltb Nat.leb].
      unfold starts_at_input at 1 2.
      destruct (String.eqb (step_inputMint first) (inputMint quote)).
      - destruct (formatRoute_fold quote rest []
                    ([step_inputMint first]
                     ++ [hop_arrow first; step_outputMint first]))
          as (r' & c' & H1 & H2 & H3); [discriminate|].
        rewrite H1. destruct c' as [|c cs]; [congruence|].
        cbn [length Nat.ltb Nat.leb]. rewrite length_app, H3. cbn [length]. lia.
      - destruct (formatRoute_fold quote rest []
                    ([] ++ [hop_arrow first; step_outputMint first]))
          as (r' & c' & H1 & H2 & H3); [discriminate|].
        rewrite H1. destruct c' as [|c cs]; [congruence|].
        cbn [length Nat.ltb Nat.leb]. rewrite length_app, H3. cbn [length]. lia. }
    split; [|split].
    + unfold formatRoute. rewrite Hplan. reflexivity.
    + exact Hlen.
    + intros summary Hs Hfirst.
      destruct (getRouteSummary_fields _ _ Hs) as (_ & Hsplit & _).
      rewrite Hlen, Hsplit, count_starts_at_input.
      unfold starts_at_input. rewrite Hfirst, String.eqb_refl. reflexivity.
Qed.

(** ** validateQuoteParams on every number but [NaN] *)

Section AmountDigits.

Lemma span_digits_all (l : list ascii) :
  Str.all_digits l = true -> JS.span_digits l = (l, []).
Proof.
  induction l as [|c l IH]; [reflexivity|].
  cbn. intros H. apply andb_true_iff in H as [-> Hl].
  rewrite (IH Hl). reflexivity.
Qed.

(** [Number] reads a string of decimal digits as the binary64 value
    nearest to the number it denotes. *)
Lemma Number_digit_string (s : string) :
  Str.all_digits (Str.chars s) = true -> Str.chars s <> [] ->
  JS.of_string s = JS.of_Z (Str.nat_value (Str.chars s)).
Proof.
  intros H Hne. unfold JS.of_string.
  rewrite (trim_none _ (digits_no_space _ H)).
  destruct (Str.chars s) as [|c l] eqn:El; [congruence|].
  rewrite (radix_prefix_digits _ H).
  assert (Hc : 48 <= Str.code c <= 57).
  { cbn in H. rewrite andb_true_iff in H. apply is_digit_spec, H. }
  unfold JS.scan_signed.
  destruct (Z.eqb_spec (Str.code c) 45); [lia|].
  destruct (Z.eqb_spec (Str.code c) 43); [lia|].
  unfold JS.scan_unsigned.
  assert (HI : JS.starts_with (Str.chars "Infinity") (c :: l) = None).
  { cbn [Str.chars list_ascii_of_string JS.starts_with].
    destruct (Ascii.eqb_spec "I"%char c) as [<-|]; [|reflexivity].
    change (Str.code "I"%char) with 73 in Hc. lia. }
  rewrite HI, (span_digits_all _ H). cbn [JS.scan_exponent].
  rewrite app_nil_r. cbn [length Z.of_nat Z.opp JS.of_literal].
  unfold JS.decimal_Q, JS.of_Z. cbn [Z.leb Z.compare].
  rewrite Z.pow_0_r, Z.mul_1_r. reflexivity.
Qed.

(** A positive integer rounds to a positive number or to [Infinity]. *)
Lemma round_pos_integer_positive (n : Z) :
  0 < n -> positive_number (JS.round_pos n 1).
Proof.
  intros Hn. unfold JS.round_pos.
  assert (He : JS.ilog2 n 1 = Z.log2 n).
  { unfold JS.ilog2. change (Z.log2 1) with 0. rewrite Z.sub_0_r.
    pose proof (Z.log2_nonneg n) as H0.
    pose proof (Z.log2_spec n Hn) as [Hlo _].
    destruct (Z.leb_spec 0 (Z.log2 n)); [|lia].
    destruct (Z.leb_spec (1 * 2 ^ Z.log2 n) n); lia. }
  rewrite He.
  pose proof (Z.log2_nonneg n) as H0.
  pose proof (Z.log2_spec n Hn) as [Hlo _].
  replace (Z.max (Z.log2 n) (-1022)) with (Z.log2 n) by lia.
  set (k := Z.log2 n - 52).
  set (m := if 0 <=? k then _ else _).
  assert (Hm : 0 < m).
  { unfold m. destruct (Z.leb_spec 0 k) as [Hk|Hk].
    - assert (Hp : 0 < 2 ^ k) by (apply Z.pow_pos_nonneg; lia).
      pose proof (div_half_even_error n (1 * 2 ^ k) ltac:(lia) ltac:(lia)) as Herr.
      assert (H2 : 2 ^ Z.log2 n = 2 ^ 52 * 2 ^ k).
      { rewrite <- Z.pow_add_r by lia. f_equal. unfold k. lia. }
      change (2 ^ 52) with 4503599627370496 in H2. nia.
    - assert (Hp : 0 < 2 ^ (- k)) by (apply Z.pow_pos_nonneg; lia).
      pose proof (div_half_even_error (n * 2 ^ (- k)) 1 ltac:(nia) ltac:(lia)) as Herr.
      nia. }
  destruct (2 ^ (1024 - k) <=? m); [reflexivity|].
  cbn [positive_number]. unfold JS.scale2. destruct (Z.leb_spec 0 k).
  - unfold Qlt. cbn [Qnum Qden inject_Z].
    assert (0 < 2 ^ k) by (apply Z.pow_pos_nonneg; lia). nia.
  - unfold Qlt. cbn [Qnum Qden]. lia.
Qed.

Lemma of_Z_positive (z : Z) : positive_number (JS.of_Z z) <-> 0 < z.
Proof.
  unfold JS.of_Z, JS.round. cbn [inject_Z Qnum Qden].
  destruct z as [|p|p].
  - cbn. split; [intros H; inversion H | lia].
  - split; [lia|]. intros _. apply round_pos_integer_positive. lia.
  - split; [|lia]. intros H. exfalso.
    destruct (round_pos_nonneg (Z.pos p) 1) as [(y & Hy & Hy0)| Hy]; try lia;
      rewrite Hy in H; cbn in H.
    + apply (Qlt_not_le _ _ H). lra.
    + discriminate.
Qed.

End AmountDigits.

(** X30: for parameters whose slippage and platform fee, when present,
    are numbers other than [NaN], [validateQuoteParams] returns
    [valid: true] with no error exactly when every rule holds (input and
    output mint present, not empty and different, amount present and a
    strictly positive number, slippage and platform fee in [[0, 10000]]
    when present); otherwise it returns [valid: false] and the message of
    every violated rule, each once.  The amount is read by [Number]: an
    amount written in decimal digits is a positive number exactly when
    the integer it denotes is positive, and ["abc"], ["-5"], ["0"] and
    ["1,5"] are not positive numbers, while ["1e3"], ["0x10"], [" 5 "]
    and ["Infinity"] are. *)
Theorem validateQuoteParams_reports_every_rule (params : QuoteParams) :
  qp_slippageBps params <> Some JS.NaN ->
  qp_platformFeeBps params <> Some JS.NaN ->
  let r := validateQuoteParams params in
  let amount := JS.of_string (default ""%string (qp_amount params)) in
  (valid r = true <-> errors r = [])
  /\ (valid r = true <->
      truthy (qp_inputMint params) = true
      /\ truthy (qp_outputMint params) = true
      /\ qp_inputMint params <> qp_outputMint params
      /\ truthy (qp_amount params) = true /\ positive_number amount
      /\ in_bps_range (qp_slippageBps params)
      /\ in_bps_range (qp_platformFeeBps params))
  /\ ("Input mint address is required"%string ∈ errors r
      <-> truthy (qp_inputMint params) = false)
  /\ ("Output mint address is required"%string ∈ errors r
      <-> truthy (qp_outputMint params) = false)
  /\ ("Amount is required"%string ∈ errors r
      <-> truthy (qp_amount params) = false)
  /\ ("Amount must be a positive number"%string ∈ errors r
      <-> truthy (qp_amount params) = true /\ ~ positive_number amount)
  /\ ("Input and output tokens must be different"%string ∈ errors r
      <-> truthy (qp_inputMint params) = true
          /\ truthy (qp_outputMint params) = true
          /\ qp_inputMint params = qp_outputMint params)
  /\ ("Slippage must be between 0 and 10000 basis points"%string ∈ errors r
      <-> ~ in_bps_range (qp_slippageBps params))
  /\ ("Platform fee must be between 0 and 10000 basis points"%string ∈ errors r
      <-> ~ in_bps_range (qp_platformFeeBps params))
  /\ NoDup (errors r)
  /\ (Str.all_digits (Str.chars (default ""%string (qp_amount params))) = true ->
      truthy (qp_amount params) = true ->
      (positive_number amount
       <-> 0 < Str.nat_value (Str.chars (default ""%string (qp_amount params)))))
  /\ (JS.of_string "abc" = JS.NaN /\ JS.of_string "1,5" = JS.NaN
      /\ ~ positive_number (JS.of_string "-5")
      /\ ~ positive_number (JS.of_string "0")
      /\ positive_number (JS.of_string "0.5")
      /\ positive_number (JS.of_string "1e3")
      /\ positive_number (JS.of_string "0x10")
      /\ positive_number (JS.of_string " 5 ")
      /\ JS.of_string "Infinity" = JS.Infinity false).
Proof.
  intros Hslip Hfee r amount. subst r amount.
  pose proof (not_positive_spec
                (JS.of_string (default ""%string (qp_amount params)))) as Hpos.
  pose proof (out_of_bps_range_spec _ Hslip) as Hs.
  pose proof (out_of_bps_range_spec _ Hfee) as Hf.
  split. { apply valid_spec. }
  split. { rewrite valid_spec. apply errors_nil; assumption. }
  split. { rewrite input_required_in. apply negb_true_iff. }
  split. { rewrite output_required_in. apply negb_true_iff. }
  split. { rewrite amount_required_in. apply negb_true_iff. }
  split.
  { rewrite amount_positive_in, andb_true_iff, <- Hpos.
    rewrite <- true_iff_not_false. reflexivity. }
  split.
  { rewrite different_in, !andb_true_iff, bool_decide_eq_true. tauto. }
  split.
  { rewrite slippage_in, <- Hs. apply true_iff_not_false. }
  split.
  { rewrite platform_fee_in, <- Hf. apply true_iff_not_false. }
  split. { apply errors_NoDup. }
  split.
  { intros Hd Ht. rewrite Number_digit_string.
    - apply of_Z_positive.
    - exact Hd.
    - destruct (qp_amount params) as [[|c s]|]; cbn in Ht |- *;
        congruence. }
  split; [vm_compute; reflexivity|]. split; [vm_compute; reflexivity|].
  split; [vm_compute; discriminate|]. split; [vm_compute; discriminate|].
  split; [vm_compute; reflexivity|]. split; [vm_compute; reflexivity|].
  split; [vm_compute; reflexivity|]. split; vm_compute; reflexivity.
Qed.

Lemma validateQuoteParams_reports_every_rule_witness :
  validateQuoteParams
    {| qp_inputMint := Some "A"%string; qp_outputMint := Some "B"%string;
       qp_amount := Some "5"%string; qp_slippageBps := Some (JS.of_Z 50);
       qp_platformFeeBps := None |}
  = {| valid := true; errors := [] |}
  /\ NoDup (errors (validateQuoteParams
       {| qp_inputMint := Some "A"%string; qp_outputMint := Some "B"%string;
          qp_amount := Some "5"%string; qp_slippageBps := Some (JS.of_Z 50);
          qp_platformFeeBps := None |})).
Proof.
  split; [vm_compute; reflexivity|].
  assert (Hslip : Some (JS.of_Z 50) <> Some JS.NaN) by (vm_compute; discriminate).
  assert (Hfee : @None JS.Number <> Some JS.NaN) by discriminate.
  pose proof (validateQuoteParams_reports_every_rule
                {| qp_inputMint := Some "A"%string; qp_outputMint := Some "B"%string;
                   qp_amount := Some "5"%string; qp_slippageBps := Some (JS.of_Z 50);
                   qp_platformFeeBps := None |} Hslip Hfee) as H.
  cbv zeta in H.
  destruct H as (_ & _ & _ & _ & _ & _ & _ & _ & _ & Hnd & _).
  exact Hnd.
Defined.
